(** * ApplicationInsights-JS: browser utilities and the integrity-file generator

    A shallow embedding of

    - [tools/subResourceIntegrity/generateIntegrityFile.js]
      ([getFilename], [processPath]), and
    - the common utilities module ([Util], [UrlHelper],
      [CorrelationIdHelper], [dateTimeUtilsDuration]),

    followed by the properties established for them.

    JavaScript strings are modelled by [string]: sequences of 8-bit code
    units, which covers the ASCII/Latin-1 range the code inspects.  Indices
    and lengths are [Z], as [indexOf] answers [-1] when nothing is found. *)

From Stdlib Require Import ZArith String Ascii List Bool Lia PrimFloat.
From stdpp Require Import base option gmap strings.

Local Open Scope string_scope.
Local Open Scope Z_scope.

(** ** JavaScript string primitives *)

Definition len (s : string) : Z := Z.of_nat (String.length s).

(** [s.startsWith(p)] *)
Fixpoint startsWith (s p : string) {struct p} : bool :=
  match p with
  | EmptyString => true
  | String a p' =>
      match s with
      | String b s' => Ascii.eqb a b && startsWith s' p'
      | EmptyString => false
      end
  end.

(** [s.indexOf(sub)], scanning from position [i] of the original string *)
Fixpoint indexOf_from (i : Z) (s sub : string) : Z :=
  if startsWith s sub then i
  else match s with
       | EmptyString => -1
       | String _ s' => indexOf_from (i + 1) s' sub
       end.

Definition indexOf (s sub : string) : Z := indexOf_from 0 s sub.

(** [s.lastIndexOf(sub)] *)
Fixpoint lastIndexOf (s sub : string) : Z :=
  match s with
  | EmptyString => if startsWith s sub then 0 else -1
  | String _ s' =>
      let r := lastIndexOf s' sub in
      if negb (r =? -1) then r + 1
      else if startsWith s sub then 0 else -1
  end.

Definition clamp (n : Z) (s : string) : Z := Z.max 0 (Z.min n (len s)).

(** [s.substring(a, b)]: both ends are clamped to the string and swapped
    when out of order. *)
Definition substring (s : string) (a b : Z) : string :=
  let a' := clamp a s in
  let b' := clamp b s in
  let lo := Z.min a' b' in
  let hi := Z.max a' b' in
  String.substring (Z.to_nat lo) (Z.to_nat (hi - lo)) s.

(** [s.substring(a)] *)
Definition substring_from (s : string) (a : Z) : string :=
  substring s a (len s).

(** [s.endsWith(p)] *)
Definition endsWith (s p : string) : bool :=
  (len p <=? len s) && String.eqb (substring_from s (len s - len p)) p.

(** The lower-case form of one code unit of the Latin-1 range: the
    letters A to Z and the capitals 192 to 222, leaving out the
    multiplication sign 215, move up by 32; every other code unit, the
    sharp s and the y with diaeresis included, stays. *)
Definition lower_char (c : ascii) : ascii :=
  let n := nat_of_ascii c in
  if (((65 <=? n) && (n <=? 90))
      || ((192 <=? n) && (n <=? 222) && negb (n =? 215)))%nat
  then ascii_of_nat (n + 32) else c.

(** [s.toLowerCase()] *)
Fixpoint toLowerCase (s : string) : string :=
  match s with
  | EmptyString => EmptyString
  | String c s' => String (lower_char c) (toLowerCase s')
  end.

(** [s.split(sep)] for a one-character separator; the result always has at
    least one element. *)
Fixpoint split (sep : ascii) (s : string) : list string :=
  match s with
  | EmptyString => [EmptyString]
  | String c s' =>
      if Ascii.eqb c sep then EmptyString :: split sep s'
      else match split sep s' with
           | w :: ws => String c w :: ws
           | [] => [String c EmptyString]
           end
  end.

(** A string is truthy when it is not empty. *)
Definition truthy (s : string) : bool := negb (String.eqb s "").

(** ** Regular expressions

    The fragment of the JavaScript regular-expression language used by the
    sources: character classes, greedy repetition of a class, sequencing,
    greedy optional groups, capture groups and the end-of-input assertion.
    Matching is by backtracking in priority order, as in a JavaScript
    engine; [matchk] takes the continuation to run on the rest of the
    input. *)

Inductive regex : Type :=
| Eps
| Chr (p : ascii -> bool)
| Rep (p : ascii -> bool) (lo : nat) (hi : option nat)
| Seq (r1 r2 : regex)
| Opt (r : regex)
| Grp (n : nat) (r : regex)
| Eos.

Definition captures : Type := nat -> option string.

Definition no_captures : captures := fun _ => None.

Definition set_capture (n : nat) (v : string) (c : captures) : captures :=
  fun m => if Nat.eqb m n then Some v else c m.

(** the part of [s] consumed when the remaining input is [rest] *)
Definition consumed (s rest : string) : string :=
  String.substring 0 (String.length s - String.length rest) s.

Definition below (hi : option nat) (n : nat) : bool :=
  match hi with
  | None => true
  | Some h => Nat.ltb n h
  end.

Fixpoint rep_greedy {X : Type} (p : ascii -> bool) (lo : nat) (hi : option nat)
    (n : nat) (s : string) (k : string -> option X) : option X :=
  let stop := if Nat.leb lo n then k s else None in
  match s with
  | String c s' =>
      if p c && below hi n
      then match rep_greedy p lo hi (S n) s' k with
           | Some x => Some x
           | None => stop
           end
      else stop
  | EmptyString => stop
  end.

Fixpoint matchk {X : Type} (r : regex) (s : string) (c : captures)
    (k : string -> captures -> option X) : option X :=
  match r with
  | Eps => k s c
  | Chr p =>
      match s with
      | String a s' => if p a then k s' c else None
      | EmptyString => None
      end
  | Rep p lo hi => rep_greedy p lo hi 0 s (fun s' => k s' c)
  | Seq r1 r2 => matchk r1 s c (fun s' c' => matchk r2 s' c' k)
  | Opt r1 =>
      match matchk r1 s c k with
      | Some x => Some x
      | None => k s c
      end
  | Grp n r1 =>
      matchk r1 s c (fun s' c' => k s' (set_capture n (consumed s s') c'))
  | Eos =>
      match s with
      | EmptyString => k s c
      | String _ _ => None
      end
  end.

(** a match attempt at the start of [s]: the matched text and the groups *)
Definition match_here (r : regex) (s : string) : option (string * captures) :=
  matchk r s no_captures (fun s' c => Some (consumed s s', c)).

(** [re.exec(s)] for an expression without [^]: the leftmost match *)
Fixpoint exec (r : regex) (s : string) : option (string * captures) :=
  match match_here r s with
  | Some m => Some m
  | None =>
      match s with
      | EmptyString => None
      | String _ s' => exec r s'
      end
  end.

(** [re.test(s)] *)
Definition test (r : regex) (s : string) : bool :=
  match exec r s with Some _ => true | None => false end.

Definition is_digit (c : ascii) : bool :=
  let n := nat_of_ascii c in ((48 <=? n) && (n <=? 57))%nat.

Definition is_word (c : ascii) : bool :=
  let n := nat_of_ascii c in
  (is_digit c || ((65 <=? n) && (n <=? 90)) || ((97 <=? n) && (n <=? 122))
   || (n =? 95))%nat.

(** [.] matches everything but a line terminator *)
Definition is_dot (c : ascii) : bool :=
  let n := nat_of_ascii c in negb ((n =? 10) || (n =? 13))%nat.

Definition lit (a : ascii) (c : ascii) : bool := Ascii.eqb c a.

(** a literal character under the [i] flag *)
Definition is_ci (a : ascii) (c : ascii) : bool :=
  Ascii.eqb (lower_char c) (lower_char a).

Fixpoint seqs (rs : list regex) : regex :=
  match rs with
  | [] => Eps
  | [r] => r
  | r :: rs' => Seq r (seqs rs')
  end.

(** a literal piece of text, case-sensitive or under the [i] flag *)
Fixpoint text (s : string) : regex :=
  match s with
  | EmptyString => Eps
  | String a EmptyString => Chr (lit a)
  | String a s' => Seq (Chr (lit a)) (text s')
  end.

Fixpoint text_ci (s : string) : regex :=
  match s with
  | EmptyString => Eps
  | String a EmptyString => Chr (is_ci a)
  | String a s' => Seq (Chr (is_ci a)) (text_ci s')
  end.

(** the groups 1 to 3 of a match, when all three took part in it *)
Definition groups3 (m : option (string * captures))
    : option (string * string * string) :=
  match m with
  | Some (_, c) =>
      match c 1%nat, c 2%nat, c 3%nat with
      | Some g1, Some g2, Some g3 => Some (g1, g2, g3)
      | _, _, _ => None
      end
  | None => None
  end.

(** ** Exceptions and completions *)

Inductive exn : Type :=
| Error (msg : string)
| TypeError
| HostError (msg : string).

(** ** tools/subResourceIntegrity/generateIntegrityFile.js *)

(** the expression "/^(.*\d)(\..*js)$/" *)
Definition isVersioned : regex :=
  seqs [ Grp 1 (Seq (Rep is_dot 0 None) (Chr is_digit));
         Grp 2 (seqs [Chr (lit "."); Rep is_dot 0 None; text "js"]);
         Eos ].

(** the expression "/^([^\d]*(\.\d{1,3}\.\d{1,3}\.\d{1,3}))(\..*js)$/" *)
Definition extractFilename : regex :=
  seqs [ Grp 1 (Seq (Rep (fun c => negb (is_digit c)) 0 None)
                    (Grp 2 (seqs [ Chr (lit "."); Rep is_digit 1 (Some 3%nat);
                                   Chr (lit "."); Rep is_digit 1 (Some 3%nat);
                                   Chr (lit "."); Rep is_digit 1 (Some 3%nat) ])));
         Grp 3 (seqs [Chr (lit "."); Rep is_dot 0 None; text "js"]);
         Eos ].

(** The object returned by [getFilename]: either [{ name }] alone or all
    five properties. *)
Record Names : Type := mkNames {
  names_name : string;
  names_module : option string;
  names_version : option string;
  names_format : option string;
  names_intFile : option string
}.

Definition bare (filename : string) : Names :=
  mkNames filename None None None None.

(** [inputFile] split at its last ["/"] (or, failing that, its last
    backslash) into [path] and [filename] *)
Definition split_path (inputFile : string) : string * string :=
  let pos := lastIndexOf inputFile "/" in
  let pos := if pos =? -1 then lastIndexOf inputFile "\" else pos in
  if negb (pos =? -1)
  then (substring inputFile 0 pos, substring_from inputFile (pos + 1))
  else ("", inputFile).

(** The [match] array of [getFilename] (elements 1 to 3) together with the
    value [module] has when the array is complete; [None] is [null].  The
    text written to the console is left out. *)
Definition find_match (inputFile packageVersion : string)
    : option (string * string * string) * string :=
  let '(path, filename) := split_path inputFile in
  let verIdx := indexOf filename ("." +:+ packageVersion) in
  if negb (verIdx =? -1) then
    let verIdx := verIdx + (len packageVersion + 1) in
    let module := substring filename 0 verIdx in
    (Some (path +:+ "/" +:+ module,
           packageVersion,
           substring_from filename (verIdx + 1)), module)
  else
    match match_here isVersioned inputFile with
    | Some _ => (groups3 (match_here extractFilename inputFile), filename)
    | None =>
        if endsWith filename ".js" then
          let idx := indexOf filename "." in
          if negb (idx =? -1) then
            let module := substring filename 0 idx in
            (Some (path +:+ "/" +:+ module,
                   packageVersion,
                   substring_from filename (idx + 1)), module)
          else (None, filename)
        else (None, filename)
    end.

(** the local [version] of [getFilename] once its leading dot is removed *)
Definition strip_dot (s : string) : string :=
  if startsWith s "." then substring_from s 1 else s.

Definition getFilename (inputFile packageVersion : string) : Names :=
  let filename := snd (split_path inputFile) in
  match find_match inputFile packageVersion with
  | (Some (intFile, version, format), module) =>
      if truthy version then
        let version := strip_dot version in
        if String.eqb version packageVersion then
          let idx := lastIndexOf filename ("." +:+ version) in
          let module := if negb (idx =? -1) then substring filename 0 idx
                        else module in
          let format := strip_dot format in
          mkNames filename (Some module) (Some version) (Some format)
                  (Some (intFile +:+ ".integrity.json"))
        else bare filename
      else bare filename
  | (None, _) => bare filename
  end.

(** the entries of [integrityCache] *)
Record Hashes : Type := mkHashes {
  sha256 : string;
  sha384 : string;
  sha512 : string
}.

Record FileDetails : Type := mkFileDetails {
  fd_file : string;
  fd_type : string;
  fd_integrity : string;
  fd_hashes : Hashes
}.

Record IntegrityJson : Type := mkIntegrityJson {
  ij_name : option string;
  ij_version : option string;
  ij_ext : option (gmap string FileDetails)
}.

(** how a possibly undefined string is spliced into a larger one *)
Definition to_str (o : option string) : string := default "undefined" o.

(** truthiness of a possibly undefined string *)
Definition truthy_opt (o : option string) : bool :=
  match o with Some s => truthy s | None => false end.

(** loose inequality [a != b] of two values that are strings or undefined *)
Definition loose_ne (a b : option string) : bool :=
  negb (bool_decide (a = b)).

Inductive algorithm : Type := SHA256 | SHA384 | SHA512.

Section IntegrityFile.

(** The file system and the hash library of the build host:
    [globby.sync], [fs.readFileSync(_, "utf8")] ([None] when the read
    throws) and the base64 digest of [crypto.createHash]. *)
Variable globby_sync : string -> list string.
Variable readFileSync : string -> option string.
Variable digest_base64 : algorithm -> string -> string.

Definition calculateHash (source : string) (a : algorithm) : string :=
  digest_base64 a source.

(** One turn of the callback given to [files.map] in [processPath].  The
    cache comes back together with the exception thrown, if any; an
    object of the cache that is mutated in place is written back under
    its key. *)
Definition processFile (version : string)
    (integrityCache : gmap string IntegrityJson) (inputFile : string)
    : gmap string IntegrityJson * option exn :=
  let names := getFilename inputFile version in
  if truthy_opt (names_intFile names) then
    match readFileSync inputFile with
    | None => (integrityCache, Some (HostError "readFileSync"))
    | Some src =>
        let hash256 := calculateHash src SHA256 in
        let hash384 := calculateHash src SHA384 in
        let hash512 := calculateHash src SHA512 in
        let key := to_str (names_intFile names) in
        let found :=
          match integrityCache !! key with
          | None =>
              inl (mkIntegrityJson (names_module names)
                     (if truthy_opt (names_version names)
                      then names_version names else None)
                     None)
          | Some integrityJson =>
              if loose_ne (ij_name integrityJson) (names_module names) then
                inr (Error ("Error! - Module name ["
                            +:+ to_str (ij_name integrityJson)
                            +:+ "] does not match expected ["
                            +:+ to_str (names_module names) +:+ "]"))
              else if truthy_opt (names_version names)
                      && loose_ne (ij_version integrityJson)
                                  (names_version names) then
                inr (Error ("Error! - Module version ["
                            +:+ to_str (ij_version integrityJson)
                            +:+ "] does not match expected ["
                            +:+ to_str (names_version names) +:+ "]"))
              else inl integrityJson
          end in
        match found with
        | inr e => (integrityCache, Some e)
        | inl integrityJson =>
            let name := "@" +:+ to_str (names_format names) in
            let details := default ∅ (ij_ext integrityJson) in
            let fileDetails :=
              mkFileDetails
                (names_name names)
                "text/javascript; charset=utf-8"
                ("sha256-" +:+ hash256 +:+ " sha384-" +:+ hash384
                 +:+ " sha512-" +:+ hash512)
                (mkHashes hash256 hash384 hash512) in
            (<[key := mkIntegrityJson (ij_name integrityJson)
                        (ij_version integrityJson)
                        (Some (<[name := fileDetails]> details))]>
               integrityCache,
             None)
        end
    end
  else (integrityCache, None).

(** [files.map(...)]: the files in order, up to the first exception *)
Fixpoint processFiles (version : string)
    (integrityCache : gmap string IntegrityJson) (files : list string)
    : gmap string IntegrityJson * option exn :=
  match files with
  | [] => (integrityCache, None)
  | inputFile :: rest =>
      match processFile version integrityCache inputFile with
      | (cache', None) => processFiles version cache' rest
      | thrown => thrown
      end
  end.

Definition processPath (integrityCache : gmap string IntegrityJson)
    (path version : string) : gmap string IntegrityJson * option exn :=
  processFiles version integrityCache (globby_sync path).

(** The two [processPath] calls of [generateIntegrityFile] for the
    version read from [package.json]; the second one is not reached when
    the first one throws. *)
Definition generateIntegrityFile (package_version : string)
    : gmap string IntegrityJson * option exn :=
  match processPath ∅ "./browser/**/*.js" package_version with
  | (cache, None) => processPath cache "./snippet/**/*.js" package_version
  | thrown => thrown
  end.

(** A build run: the files in the order they are handed to the callback of
    [processPath], each with the [version] of the call it belongs to, all
    on the same [integrityCache]. *)
Fixpoint processRun (integrityCache : gmap string IntegrityJson)
    (items : list (string * string))
    : gmap string IntegrityJson * option exn :=
  match items with
  | [] => (integrityCache, None)
  | (version, inputFile) :: rest =>
      match processFile version integrityCache inputFile with
      | (cache', None) => processRun cache' rest
      | thrown => thrown
      end
  end.

(** the details written for the file [name] whose text is [src] *)
Definition details_of (name src : string) : FileDetails :=
  mkFileDetails name "text/javascript; charset=utf-8"
    ("sha256-" +:+ calculateHash src SHA256
     +:+ " sha384-" +:+ calculateHash src SHA384
     +:+ " sha512-" +:+ calculateHash src SHA512)
    (mkHashes (calculateHash src SHA256)
       (calculateHash src SHA384) (calculateHash src SHA512)).

(** the record kept under [key] names [module] and [version] and holds
    details under [extKey] *)
Definition recorded (key module version extKey : string)
    (cache : gmap string IntegrityJson) : Prop :=
  exists (e : IntegrityJson) (m : gmap string FileDetails) (fd : FileDetails),
    cache !! key = Some e
    /\ ij_name e = Some module /\ ij_version e = Some version
    /\ ij_ext e = Some m /\ m !! extKey = Some fd.

End IntegrityFile.

(** ** JavaScript values and completions *)

Inductive value : Type :=
| VUndefined
| VNull
| VBool (b : bool)
| VNumber (x : float)
| VString (s : string)
| VObject (ref : nat).

(** How an evaluation ends: with a value, with an exception, or outside
    the fragment of JavaScript described here ([Beyond]): a pattern given
    to [new RegExp] that uses more than literals, [.] and [*], or
    arithmetic on operands that are not numbers. *)
Inductive completion (A : Type) : Type :=
| Return (a : A)
| Throw (e : exn)
| Beyond.

Arguments Return {A} a.
Arguments Throw {A} e.
Arguments Beyond {A}.

Definition bindC {A B : Type} (m : completion A) (f : A -> completion B)
    : completion B :=
  match m with
  | Return a => f a
  | Throw e => Throw e
  | Beyond => Beyond
  end.

(** Modelled from the spec: [isString] of applicationinsights-core-js, the
    test that a value is a string. *)
Definition isString (v : value) : bool :=
  match v with VString _ => true | _ => false end.

(** Modelled from the spec: [isNullOrUndefined] of
    applicationinsights-core-js. *)
Definition isNullOrUndefined (v : value) : bool :=
  match v with VNull | VUndefined => true | _ => false end.

(** Modelled from the spec: [strEndsWith] of applicationinsights-core-js,
    whether the first string ends with the second. *)
Definition strEndsWith (value search : string) : bool :=
  truthy value && truthy search && endsWith value search.

(** [v.indexOf(sub)] on a value: only strings are given the method here;
    [null] and [undefined] have no properties at all. *)
Definition call_indexOf (v : value) (sub : string) : completion Z :=
  match v with
  | VString s => Return (indexOf s sub)
  | VNull | VUndefined => Throw TypeError
  | VBool _ | VNumber _ => Throw TypeError
  | VObject _ => Beyond
  end.

(** [strEndsWith(v, search)] on a value; a falsy first argument gives
    [false] *)
Definition call_strEndsWith (v : value) (search : string) : completion bool :=
  match v with
  | VString s => Return (strEndsWith s search)
  | VNull | VUndefined => Return false
  | _ => Beyond
  end.

(** [v.indexOf(sub) !== -1] and [v.indexOf(sub) === -1] *)
Definition has (v : value) (sub : string) : completion bool :=
  bindC (call_indexOf v sub) (fun i => Return (negb (i =? -1))).

Definition lacks (v : value) (sub : string) : completion bool :=
  bindC (call_indexOf v sub) (fun i => Return (i =? -1)).

(** short-circuit [a || b] and [a && b] on completions *)
Definition orC (a b : completion bool) : completion bool :=
  bindC a (fun x => if x then Return true else b).

Definition andC (a b : completion bool) : completion bool :=
  bindC a (fun x => if x then b else Return false).

(** [if (c) { return true; } rest] *)
Definition if_return_true (c : completion bool) (rest : completion value)
    : completion value :=
  bindC c (fun x => if x then Return (VBool true) else rest).

(** ** Util.disallowsSameSiteNone *)

Definition disallowsSameSiteNone (userAgent : value) : completion value :=
  if negb (isString userAgent) then Return (VBool false)
  else
    if_return_true
      (orC (has userAgent "CPU iPhone OS 12") (has userAgent "iPad; CPU OS 12"))
   (if_return_true
      (andC (has userAgent "Macintosh; Intel Mac OS X 10_14")
            (andC (has userAgent "Version/") (has userAgent "Safari")))
   (if_return_true
      (andC (has userAgent "Macintosh; Intel Mac OS X 10_14")
            (call_strEndsWith userAgent
               "AppleWebKit/605.1.15 (KHTML, like Gecko)"))
   (if_return_true
      (orC (has userAgent "Chrome/5") (has userAgent "Chrome/6"))
   (if_return_true
      (andC (has userAgent "UnrealEngine") (lacks userAgent "Chrome"))
   (if_return_true
      (orC (has userAgent "UCBrowser/12") (has userAgent "UCBrowser/11"))
   (Return (VBool false))))))).

(** ** CorrelationIdHelper.getCorrelationContextValue *)

(** the [for] loop over [keyValues]; [None] is falling off its end *)
Fixpoint find_key (keyValues : list string) (key : string) : option string :=
  match keyValues with
  | [] => None
  | kv :: rest =>
      match split "=" kv with
      | [k; v] => if String.eqb k key then Some v else find_key rest key
      | _ => find_key rest key
      end
  end.

(** the result is a string or [undefined] *)
Definition getCorrelationContextValue (responseHeader key : string) : value :=
  if truthy responseHeader then
    match find_key (split "," responseHeader) key with
    | Some v => VString v
    | None => VUndefined
    end
  else VUndefined.

(** ** dateTimeUtilsDuration and DateTimeUtils *)

(** [v !== 0] *)
Definition strict_ne_zero (v : value) : bool :=
  match v with
  | VNumber x => negb (PrimFloat.eqb x 0%float)
  | _ => true
  end.

(** [a - b]; operands that are not numbers would be converted first, which
    is not described here *)
Definition minus (a b : value) : completion value :=
  match a, b with
  | VNumber x, VNumber y => Return (VNumber (PrimFloat.sub x y))
  | _, _ => Beyond
  end.

Definition dateTimeUtilsDuration (start end_ : value) : completion value :=
  let result := VNull in
  if strict_ne_zero start && strict_ne_zero end_
     && negb (isNullOrUndefined start) && negb (isNullOrUndefined end_)
  then minus end_ start
  else Return result.

Record IDateTimeUtils (NowT : Type) : Type := mkDateTimeUtils {
  Now : NowT;
  GetDuration : value -> value -> completion value
}.

Arguments mkDateTimeUtils {NowT} _ _.
Arguments Now {NowT} _.
Arguments GetDuration {NowT} _.

(** ** UrlHelper.parseFullHost and UrlHelper.parseHost *)

Definition not_slash_colon (c : ascii) : bool :=
  negb (Ascii.eqb c "/" || Ascii.eqb c ":").

(** the expression "/( \w* ):\/\/(.[^/:]+)(\:[\d]+)?/i" of [parseFullHost]
    (spaces added inside the first group) *)
Definition fullHost_re : regex :=
  seqs [ Grp 1 (Rep is_word 0 None);
         text_ci "://";
         Grp 2 (Seq (Chr is_dot) (Rep not_slash_colon 1 None));
         Opt (Grp 3 (Seq (Chr (lit ":")) (Rep is_digit 1 None))) ].

(** the expression "/(www[0-9]?\.)?(.[^/:]+)(\:[\d]+)?/i" *)
Definition host_re : regex :=
  seqs [ Opt (Grp 1 (seqs [text_ci "www"; Rep is_digit 0 (Some 1%nat);
                           Chr (lit ".")]));
         Grp 2 (Seq (Chr is_dot) (Rep not_slash_colon 1 None));
         Opt (Grp 3 (Seq (Chr (lit ":")) (Rep is_digit 1 None))) ].

(** [x || ""] for a capture group *)
Definition or_empty (o : option string) : string := default "" o.

(** [null] is [None] *)
Definition parseFullHost (url : string) (inclPort : bool) : option string :=
  if truthy url then
    match exec fullHost_re url with
    | Some (_, m) =>
        match m 2%nat with
        | Some m2 =>
            if 0 <? len m2 then
              let result := m2 in
              if inclPort then
                let protocol := toLowerCase (or_empty (m 1%nat)) in
                let port := or_empty (m 3%nat) in
                let port :=
                  if String.eqb protocol "http" && String.eqb port ":80"
                  then ""
                  else if String.eqb protocol "https" && String.eqb port ":443"
                  then ""
                  else port in
                Some (result +:+ port)
              else Some result
            else None
        | None => None
        end
    | None => None
    end
  else None.

Definition parseHost (url : string) (inclPort : bool) : option string :=
  let fullHost := parseFullHost url inclPort in
  match fullHost with
  | Some h =>
      if truthy h then
        match exec host_re h with
        | Some (_, m) =>
            match m 2%nat with
            | Some m2 =>
                if 0 <? len m2 then Some (m2 +:+ or_empty (m 3%nat))
                else fullHost
            | None => fullHost
            end
        | None => fullHost
        end
      else fullHost
  | None => fullHost
  end.

(** ** Patterns built from domain names *)

(** [s.replace(/c/g, by)] for a single character [c] *)
Fixpoint replace_all (c : ascii) (by_ : string) (s : string) : string :=
  match s with
  | EmptyString => EmptyString
  | String a s' =>
      if Ascii.eqb a c then by_ +:+ replace_all c by_ s'
      else String a (replace_all c by_ s')
  end.

Definition is_meta (c : ascii) : bool :=
  existsb (Ascii.eqb c)
    (list_ascii_of_string "\^$*+?()[]{}|").

(** [new RegExp(pattern)] for the patterns made of literal characters, [.]
    and [*] applied to one of the two. *)
Fixpoint new_RegExp (pattern : string) : completion regex :=
  match pattern with
  | EmptyString => Return Eps
  | String a rest =>
      if is_meta a then Beyond
      else
        let atom := if Ascii.eqb a "." then is_dot else lit a in
        match rest with
        | String "*" rest' =>
            bindC (new_RegExp rest') (fun r => Return (Seq (Rep atom 0 None) r))
        | _ =>
            bindC (new_RegExp rest) (fun r => Return (Seq (Chr atom) r))
        end
  end.

(** The pattern text derived from a domain.  The replacement written
    ["\."] in the source is the one-character string ["."]: a backslash
    before a dot inside a string literal is dropped. *)
Definition domain_pattern (domain : string) : string :=
  replace_all "*" ".*" (replace_all "." "." (toLowerCase domain)).

Definition domain_regex (domain : string) : completion regex :=
  new_RegExp (domain_pattern domain).

(** ** The browser and the state of the module *)

(** the enumeration [StorageType] of [./Enums] *)
Inductive StorageType : Type := LocalStorage | SessionStorage.

(** how a method of the browser ends: normally or with an exception *)
Inductive outcome (A : Type) : Type :=
| Done (a : A)
| Raised (e : exn).

Arguments Done {A} a.
Arguments Raised {A} e.

(** A [Storage] object of the browser whose items live in a store of type
    [S].  Each method ends normally or throws, and leaves a new store;
    [getItem] answers a string or [null]. *)
Record Storage (S : Type) : Type := mkStorage {
  setItem : string -> string -> S -> outcome unit * S;
  getItem : string -> S -> outcome (option string) * S;
  removeItem : string -> S -> outcome unit * S
}.

Arguments mkStorage {S} _ _ _.
Arguments setItem {S} _ _ _ _.
Arguments getItem {S} _ _ _.
Arguments removeItem {S} _ _.

(** an anchor element, or the object standing in for one; [a_host] is
    [None] when the [host] property is [null] *)
Record Anchor : Type := mkAnchor {
  a_href : string;
  a_host : option string
}.

(** the severities and, of the message identifiers, the three used here
    (applicationinsights-core-js) *)
Inductive LoggingSeverity : Type := CRITICAL | WARNING.

Inductive _InternalMessageId : Type :=
| BrowserCannotReadLocalStorage
| BrowserCannotWriteLocalStorage
| BrowserFailedRemovalFromLocalStorage.

(** What the module finds around it.  [getGlobalInst] is [None] when the
    global has no such storage; [dom_host] is the [host] an anchor element
    reports once its [href] has been set; [dateString] is the text of the
    n-th [new Date].  The logger and the two helpers on exceptions belong
    to applicationinsights-core-js: [throwInternal] records a message in a
    log of type [L]. *)
Record Env (S L : Type) : Type := mkEnv {
  hasGlobal : bool;
  getGlobalInst : StorageType -> option (Storage S);
  hasCreateElement : bool;
  dom_host : string -> string;
  dateString : nat -> string;
  throwInternal : LoggingSeverity -> _InternalMessageId -> string -> string -> L -> L;
  getExceptionName : exn -> string;
  dumpObj : exn -> string
}.

Arguments mkEnv {S L} _ _ _ _ _ _ _ _.
Arguments hasGlobal {S L} _.
Arguments getGlobalInst {S L} _ _.
Arguments hasCreateElement {S L} _.
Arguments dom_host {S L} _ _.
Arguments dateString {S L} _ _.
Arguments throwInternal {S L} _ _ _ _ _ _.
Arguments getExceptionName {S L} _ _.
Arguments dumpObj {S L} _ _.

(** The static fields of [Util] and [UrlHelper] ([None] is [undefined]),
    the two stores, the log and the number of dates taken so far.
    [storageFaults] is not a variable of the program: it counts the
    exceptions the storage objects have thrown. *)
Record World (S L : Type) : Type := mkWorld {
  _canUseLocalStorage : option bool;
  _canUseSessionStorage : option bool;
  _htmlAnchorIdx : nat;
  _htmlAnchorElement : list (option Anchor);
  localStore : S;
  sessionStore : S;
  logged : L;
  dates : nat;
  storageFaults : nat
}.

Arguments mkWorld {S L} _ _ _ _ _ _ _ _ _.
Arguments _canUseLocalStorage {S L} _.
Arguments _canUseSessionStorage {S L} _.
Arguments _htmlAnchorIdx {S L} _.
Arguments _htmlAnchorElement {S L} _.
Arguments localStore {S L} _.
Arguments sessionStore {S L} _.
Arguments logged {S L} _.
Arguments dates {S L} _.
Arguments storageFaults {S L} _.

(** Modelled from the spec: [ICorrelationConfig], declared outside these
    sources, with the properties the function reads.  A flag left
    undefined reads as [false], a list left undefined is [None], and a
    pattern of [correlationHeaderExcludePatterns] is given by what its
    [test] method answers. *)
Record ICorrelationConfig : Type := mkCorrelationConfig {
  enableCorsCorrelation : bool;
  correlationHeaderExcludedDomains : option (list string);
  correlationHeaderExcludePatterns : option (list (string -> bool));
  disableCorrelationHeaders : bool;
  correlationHeaderDomains : option (list string)
}.

(** Modelled from the spec: [arrForEach] of applicationinsights-core-js,
    which calls [callbackfn] on the elements of the array one after the
    other.  The callback is given the variables it assigns, here [st], and
    hands them back. *)
Fixpoint arrForEach {A St : Type} (arr : list A)
    (callbackfn : A -> St -> completion St) (st : St) : completion St :=
  match arr with
  | [] => Return st
  | x :: rest => bindC (callbackfn x st) (arrForEach rest callbackfn)
  end.

(** the [for] loop over [excludedDomains]: [true] when it returns [false]
    from the function, [false] when it runs to its end *)
Fixpoint excluded_hit (excludedDomains : list string) (requestHost : string)
    : completion bool :=
  match excludedDomains with
  | [] => Return false
  | domain :: rest =>
      bindC (domain_regex domain) (fun regex =>
        if test regex requestHost then Return true
        else excluded_hit rest requestHost)
  end.

(** [canIncludeCorrelationHeader] from the moment [parseUrl] has returned
    the anchor, whose [host] is [host]; nothing from here on reads or writes
    the state of the module.  [toLowerCase] on a [null] host is a
    [TypeError]. *)
Definition after_parseUrl (config : option ICorrelationConfig)
    (requestUrl : string) (currentHost : option string)
    (host : option string) : completion value :=
  bindC (match host with
         | Some host => Return (toLowerCase host)
         | None => Throw TypeError
         end) (fun requestHost =>
  let requestHost :=
    if truthy requestHost
       && (negb (indexOf requestHost ":443" =? -1)
           || negb (indexOf requestHost ":80" =? -1))
    then toLowerCase (or_empty (parseFullHost requestUrl true))
    else requestHost in
  if negb (from_option enableCorsCorrelation false config)
     && negb (bool_decide (Some requestHost = currentHost))
  then Return (VBool false)
  else
    bindC (match config ≫= correlationHeaderDomains with
           | Some includedDomains =>
               arrForEach includedDomains (fun domain matchExists =>
                 bindC (domain_regex domain) (fun regex =>
                   Return (matchExists || test regex requestHost)))
                 false
           | None => Return true
           end) (fun matchExists =>
    if negb matchExists then Return (VBool false)
    else
      match config ≫= correlationHeaderExcludedDomains with
      | None | Some [] => Return (VBool true)
      | Some excludedDomains =>
          bindC (excluded_hit excludedDomains requestHost) (fun hit =>
          if hit then Return (VBool false)
          else Return (if truthy requestHost
                       then VBool (0 <? len requestHost)
                       else VString requestHost))
      end)).

Section WithBrowser.

Context {S L : Type}.
Variable env : Env S L.

(** computations on the state of the module *)
Definition M (A : Type) : Type := World S L -> completion A * World S L.

Definition ret {A : Type} (a : A) : M A := fun w => (Return a, w).

Definition throw {A : Type} (e : exn) : M A := fun w => (Throw e, w).

Definition bind {A B : Type} (m : M A) (f : A -> M B) : M B :=
  fun w =>
    match m w with
    | (Return a, w') => f a w'
    | (Throw e, w') => (Throw e, w')
    | (Beyond, w') => (Beyond, w')
    end.

(** [try { body } catch (e) { handler }] *)
Definition try_catch {A : Type} (body : M A) (handler : exn -> M A) : M A :=
  fun w =>
    match body w with
    | (Throw e, w') => handler e w'
    | other => other
    end.

Definition liftC {A : Type} (c : completion A) : M A := fun w => (c, w).

Notation "x <- m ;; k" := (bind m (fun x => k))
  (at level 100, m at next level, right associativity).
Notation "m ;;; k" := (bind m (fun _ => k))
  (at level 100, right associativity).

Definition store_of (t : StorageType) (w : World S L) : S :=
  match t with
  | LocalStorage => localStore w
  | SessionStorage => sessionStore w
  end.

Definition with_store (t : StorageType) (s : S) (w : World S L) : World S L :=
  match t with
  | LocalStorage =>
      mkWorld (_canUseLocalStorage w) (_canUseSessionStorage w)
        (_htmlAnchorIdx w) (_htmlAnchorElement w) s (sessionStore w)
        (logged w) (dates w) (storageFaults w)
  | SessionStorage =>
      mkWorld (_canUseLocalStorage w) (_canUseSessionStorage w)
        (_htmlAnchorIdx w) (_htmlAnchorElement w) (localStore w) s
        (logged w) (dates w) (storageFaults w)
  end.

Definition count_fault (w : World S L) : World S L :=
  mkWorld (_canUseLocalStorage w) (_canUseSessionStorage w)
    (_htmlAnchorIdx w) (_htmlAnchorElement w) (localStore w) (sessionStore w)
    (logged w) (dates w) (Datatypes.S (storageFaults w)).

(** a method call on the storage object of kind [t] *)
Definition call {A : Type} (t : StorageType)
    (method : S -> outcome A * S) : M A :=
  fun w =>
    match method (store_of t w) with
    | (Raised e, s') => (Throw e, count_fault (with_store t s' w))
    | (Done a, s') => (Return a, with_store t s' w)
    end.

Definition set_canUseLocalStorage (b : option bool) : M unit :=
  fun w =>
    (Return tt,
     mkWorld b (_canUseSessionStorage w) (_htmlAnchorIdx w)
       (_htmlAnchorElement w) (localStore w) (sessionStore w) (logged w)
       (dates w) (storageFaults w)).

Definition set_anchors (idx : nat) (cache : list (option Anchor)) : M unit :=
  fun w =>
    (Return tt,
     mkWorld (_canUseLocalStorage w) (_canUseSessionStorage w) idx cache
       (localStore w) (sessionStore w) (logged w) (dates w)
       (storageFaults w)).

(** [new Date] followed by [toString()] *)
Definition newDate : M string :=
  fun w =>
    (Return (dateString env (dates w)),
     mkWorld (_canUseLocalStorage w) (_canUseSessionStorage w)
       (_htmlAnchorIdx w) (_htmlAnchorElement w) (localStore w)
       (sessionStore w) (logged w) (Datatypes.S (dates w)) (storageFaults w)).

(** [logger.throwInternal(severity, msgId, msg, { exception: dump })] *)
Definition logger_throwInternal (severity : LoggingSeverity)
    (msgId : _InternalMessageId) (msg dump : string) : M unit :=
  fun w =>
    (Return tt,
     mkWorld (_canUseLocalStorage w) (_canUseSessionStorage w)
       (_htmlAnchorIdx w) (_htmlAnchorElement w) (localStore w)
       (sessionStore w)
       (throwInternal env severity msgId msg dump (logged w))
       (dates w) (storageFaults w)).

(** *** Util: local storage *)

(** [null] is [None].  A missing storage object makes the first method
    call a [TypeError], which the [catch] absorbs like any other. *)
Definition _getVerifiedStorageObject (storageType : StorageType)
    : M (option (Storage S)) :=
  try_catch
    (if negb (hasGlobal env) then ret None
     else
       uid <- newDate ;;
       match getGlobalInst env storageType with
       | None => throw TypeError
       | Some storage =>
           call storageType (setItem storage uid uid) ;;;
           v <- call storageType (getItem storage uid) ;;
           let fail := negb (bool_decide (v = Some uid)) in
           call storageType (removeItem storage uid) ;;;
           ret (if fail then None else Some storage)
       end)
    (fun _ => ret None).

Definition canUseLocalStorage : M bool :=
  fun w =>
    match _canUseLocalStorage w with
    | None =>
        (s <- _getVerifiedStorageObject LocalStorage ;;
         let b := match s with Some _ => true | None => false end in
         set_canUseLocalStorage (Some b) ;;;
         ret b) w
    | Some b => (Return b, w)
    end.

Definition _getLocalStorageObject : M (option (Storage S)) :=
  b <- canUseLocalStorage ;;
  if b then _getVerifiedStorageObject LocalStorage else ret None.

(** the [catch] block shared, up to its message, by the three accessors *)
Definition on_storage_failure {A : Type} (msgId : _InternalMessageId)
    (msg : string) (result : A) (e : exn) : M A :=
  set_canUseLocalStorage (Some false) ;;;
  logger_throwInternal WARNING msgId
    (msg +:+ getExceptionName env e) (dumpObj env e) ;;;
  ret result.

(** the result is a string or [null] *)
Definition getStorage (name : string) : M (option string) :=
  storage <- _getLocalStorageObject ;;
  match storage with
  | Some storage =>
      try_catch
        (call LocalStorage (getItem storage name))
        (on_storage_failure BrowserCannotReadLocalStorage
           "Browser failed read of local storage. " None)
  | None => ret None
  end.

Definition setStorage (name data : string) : M bool :=
  storage <- _getLocalStorageObject ;;
  match storage with
  | Some storage =>
      try_catch
        (call LocalStorage (setItem storage name data) ;;; ret true)
        (on_storage_failure BrowserCannotWriteLocalStorage
           "Browser failed write to local storage. " false)
  | None => ret false
  end.

Definition removeStorage (name : string) : M bool :=
  storage <- _getLocalStorageObject ;;
  match storage with
  | Some storage =>
      try_catch
        (call LocalStorage (removeItem storage name) ;;; ret true)
        (on_storage_failure BrowserFailedRemovalFromLocalStorage
           "Browser failed removal of local storage item. " false)
  | None => ret false
  end.

(** *** UrlHelper.parseUrl *)

(** The anchor handed back carries the values its properties have right
    after [href] is assigned.  With [createElement] the element of the
    current slot is reused or created and stays in the cache; the index
    never leaves the five slots, so the write is always within range. *)
Definition parseUrl (url : string) : M Anchor :=
  fun w =>
    let anchorIdx := _htmlAnchorIdx w in
    let anchorCache := _htmlAnchorElement w in
    let '(tempAnchor, anchorCache) :=
      if negb (hasCreateElement env)
      then (mkAnchor url (parseHost url true), anchorCache)
      else
        let element := mkAnchor url (Some (dom_host env url)) in
        (element, <[anchorIdx := Some element]> anchorCache) in
    let anchorIdx := Datatypes.S anchorIdx in
    let anchorIdx :=
      if Nat.leb (length anchorCache) anchorIdx then 0%nat else anchorIdx in
    (set_anchors anchorIdx anchorCache ;;; ret tempAnchor) w.

(** *** CorrelationIdHelper.canIncludeCorrelationHeader *)

Definition canIncludeCorrelationHeader (config : option ICorrelationConfig)
    (requestUrl : string) (currentHost : option string) : M value :=
  if negb (truthy requestUrl)
     || from_option disableCorrelationHeaders false config
  then ret (VBool false)
  else if existsb (fun pattern => pattern requestUrl)
            (default [] (config ≫= correlationHeaderExcludePatterns))
  then ret (VBool false)
  else
    anchor <- parseUrl requestUrl ;;
    liftC (after_parseUrl config requestUrl currentHost (a_host anchor)).

(** What [m], one of the three accessors, does in the state [w], [failure]
    being [null] for [getStorage] and [false] for the other two, and
    [own_call_throws] telling whether the accessor's own call on the
    storage object throws.  The accessor returns normally.  When the
    storage object has thrown during the call, the result is [failure]
    and either the accessor's own call has thrown, and then
    [canUseLocalStorage()] answers [false] from now on, or the
    verification before it has failed, and then [canUseLocalStorage()]
    still answers what it answered for this call. *)
Definition contained {A : Type} (failure : A) (m : M A)
    (own_call_throws : Storage S -> S -> Prop) (w : World S L) : Prop :=
  exists r w',
    m w = (Return r, w')
    /\ ((storageFaults w < storageFaults w')%nat ->
        r = failure
        /\ ((exists storage w1,
               _getLocalStorageObject w = (Return (Some storage), w1)
               /\ own_call_throws storage (localStore w1)
               /\ canUseLocalStorage w' = (Return false, w'))
            \/ (exists b,
                  _getLocalStorageObject w = (Return None, w')
                  /\ fst (canUseLocalStorage w) = Return b
                  /\ canUseLocalStorage w' = (Return b, w')))).

End WithBrowser.

(** [DateTimeUtils]; [Now] reads the clock of the browser and is kept
    abstract. *)
Definition DateTimeUtils {NowT : Type} (dateTimeUtilsNow : NowT)
    : IDateTimeUtils NowT :=
  mkDateTimeUtils dateTimeUtilsNow dateTimeUtilsDuration.

(** * Notions used in the statements *)

(** [sub] occurs somewhere in [s] *)
Definition contains (s sub : string) : Prop :=
  exists pre post, s = pre +:+ sub +:+ post.

(** [s] ends with [suffix] *)
Definition ends_with (s suffix : string) : Prop :=
  exists pre, s = pre +:+ suffix.

(** [ua.indexOf(sub) !== -1] *)
Definition hasb (ua sub : string) : bool := negb (indexOf ua sub =? -1).

(** the user agents that the comments of [disallowsSameSiteNone] list as
    broken by [SameSite=None] *)
Definition broken_user_agent (ua : string) : Prop :=
  contains ua "CPU iPhone OS 12" \/ contains ua "iPad; CPU OS 12"
  \/ (contains ua "Macintosh; Intel Mac OS X 10_14"
      /\ contains ua "Version/" /\ contains ua "Safari")
  \/ (contains ua "Macintosh; Intel Mac OS X 10_14"
      /\ ends_with ua "AppleWebKit/605.1.15 (KHTML, like Gecko)")
  \/ contains ua "Chrome/5" \/ contains ua "Chrome/6"
  \/ (contains ua "UnrealEngine" /\ ~ contains ua "Chrome")
  \/ contains ua "UCBrowser/12" \/ contains ua "UCBrowser/11".

(** the value is [0] (of either sign), [null] or [undefined] *)
Definition zero_or_nullish (v : value) : Prop :=
  v = VNull \/ v = VUndefined
  \/ exists x, v = VNumber x /\ PrimFloat.eqb x 0%float = true.

Fixpoint all_chars (p : ascii -> bool) (t : string) : bool :=
  match t with
  | EmptyString => true
  | String a t' => p a && all_chars p t'
  end.

(** What a successful run of [matchk] on [r] has done before it handed
    over to its continuation: the input [s] was cut down to [s'] and the
    captures [c] became [c']. *)
Fixpoint matches (r : regex) (s : string) (c : captures)
    (s' : string) (c' : captures) : Prop :=
  match r with
  | Eps => s' = s /\ c' = c
  | Chr p => exists a, s = String a s' /\ p a = true /\ c' = c
  | Rep p lo hi =>
      exists t, s = t +:+ s' /\ (lo <= String.length t)%nat
                /\ all_chars p t = true /\ c' = c
  | Seq r1 r2 =>
      exists s1 c1, matches r1 s c s1 c1 /\ matches r2 s1 c1 s' c'
  | Opt r1 => matches r1 s c s' c' \/ (s' = s /\ c' = c)
  | Grp n r1 =>
      exists c1, matches r1 s c s' c1
                 /\ c' = set_capture n (consumed s s') c1
  | Eos => s = "" /\ s' = "" /\ c' = c
  end.

(** the longest prefix of [s] whose characters satisfy [p], and what
    follows it *)
Fixpoint span (p : ascii -> bool) (s : string) : string * string :=
  match s with
  | String a s' =>
      if p a then let (t, r) := span p s' in (String a t, r)
      else ("", s)
  | EmptyString => ("", "")
  end.

(** a number, that is one digit or more, and the dot after it: the number
    and what follows the dot *)
Definition number_then_dot (s : string) : option (string * string) :=
  match span is_digit s with
  | (String d ds, String "." r) => Some (String d ds, r)
  | _ => None
  end.

(** The version a path carries, read off the path alone: up to its first
    digit the path ends in a dot, then come three numbers, each followed by
    a dot, and the path ends in [js]; the version is the three numbers
    with the dots between them.  [None] when the path is not of that shape
    or holds a line terminator. *)
Definition file_version (inputFile : string) : option string :=
  if all_chars is_dot inputFile then
    let (stem, r) := span (fun c => negb (is_digit c)) inputFile in
    if endsWith stem "." then
      match number_then_dot r with
      | Some (a, r) =>
          match number_then_dot r with
          | Some (b, r) =>
              match number_then_dot r with
              | Some (c, r) =>
                  if endsWith r "js"
                  then Some (a +:+ "." +:+ b +:+ "." +:+ c)
                  else None
              | None => None
              end
          | None => None
          end
      | None => None
      end
    else None
  else None.

(** The details an integrity record is to hold for the file called [name]
    whose text is [source]: the base64 digests the hash library gives for
    the text under the three algorithms, and the attribute made of
    them. *)
Definition file_details (digest_base64 : algorithm -> string -> string)
    (name source : string) : FileDetails :=
  mkFileDetails name "text/javascript; charset=utf-8"
    ("sha256-" +:+ digest_base64 SHA256 source
     +:+ " sha384-" +:+ digest_base64 SHA384 source
     +:+ " sha512-" +:+ digest_base64 SHA512 source)
    (mkHashes (digest_base64 SHA256 source) (digest_base64 SHA384 source)
       (digest_base64 SHA512 source)).

(** [inputFile], processed for [version], belongs to the integrity file
    [key] and to the key [extKey] of its record, which is ["@"] and the
    format of the file *)
Definition writes_to (version inputFile key extKey : string) : Prop :=
  names_intFile (getFilename inputFile version) = Some key
  /\ option_map (String.append "@")
       (names_format (getFilename inputFile version)) = Some extKey.

(** the record under [key] holds the details [fd] under [extKey] *)
Definition holds (key extKey : string) (fd : FileDetails)
    (cache : gmap string IntegrityJson) : Prop :=
  exists (e : IntegrityJson) (m : gmap string FileDetails),
    cache !! key = Some e /\ ij_ext e = Some m /\ m !! extKey = Some fd.

(** A domain glob as the specification words it: case-insensitive, [*]
    for any sequence of characters, and every other character, the dot
    included, for itself. *)
Fixpoint glob_regex (domain : string) : regex :=
  match domain with
  | EmptyString => Eps
  | String a rest =>
      Seq (if Ascii.eqb a "*" then Rep (fun _ => true) 0 None else Chr (is_ci a))
          (glob_regex rest)
  end.

Definition glob_matches (domain host : string) : bool :=
  test (glob_regex domain) host.

(** * Sample hosts

    Concrete browsers, stores and build hosts on which the statements
    below are instantiated. *)

(** a storage object over a finite map that holds at most [capacity]
    items: [setItem] of a new key on a full store throws *)
Definition bounded_storage (capacity : nat) : Storage (gmap string string) :=
  mkStorage
    (fun k v s =>
       if bool_decide (is_Some (s !! k)) || Nat.ltb (size s) capacity
       then (Done tt, <[k := v]> s)
       else (Raised (HostError "QuotaExceededError"), s))
    (fun k s => (Done (s !! k), s))
    (fun k s => (Done tt, delete k s)).

(** a storage object that refuses every access to the key [bad] *)
Definition guarded_storage (bad : string) : Storage (gmap string string) :=
  mkStorage
    (fun k v s =>
       if String.eqb k bad then (Raised (HostError "SecurityError"), s)
       else (Done tt, <[k := v]> s))
    (fun k s =>
       if String.eqb k bad then (Raised (HostError "SecurityError"), s)
       else (Done (s !! k), s))
    (fun k s =>
       if String.eqb k bad then (Raised (HostError "SecurityError"), s)
       else (Done tt, delete k s)).

Definition exn_name (e : exn) : string :=
  match e with
  | Error _ => "Error"
  | TypeError => "TypeError"
  | HostError name => name
  end.

(** a browser with the given local storage and anchor resolution, whose
    logger keeps the messages it is given *)
Definition sample_env (storage : Storage (gmap string string))
    (createElement : bool) (host_of : string -> string)
    : Env (gmap string string) (list string) :=
  mkEnv true
    (fun t => match t with LocalStorage => Some storage | SessionStorage => None end)
    createElement host_of
    (fun _ => "Tue Nov 03 2026 07:09:00 GMT+0000")
    (fun _ _ msg _ log => msg :: log)
    exn_name exn_name.

(** the state of the module when the script has just been loaded *)
Definition initial_world : World (gmap string string) (list string) :=
  mkWorld None None 0 [None; None; None; None; None] ∅ ∅ [] 0 0.

(** a browser whose local storage holds one item at most, and the state of
    the module once [setStorage("a", "1")] has filled it *)
Definition full_store_env : Env (gmap string string) (list string) :=
  sample_env (bounded_storage 1) true (fun _ => "").

Definition full_store_world : World (gmap string string) (list string) :=
  snd (setStorage full_store_env "a" "1" initial_world).

(** a browser without [document.createElement], as in a worker: hosts
    come from [parseHost] *)
Definition worker_env : Env (gmap string string) (list string) :=
  sample_env (bounded_storage 1) false (fun _ => "").

(** The anchors of a page opened from a [file:] URL: an absolute URL keeps
    its host, any other one resolves against the page and has none. *)
Definition file_page_host (url : string) : string :=
  or_empty (parseFullHost url false).

Definition file_page_env : Env (gmap string string) (list string) :=
  sample_env (bounded_storage 1) true file_page_host.

Definition cors_to_example_com : ICorrelationConfig :=
  mkCorrelationConfig true None None false (Some ["*.example.com"]).

Definition no_headers_to_example_com : ICorrelationConfig :=
  mkCorrelationConfig false (Some ["example.com"]) None false None.

(** a build host with two bundles whose names differ in the one character
    after the version *)
Definition twin_files (inputFile : string) : option string :=
  if String.eqb inputFile "./browser/ai.2.5.10.min.js" then Some "var ai=1;"
  else if String.eqb inputFile "./browser/ai.2.5.10-min.js"
  then Some "var ai=2;"
  else None.

(** a build host with two bundles of one package, and a stand-in for the
    digests *)
Definition sample_files (inputFile : string) : option string :=
  if String.eqb inputFile "./browser/ai.2.5.10.js" then Some "var ai=1;"
  else if String.eqb inputFile "./browser/ai.2.5.10.2.5.10.js" then Some "var ai=2;"
  else if String.eqb inputFile "./browser/ai.js" then Some "var ai=3;"
  else None.

Definition sample_digest (a : algorithm) (src : string) : string :=
  match a with
  | SHA256 => "a" +:+ src
  | SHA384 => "b" +:+ src
  | SHA512 => "c" +:+ src
  end.

(** * Further definitions

    Notions and further parts of the sources, used by the further
    properties at the end. *)

(** ** Notions for the correlation headers and the URLs *)

(** the [host] of the anchor [parseUrl] hands back for [url] *)
Definition anchor_host {S L : Type} (env : Env S L) (url : string)
    : option string :=
  if hasCreateElement env then Some (dom_host env url)
  else parseHost url true.

(** the value [requestHost] has in [canIncludeCorrelationHeader] when the
    anchor reports [host]: lower case, and parsed again from the URL when
    a default port may be part of it *)
Definition request_host (host requestUrl : string) : string :=
  let requestHost := toLowerCase host in
  if truthy requestHost
     && (negb (indexOf requestHost ":443" =? -1)
         || negb (indexOf requestHost ":80" =? -1))
  then toLowerCase (or_empty (parseFullHost requestUrl true))
  else requestHost.

(** the function is switched off, or one of the exclude patterns hits *)
Definition switched_off (config : option ICorrelationConfig)
    (requestUrl : string) : bool :=
  negb (truthy requestUrl)
  || from_option disableCorrelationHeaders false config
  || existsb (fun pattern => pattern requestUrl)
       (default [] (config ≫= correlationHeaderExcludePatterns)).

(** the repetition of a character class stops in front of [s] *)
Definition stops (p : ascii -> bool) (s : string) : Prop :=
  match s with
  | EmptyString => True
  | String a _ => p a = false
  end.

(** what may follow the host in a URL: nothing or a path, or a colon, the
    digits of a port and then something that is not a digit *)
Inductive url_tail : option string -> string -> Prop :=
| tail_end : url_tail None ""
| tail_path (path : string) : url_tail None (String "/" path)
| tail_port (digits rest : string) :
    digits <> "" -> all_chars is_digit digits = true -> stops is_digit rest ->
    url_tail (Some digits) (String ":" (digits +:+ rest)).

(** the port [parseFullHost] appends: none for the default port of the
    protocol *)
Definition kept_port (scheme : string) (port : option string) : string :=
  match port with
  | None => ""
  | Some digits =>
      if String.eqb (toLowerCase scheme) "http" && String.eqb digits "80"
      then ""
      else if String.eqb (toLowerCase scheme) "https" && String.eqb digits "443"
      then ""
      else String ":" digits
  end.

(** [t] is a text that the pattern made from the (lower-case) domain [d]
    stands for: a star of the domain is any run of characters, a dot any
    one character (line terminators apart), every other character
    itself. *)
Fixpoint pattern_text (d t : string) : Prop :=
  match d with
  | EmptyString => t = ""
  | String a d' =>
      if Ascii.eqb a "*" then
        exists u v, t = u +:+ v /\ all_chars is_dot u = true
                    /\ pattern_text d' v
      else if Ascii.eqb a "." then
        exists b v, t = String b v /\ is_dot b = true /\ pattern_text d' v
      else
        exists v, t = String a v /\ pattern_text d' v
  end.

(** the domain has no character with a meaning in a regular expression
    other than the dot and the star *)
Definition plain_domain (d : string) : bool :=
  all_chars (fun a => negb (is_meta a) || Ascii.eqb a "*") d.

(** the expression [new RegExp] builds for such a domain *)
Fixpoint regex_of (d : string) : regex :=
  match d with
  | EmptyString => Eps
  | String a d' =>
      Seq (if Ascii.eqb a "*" then Rep is_dot 0 None
           else if Ascii.eqb a "." then Chr is_dot
           else Chr (lit a))
          (regex_of d')
  end.

(** every repetition of the expression is without an upper bound *)
Fixpoint unbounded (r : regex) : bool :=
  match r with
  | Rep _ _ (Some _) => false
  | Seq r1 r2 => unbounded r1 && unbounded r2
  | Opt r1 | Grp _ r1 => unbounded r1
  | _ => true
  end.

(** the character [c] does not occur in [s] *)
Definition no_char (c : ascii) (s : string) : bool :=
  all_chars (fun a => negb (Ascii.eqb a c)) s.

(** [items.join(sep)] *)
Fixpoint join (sep : string) (items : list string) : string :=
  match items with
  | [] => ""
  | [x] => x
  | x :: rest => x +:+ sep +:+ join sep rest
  end.

(** a response header carrying the given keys and values, in order *)
Definition context_header (pairs : list (string * string)) : string :=
  join "," (map (fun kv => fst kv +:+ "=" +:+ snd kv) pairs).

(** the value of the first pair with the key [key] *)
Fixpoint first_value (pairs : list (string * string)) (key : string)
    : option string :=
  match pairs with
  | [] => None
  | (k, v) :: rest => if String.eqb k key then Some v else first_value rest key
  end.

(** neither a comma nor an equals sign occurs in [s] *)
Definition plain_token (s : string) : bool := no_char "," s && no_char "=" s.

(** ** The integrity cache *)

(** the files [globby.sync] finds on the sample build host *)
Definition sample_globby (pattern : string) : list string :=
  if String.eqb pattern "./browser/**/*.js"
  then ["./browser/ai.2.5.10.js"; "./browser/ai.js"]
  else [].

(** What every record of a cache filled for one version from [files]
    looks like: its key, its name and version, and the details it holds,
    each of them being the details of one of the files, read and
    digested, that belongs to the record under that key. *)
Definition well_formed_record (readFileSync : string -> option string)
    (digest_base64 : algorithm -> string -> string) (files : list string)
    (version key : string) (e : IntegrityJson) : Prop :=
  ends_with key ".integrity.json"
  /\ is_Some (ij_name e)
  /\ ij_version e = Some version
  /\ exists m, ij_ext e = Some m /\ m <> ∅
               /\ forall k fd, m !! k = Some fd ->
                    exists inputFile source,
                      In inputFile files
                      /\ writes_to version inputFile key k
                      /\ names_module (getFilename inputFile version)
                         = ij_name e
                      /\ readFileSync inputFile = Some source
                      /\ fd = file_details digest_base64
                                (names_name (getFilename inputFile version))
                                source.

(** ** Util: storage switched off, session storage *)

(** a storage object that keeps its items in a finite map and never
    throws *)
Definition map_storage : Storage (gmap string string) :=
  mkStorage
    (fun k v s => (Done tt, <[k := v]> s))
    (fun k s => (Done (s !! k), s))
    (fun k s => (Done tt, delete k s)).

(** the items of [s'] are those of [s], but for the items named like one
    of the dates of the browser *)
Definition same_items {S L : Type} (env : Env S L)
    (s s' : gmap string string) : Prop :=
  forall k, (forall n, dateString env n <> k) -> s' !! k = s !! k.

Section SessionStorage.

Context {S L : Type}.
Variable env : Env S L.

(** [Util.disableStorage] *)
Definition disableStorage : @M S L unit :=
  fun w =>
    (Return tt,
     mkWorld (Some false) (Some false) (_htmlAnchorIdx w)
       (_htmlAnchorElement w) (localStore w) (sessionStore w) (logged w)
       (dates w) (storageFaults w)).

Definition set_canUseSessionStorage (b : option bool) : @M S L unit :=
  fun w =>
    (Return tt,
     mkWorld (_canUseLocalStorage w) b (_htmlAnchorIdx w)
       (_htmlAnchorElement w) (localStore w) (sessionStore w) (logged w)
       (dates w) (storageFaults w)).

(** [Util.canUseSessionStorage] *)
Definition canUseSessionStorage : @M S L bool :=
  fun w =>
    match _canUseSessionStorage w with
    | None =>
        bind (_getVerifiedStorageObject env SessionStorage) (fun s =>
          let b := match s with Some _ => true | None => false end in
          bind (set_canUseSessionStorage (Some b)) (fun _ => ret b)) w
    | Some b => (Return b, w)
    end.

(** [Util._getSessionStorageObject] *)
Definition _getSessionStorageObject : @M S L (option (Storage S)) :=
  bind canUseSessionStorage (fun b =>
    if b then _getVerifiedStorageObject env SessionStorage else ret None).

End SessionStorage.

(** what [_getLocalStorageObject] leaves behind in [w'] when it hands out
    the storage object in [w]: the flag is [true], the items are as they
    were, nothing has been logged and nothing has thrown *)
Definition probed {L : Type} (env : Env (gmap string string) L)
    (w w' : World (gmap string string) L) : Prop :=
  _canUseLocalStorage w' = Some true
  /\ same_items env (localStore w) (localStore w')
  /\ logged w' = logged w
  /\ storageFaults w' = storageFaults w.

(** ** UrlHelper: the anchor cache, ports *)

(** the state of the module after [parseUrl] has been called on each of
    [urls] in turn *)
Fixpoint after_parseUrls {S L : Type} (env : Env S L) (urls : list string)
    (w : World S L) : World S L :=
  match urls with
  | [] => w
  | url :: rest => after_parseUrls env rest (snd (parseUrl env url w))
  end.

(** the anchor element of a document once its [href] is [url] *)
Definition element_for {S L : Type} (env : Env S L) (url : string) : Anchor :=
  mkAnchor url (Some (dom_host env url)).

(** the text of a port as it follows a host: nothing, or a colon and the
    digits *)
Definition port_text (port : option string) : string :=
  match port with
  | None => ""
  | Some digits => String ":" digits
  end.

(** ** Util.getExtension *)

Section Extensions.

(** the plugins, of which the function reads the [identifier] alone; an
    element of the array that is [null] or [undefined] is [None] *)
Context {IPlugin : Type}.
Variable plugin_identifier : IPlugin -> string.

(** the [while] loop of [getExtension] from the index [extIx] on, where
    [extensions] is the rest of the array from there: the loop ends with
    the first element that is assigned to [extension] *)
Fixpoint getExtension (extensions : list (option IPlugin))
    (identifier : string) : option IPlugin :=
  match extensions with
  | [] => None
  | Some extension :: rest =>
      if String.eqb (plugin_identifier extension) identifier
      then Some extension
      else getExtension rest identifier
  | None :: rest => getExtension rest identifier
  end.

End Extensions.

(** ** CorrelationIdHelper.getCorrelationContext *)

Definition correlationIdPrefix : string := "cid-v1:".

(** [requestContextTargetKey] stands for
    [RequestHeaders.requestContextTargetKey], a constant declared outside
    these sources; the result is a string or [undefined] *)
Definition getCorrelationContext (requestContextTargetKey : string)
    (responseHeader : string) : value :=
  if truthy responseHeader then
    match getCorrelationContextValue responseHeader requestContextTargetKey with
    | VString correlationId =>
        if truthy correlationId
           && negb (String.eqb correlationId correlationIdPrefix)
        then VString correlationId
        else VUndefined
    | _ => VUndefined
    end
  else VUndefined.

(** ** Util: the accessors of session storage *)

(** the identifiers of the messages on session storage
    (applicationinsights-core-js) *)
Inductive SessionMessageId : Type :=
| BrowserCannotReadSessionStorage
| BrowserCannotWriteSessionStorage
| BrowserFailedRemovalFromSessionStorage.

Section SessionAccessors.

Context {S L : Type}.
Variable env : Env S L.

(** the [logger] handed to the accessors, by what its [throwInternal]
    does to the log *)
Variable logger : LoggingSeverity -> SessionMessageId -> string -> string
                  -> L -> L.

Definition session_throwInternal (severity : LoggingSeverity)
    (msgId : SessionMessageId) (msg dump : string) : @M S L unit :=
  fun w =>
    (Return tt,
     mkWorld (_canUseLocalStorage w) (_canUseSessionStorage w)
       (_htmlAnchorIdx w) (_htmlAnchorElement w) (localStore w)
       (sessionStore w) (logger severity msgId msg dump (logged w))
       (dates w) (storageFaults w)).

(** the [catch] block shared, up to its message, by the three accessors *)
Definition on_session_failure {A : Type} (msgId : SessionMessageId)
    (msg : string) (result : A) (e : exn) : @M S L A :=
  bind (set_canUseSessionStorage (Some false)) (fun _ =>
  bind (session_throwInternal WARNING msgId
          (msg +:+ getExceptionName env e) (dumpObj env e)) (fun _ =>
  ret result)).

(** the result is a string or [null] *)
Definition getSessionStorage (name : string) : @M S L (option string) :=
  bind (_getSessionStorageObject env) (fun storage =>
    match storage with
    | Some storage =>
        try_catch
          (call SessionStorage (getItem storage name))
          (on_session_failure BrowserCannotReadSessionStorage
             "Browser failed read of session storage. " None)
    | None => ret None
    end).

Definition setSessionStorage (name data : string) : @M S L bool :=
  bind (_getSessionStorageObject env) (fun storage =>
    match storage with
    | Some storage =>
        try_catch
          (bind (call SessionStorage (setItem storage name data))
             (fun _ => ret true))
          (on_session_failure BrowserCannotWriteSessionStorage
             "Browser failed write to session storage. " false)
    | None => ret false
    end).

Definition removeSessionStorage (name : string) : @M S L bool :=
  bind (_getSessionStorageObject env) (fun storage =>
    match storage with
    | Some storage =>
        try_catch
          (bind (call SessionStorage (removeItem storage name))
             (fun _ => ret true))
          (on_session_failure BrowserFailedRemovalFromSessionStorage
             "Browser failed removal of session storage item. " false)
    | None => ret false
    end).

(** What [m], one of the three accessors, does in the state [w]; this is
    [contained] for session storage, and in addition local storage and
    its flag are left alone. *)
Definition session_contained {A : Type} (failure : A) (m : @M S L A)
    (own_call_throws : Storage S -> S -> Prop) (w : World S L) : Prop :=
  exists r w',
    m w = (Return r, w')
    /\ localStore w' = localStore w
    /\ _canUseLocalStorage w' = _canUseLocalStorage w
    /\ ((storageFaults w < storageFaults w')%nat ->
        r = failure
        /\ ((exists storage w1,
               _getSessionStorageObject env w = (Return (Some storage), w1)
               /\ own_call_throws storage (sessionStore w1)
               /\ canUseSessionStorage env w' = (Return false, w'))
            \/ (exists b,
                  _getSessionStorageObject env w = (Return None, w')
                  /\ fst (canUseSessionStorage env w) = Return b
                  /\ canUseSessionStorage env w' = (Return b, w')))).

End SessionAccessors.

(** ** Util: cookies *)

(** the identifier of the message of [canUseCookies]
    (applicationinsights-core-js) *)
Inductive CookieMessageId : Type := CannotAccessCookie.

(** What the cookie functions find around them.  [document_cookie] is
    what reading [Util.document.cookie] gives once the given strings have
    been assigned to it: a value ([undefined] where there is no
    document) or an exception.  [cookie_assignment] is what assigning a
    string to it does after the assignments before: [None] when the
    assignment returns, the exception when it throws.
    [location_protocol] is the [protocol] of [getLocation()], [None]
    where there is no location, and [navigator_userAgent] the
    [userAgent] of [getNavigator() || {}]. *)
Record CookieEnv : Type := mkCookieEnv {
  document_cookie : list string -> outcome value;
  cookie_assignment : list string -> string -> option exn;
  location_protocol : option string;
  navigator_userAgent : value;
  cookie_getExceptionName : exn -> string;
  cookie_dump : exn -> string
}.

(** [CoreUtils._canUseCookies] ([None] is [undefined]), the variable
    [_uaDisallowsSameSiteNone] of the module ([None] is [null]), the
    strings the module has assigned to [document.cookie] so far, oldest
    first, whether the assignment returned or threw, and the log *)
Record CookieState (L : Type) : Type := mkCookieState {
  _canUseCookies : option bool;
  _uaDisallowsSameSiteNone : option value;
  assigned : list string;
  cookie_logged : L
}.

Arguments mkCookieState {L} _ _ _ _.
Arguments _canUseCookies {L} _.
Arguments _uaDisallowsSameSiteNone {L} _.
Arguments assigned {L} _.
Arguments cookie_logged {L} _.

(** [!!v] *)
Definition to_boolean (v : value) : bool :=
  match v with
  | VUndefined | VNull => false
  | VBool b => b
  | VNumber x => negb (PrimFloat.eqb x 0%float) && PrimFloat.eqb x x
  | VString s => truthy s
  | VObject _ => true
  end.

Section Cookies.

Context {L : Type}.
Variable env : CookieEnv.

(** the [logger] handed to the functions, by what its [throwInternal]
    does to the log *)
Variable logger : LoggingSeverity -> CookieMessageId -> string -> string
                  -> L -> L.

Definition canUseCookies (st : CookieState L) : bool * CookieState L :=
  match _canUseCookies st with
  | None =>
      match document_cookie env (assigned st) with
      | Done cookie =>
          let b := match cookie with VUndefined => false | _ => true end in
          (b, mkCookieState (Some b) (_uaDisallowsSameSiteNone st)
                (assigned st) (cookie_logged st))
      | Raised e =>
          (false,
           mkCookieState (Some false) (_uaDisallowsSameSiteNone st)
             (assigned st)
             (logger WARNING CannotAccessCookie
                ("Cannot access document.cookie - "
                 +:+ cookie_getExceptionName env e)
                (cookie_dump env e) (cookie_logged st)))
      end
  | Some b => (b, st)
  end.

(** how the assignment of [text] to [document.cookie] ends in [st] *)
Definition assignment_ends (text : string) (st : CookieState L)
    : completion unit :=
  match cookie_assignment env (assigned st) text with
  | None => Return tt
  | Some e => Throw e
  end.

(** [document.cookie = text]; no [try] is around it in [setCookie] and
    [deleteCookie], where it is the last statement *)
Definition assign_cookie (text : string) (st : CookieState L)
    : completion unit * CookieState L :=
  (assignment_ends text st,
   mkCookieState (_canUseCookies st) (_uaDisallowsSameSiteNone st)
     (assigned st ++ [text]) (cookie_logged st)).

(** [domain] is [None] when the argument is left out *)
Definition setCookie (name value : string) (domain : option string)
    (st : CookieState L) : completion unit * CookieState L :=
  match canUseCookies st with
  | (true, st) =>
      let domainAttrib :=
        if truthy_opt domain then ";domain=" +:+ to_str domain else "" in
      if bool_decide (location_protocol env = Some "https:") then
        let secureAttrib := ";secure" in
        let decided :=
          match _uaDisallowsSameSiteNone st with
          | None =>
              bindC (disallowsSameSiteNone (navigator_userAgent env))
                (fun v =>
                   Return (v, mkCookieState (_canUseCookies st) (Some v)
                                (assigned st) (cookie_logged st)))
          | Some v => Return (v, st)
          end in
        match decided with
        | Return (v, st) =>
            let value :=
              if negb (to_boolean v) then value +:+ ";SameSite=None"
              else value in
            assign_cookie (name +:+ "=" +:+ value +:+ domainAttrib
                           +:+ ";path=/" +:+ secureAttrib) st
        | Throw e => (Throw e, st)
        | Beyond => (Beyond, st)
        end
      else
        assign_cookie (name +:+ "=" +:+ value +:+ domainAttrib
                       +:+ ";path=/" +:+ "") st
  | (false, st) => (Return tt, st)
  end.

Definition deleteCookie (name : string) (st : CookieState L)
    : completion unit * CookieState L :=
  match canUseCookies st with
  | (true, st) =>
      assign_cookie
        (name +:+ "=;path=/;expires=Thu, 01 Jan 1970 00:00:01 GMT;") st
  | (false, st) => (Return tt, st)
  end.

End Cookies.

(** a page served over https in a browser whose cookies can be read and
    written, with the given user agent *)
Definition https_page (userAgent : string) : CookieEnv :=
  mkCookieEnv (fun _ => Done (VString "")) (fun _ _ => None) (Some "https:")
    (VString userAgent) exn_name exn_name.

(** a page in a frame that may not read its cookies *)
Definition framed_page : CookieEnv :=
  mkCookieEnv (fun _ => Raised (HostError "SecurityError"))
    (fun _ _ => Some (HostError "SecurityError")) (Some "https:")
    (VString "Mozilla/5.0") exn_name exn_name.

(** the state of the module when the script has just been loaded *)
Definition initial_cookies : CookieState (list string) :=
  mkCookieState None None [] [].

Definition keep_message (severity : LoggingSeverity) (msgId : CookieMessageId)
    (msg dump : string) (log : list string) : list string :=
  msg :: log.

(** * Properties *)

(** ** Strings *)

Lemma append_cons (a : ascii) (s t : string) :
  String a s +:+ t = String a (s +:+ t).
Proof. reflexivity. Qed.

Lemma append_empty (t : string) : "" +:+ t = t.
Proof. reflexivity. Qed.

Lemma append_nil_r' (s : string) : s +:+ "" = s.
Proof.
  induction s as [|a s IH]; [reflexivity |].
  rewrite append_cons. now f_equal.
Qed.

Lemma append_assoc (a b c : string) : (a +:+ b) +:+ c = a +:+ b +:+ c.
Proof.
  induction a as [|x a IH]; [reflexivity |].
  rewrite !append_cons. now f_equal.
Qed.

Lemma append_length (a b : string) :
  String.length (a +:+ b) = (String.length a + String.length b)%nat.
Proof.
  induction a as [|x a IH]; [reflexivity |].
  rewrite append_cons. simpl. now f_equal.
Qed.

Lemma startsWith_spec (s p : string) :
  startsWith s p = true <-> exists post, s = p +:+ post.
Proof.
  revert s. induction p as [|a p IH]; intros s; simpl.
  - split; [intros _; now exists s | reflexivity].
  - destruct s as [|b s].
    + split; [discriminate | intros [post H]; discriminate].
    + rewrite andb_true_iff, Ascii.eqb_eq, IH. split.
      * intros [-> [post ->]]. now exists post.
      * intros [post H]. rewrite append_cons in H. injection H as -> ->.
        split; [reflexivity | now exists post].
Qed.

Lemma indexOf_from_found (i : Z) (s sub : string) :
  0 <= i -> (indexOf_from i s sub <> -1 <-> contains s sub).
Proof.
  revert i. induction s as [|a s IH]; intros i Hi; simpl.
  - destruct (startsWith "" sub) eqn:E.
    + split; [intros _ | lia].
      apply startsWith_spec in E as [post E]. now exists "", post.
    + split; [congruence |].
      intros [pre [post H]]. destruct pre; [| discriminate].
      assert (startsWith "" sub = true) by (apply startsWith_spec; now exists post).
      congruence.
  - destruct (startsWith (String a s) sub) eqn:E.
    + split; [intros _ | lia].
      apply startsWith_spec in E as [post E]. now exists "", post.
    + rewrite (IH (i + 1)) by lia. split.
      * intros [pre [post H]]. exists (String a pre), post. simpl. now rewrite H.
      * intros [pre [post H]]. destruct pre as [|b pre].
        -- assert (startsWith (String a s) sub = true)
             by (apply startsWith_spec; now exists post).
           congruence.
        -- simpl in H. injection H as _ H. now exists pre, post.
Qed.

Lemma indexOf_found (s sub : string) :
  negb (indexOf s sub =? -1) = true <-> contains s sub.
Proof.
  unfold indexOf. rewrite <- (indexOf_from_found 0) by lia.
  rewrite negb_true_iff, Z.eqb_neq. reflexivity.
Qed.

Lemma indexOf_found_not (s sub : string) :
  (indexOf s sub =? -1) = true -> ~ contains s sub.
Proof.
  intros H Hc. apply indexOf_found in Hc. rewrite H in Hc. discriminate.
Qed.

Lemma substring_skip (pre s : string) (m : nat) :
  String.substring (String.length pre) m (pre +:+ s) = String.substring 0 m s.
Proof. induction pre as [|a pre IH]; simpl; [reflexivity | exact IH]. Qed.

Lemma substring_all (s : string) :
  String.substring 0 (String.length s) s = s.
Proof. induction s as [|a s IH]; simpl; [reflexivity | now rewrite IH]. Qed.

Lemma substring_split (n : nat) (s : string) :
  (n <= String.length s)%nat ->
  s = String.substring 0 n s +:+ String.substring n (String.length s - n) s.
Proof.
  revert s. induction n as [|n IH]; intros s Hn.
  - simpl. rewrite Nat.sub_0_r, substring_all.
    destruct s; reflexivity.
  - destruct s as [|a s]; simpl in *; [lia |].
    rewrite append_cons. f_equal. apply IH. lia.
Qed.

Lemma substring_from_eq (s : string) (n : nat) :
  (n <= String.length s)%nat ->
  substring_from s (Z.of_nat n) = String.substring n (String.length s - n) s.
Proof.
  intros Hn. unfold substring_from, substring, clamp, len.
  f_equal; lia.
Qed.

Lemma endsWith_spec (s p : string) : endsWith s p = true <-> ends_with s p.
Proof.
  unfold endsWith, ends_with.
  rewrite andb_true_iff, Z.leb_le, String.eqb_eq. unfold len. split.
  - intros [Hle H].
    replace (Z.of_nat (String.length s) - Z.of_nat (String.length p))
      with (Z.of_nat (String.length s - String.length p)) in H by lia.
    rewrite substring_from_eq in H by lia.
    exists (String.substring 0 (String.length s - String.length p) s).
    rewrite <- H at 2.
    apply substring_split. lia.
  - intros [pre ->]. rewrite append_length. split; [lia |].
    replace (Z.of_nat (String.length pre + String.length p)
             - Z.of_nat (String.length p))
      with (Z.of_nat (String.length pre)) by lia.
    rewrite substring_from_eq by (rewrite append_length; lia).
    rewrite append_length.
    replace (String.length pre + String.length p - String.length pre)%nat
      with (String.length p) by lia.
    rewrite substring_skip. apply substring_all.
Qed.

Lemma strEndsWith_spec (s search : string) :
  search <> "" -> (strEndsWith s search = true <-> ends_with s search).
Proof.
  intros Hs. unfold strEndsWith, truthy.
  destruct (String.eqb_spec search "") as [? | _]; [contradiction |].
  destruct (String.eqb_spec s "") as [-> | _]; simpl.
  - split; [discriminate |].
    intros [pre H]. destruct pre; [| discriminate].
    rewrite append_empty in H. congruence.
  - apply endsWith_spec.
Qed.

(** ** Util.disallowsSameSiteNone *)

Lemma hasb_spec (ua sub : string) : hasb ua sub = true <-> contains ua sub.
Proof. apply indexOf_found. Qed.

Lemma has_string (ua sub : string) :
  has (VString ua) sub = Return (hasb ua sub).
Proof. reflexivity. Qed.

Lemma lacks_string (ua sub : string) :
  lacks (VString ua) sub = Return (negb (hasb ua sub)).
Proof. unfold lacks, hasb. simpl. now rewrite negb_involutive. Qed.

(** the value of [disallowsSameSiteNone] on a string, as one boolean
    expression over the tests of the function *)
Lemma disallowsSameSiteNone_string (ua : string) :
  disallowsSameSiteNone (VString ua) =
  Return (VBool
    ((hasb ua "CPU iPhone OS 12" || hasb ua "iPad; CPU OS 12")
     || (hasb ua "Macintosh; Intel Mac OS X 10_14"
         && (hasb ua "Version/" && hasb ua "Safari"))
     || (hasb ua "Macintosh; Intel Mac OS X 10_14"
         && strEndsWith ua "AppleWebKit/605.1.15 (KHTML, like Gecko)")
     || (hasb ua "Chrome/5" || hasb ua "Chrome/6")
     || (hasb ua "UnrealEngine" && negb (hasb ua "Chrome"))
     || (hasb ua "UCBrowser/12" || hasb ua "UCBrowser/11"))).
Proof.
  unfold disallowsSameSiteNone, if_return_true, orC, andC, call_strEndsWith.
  rewrite !has_string, !lacks_string. cbn [isString negb bindC].
  repeat first
    [ match goal with
      | |- Return ?x = Return ?x => reflexivity
      | |- context [hasb ua ?sub] =>
          destruct (hasb ua sub); cbn [bindC orb andb negb]
      end
    | destruct (strEndsWith ua _); cbn [bindC orb andb negb] ].
Qed.

(** C6: on a string, [disallowsSameSiteNone] answers a boolean, and that
    boolean is [true] exactly when the user agent matches one of the listed
    patterns (iOS 12, Safari or the embedded browser on macOS 10.14,
    Chrome 5x/6x, Unreal Engine without Chrome, UC Browser 11/12);
    otherwise it is [false]. *)
Theorem disallowsSameSiteNone_exactly_broken (ua : string) :
  exists b : bool,
    disallowsSameSiteNone (VString ua) = Return (VBool b)
    /\ (b = true <-> broken_user_agent ua).
Proof.
  eexists. split; [apply disallowsSameSiteNone_string |].
  unfold broken_user_agent.
  rewrite !orb_true_iff, !andb_true_iff, !negb_true_iff, !hasb_spec.
  rewrite strEndsWith_spec by discriminate.
  rewrite <- (not_true_iff_false (hasb ua "Chrome")), hasb_spec.
  tauto.
Qed.

(** C9: on an argument that is not a string ([null], [undefined], a
    number, a boolean, an object) [disallowsSameSiteNone] returns [false];
    it ends normally, no method of the argument being called. *)
Theorem disallowsSameSiteNone_non_string (userAgent : value) :
  (forall s, userAgent <> VString s) ->
  disallowsSameSiteNone userAgent = Return (VBool false).
Proof.
  intros Hns. destruct userAgent; try reflexivity.
  now contradiction (Hns s).
Qed.

Lemma disallowsSameSiteNone_non_string_witness :
  disallowsSameSiteNone VNull = Return (VBool false)
  /\ disallowsSameSiteNone VUndefined = Return (VBool false)
  /\ disallowsSameSiteNone (VNumber 12%float) = Return (VBool false).
Proof.
  split; [| split];
    apply disallowsSameSiteNone_non_string; intros s; discriminate.
Defined.

(** without the guard the first method call would throw on [null] *)
Remark indexOf_on_null_throws :
  has VNull "CPU iPhone OS 12" = Throw TypeError.
Proof. reflexivity. Qed.

(** ** dateTimeUtilsDuration *)

(** C10: [dateTimeUtilsDuration], which is also [DateTimeUtils.GetDuration],
    returns [null] as soon as [start] or [end] is [0], [null] or
    [undefined]; on any other two numbers it returns [end - start], which
    is negative when [end] precedes [start] (here 3 - 5 = -2). *)
Theorem dateTimeUtilsDuration_cases :
  (forall start end_,
      zero_or_nullish start \/ zero_or_nullish end_ ->
      dateTimeUtilsDuration start end_ = Return VNull)
  /\ (forall x y,
         PrimFloat.eqb x 0%float = false -> PrimFloat.eqb y 0%float = false ->
         dateTimeUtilsDuration (VNumber x) (VNumber y)
         = Return (VNumber (PrimFloat.sub y x)))
  /\ dateTimeUtilsDuration (VNumber 5%float) (VNumber 3%float)
     = Return (VNumber (-2)%float)
  /\ (forall (NowT : Type) (now : NowT),
         GetDuration (DateTimeUtils now) = dateTimeUtilsDuration).
Proof.
  split; [| split; [| split]].
  - intros start end_ H. unfold dateTimeUtilsDuration.
    destruct H as [[-> | [-> | [x [-> Hx]]]] | [-> | [-> | [x [-> Hx]]]]];
      cbn [strict_ne_zero isNullOrUndefined negb andb];
      rewrite ?Hx, ?andb_false_r; cbn [negb andb];
      rewrite ?andb_false_r; reflexivity.
  - intros x y Hx Hy. unfold dateTimeUtilsDuration. simpl.
    now rewrite Hx, Hy.
  - reflexivity.
  - reflexivity.
Qed.

(** ** The matcher *)

Lemma rep_greedy_sound {X : Type} (p : ascii -> bool) (lo : nat)
    (hi : option nat) (s : string) :
  forall (n : nat) (k : string -> option X) (x : X),
    rep_greedy p lo hi n s k = Some x ->
    exists t s', s = t +:+ s' /\ (lo <= n + String.length t)%nat
                 /\ all_chars p t = true /\ k s' = Some x.
Proof.
  induction s as [|a s IH]; intros n k x; simpl.
  - destruct (Nat.leb_spec lo n) as [Hle | Hlt]; [| discriminate].
    intros Hk. exists "", "". repeat split; simpl; auto; lia.
  - assert (Hstop : (if Nat.leb lo n then k (String a s) else None) = Some x ->
                    exists t s', String a s = t +:+ s'
                                 /\ (lo <= n + String.length t)%nat
                                 /\ all_chars p t = true /\ k s' = Some x).
    { destruct (Nat.leb_spec lo n) as [Hle | Hlt]; [| discriminate].
      intros Hk. exists "", (String a s). repeat split; simpl; auto; lia. }
    destruct (p a && below hi n) eqn:E; [| exact Hstop].
    destruct (rep_greedy p lo hi (S n) s k) as [y|] eqn:R; [| exact Hstop].
    intros [= ->]. apply IH in R as (t & s' & -> & Hlo & Hall & Hk).
    apply andb_true_iff in E as [Hp _].
    exists (String a t), s'. rewrite append_cons. simpl.
    rewrite Hp, Hall. repeat split; auto; lia.
Qed.

Lemma matchk_sound {X : Type} (r : regex) :
  forall (s : string) (c : captures) (k : string -> captures -> option X) (x : X),
    matchk r s c k = Some x ->
    exists s' c', matches r s c s' c' /\ k s' c' = Some x.
Proof.
  induction r as [|p|p lo hi|r1 IH1 r2 IH2|r1 IH1|n r1 IH1|];
    intros s c k x; simpl.
  - intros H. now exists s, c.
  - destruct s as [|a s]; [discriminate |].
    destruct (p a) eqn:E; [| discriminate].
    intros H. exists s, c. split; [now exists a | exact H].
  - intros H. apply rep_greedy_sound in H as (t & s' & -> & Hlo & Hall & Hk).
    exists s', c. split; [exists t; repeat split; auto; lia | exact Hk].
  - intros H. apply IH1 in H as (s1 & c1 & M1 & H).
    apply IH2 in H as (s2 & c2 & M2 & H).
    exists s2, c2. split; [now exists s1, c1 | exact H].
  - destruct (matchk r1 s c k) as [y|] eqn:E.
    + intros [= ->]. apply IH1 in E as (s1 & c1 & M1 & H).
      exists s1, c1. split; [now left | exact H].
    + intros H. exists s, c. split; [now right | exact H].
  - intros H. apply IH1 in H as (s1 & c1 & M1 & H).
    exists s1, (set_capture n (consumed s s1) c1). split; [| exact H].
    now exists c1.
  - destruct s; [| discriminate].
    intros H. now exists "", c.
Qed.

Lemma consumed_app (t s' : string) : consumed (t +:+ s') s' = t.
Proof.
  unfold consumed. rewrite append_length.
  replace (String.length t + String.length s' - String.length s')%nat
    with (String.length t) by lia.
  induction t as [|a t IH].
  - destruct s'; reflexivity.
  - rewrite append_cons. simpl. now f_equal.
Qed.

(** ** The matcher, the other way round *)

Lemma rep_greedy_complete {X : Type} (p : ascii -> bool) (lo : nat)
    (t s' : string) (k : string -> option X) (x : X) :
  forall n,
    all_chars p t = true -> (lo <= n + String.length t)%nat ->
    k s' = Some x ->
    exists y, rep_greedy p lo None n (t +:+ s') k = Some y.
Proof.
  induction t as [|a t IH]; intros n Hall Hlo Hk.
  - rewrite append_empty. simpl in Hlo.
    assert (Hstop : (if Nat.leb lo n then k s' else None) = Some x)
      by (destruct (Nat.leb_spec lo n); [exact Hk | lia]).
    destruct s' as [|b s'']; simpl; [eauto |].
    destruct (p b && true); [| eauto].
    destruct (rep_greedy p lo None (S n) s'' k); eauto.
  - rewrite append_cons. simpl in Hall, Hlo |- *.
    apply andb_true_iff in Hall as [-> Hall]. simpl.
    destruct (IH (S n) Hall ltac:(lia) Hk) as [y ->]. eauto.
Qed.

(** whatever the relation [matches] allows, the matcher finds some way to
    succeed *)
Lemma matchk_complete {X : Type} (r : regex) :
  unbounded r = true ->
  forall s c s' c' (k : string -> captures -> option X) x,
    matches r s c s' c' -> k s' c' = Some x ->
    exists y, matchk r s c k = Some y.
Proof.
  induction r as [|p|p lo hi|r1 IH1 r2 IH2|r1 IH1|n r1 IH1|];
    intros Hu s c s' c' k x; simpl in *.
  - intros [-> ->] Hk. eauto.
  - intros (a & -> & Hp & ->) Hk. rewrite Hp. eauto.
  - destruct hi; [discriminate |].
    intros (t & -> & Hlo & Hall & ->) Hk.
    apply (rep_greedy_complete p lo t s' (fun s'0 => k s'0 c) x 0%nat Hall);
      [lia | exact Hk].
  - apply andb_true_iff in Hu as [Hu1 Hu2].
    intros (s1 & c1 & M1 & M2) Hk.
    destruct (IH2 Hu2 _ _ _ _ _ _ M2 Hk) as [y Hy].
    eapply IH1; eauto.
  - intros [M | [-> ->]] Hk.
    + destruct (IH1 Hu _ _ _ _ _ _ M Hk) as [y ->]. eauto.
    + destruct (matchk r1 s c k); eauto.
  - intros (c1 & M & ->) Hk.
    eapply (IH1 Hu _ _ _ _ (fun s'0 c'0 =>
              k s'0 (set_capture n (consumed s s'0) c'0))); eauto.
  - intros (-> & -> & ->) Hk. eauto.
Qed.

(** ** getFilename *)

Lemma substring_from_tail (a : ascii) (d : string) :
  substring_from (String a d) 1 = d.
Proof.
  change 1 with (Z.of_nat 1). rewrite substring_from_eq by (simpl; lia).
  simpl. rewrite Nat.sub_0_r. apply substring_all.
Qed.

Lemma strip_dot_cons (d : string) : strip_dot (String "." d) = d.
Proof. unfold strip_dot. simpl. apply substring_from_tail. Qed.

Lemma truthy_append_r (a b : string) : truthy b = true -> truthy (a +:+ b) = true.
Proof.
  unfold truthy. rewrite !negb_true_iff, !String.eqb_neq.
  intros Hb Hab. apply Hb.
  destruct a; [exact Hab | discriminate].
Qed.

Lemma consumed_cons_app (a : ascii) (t1 r x : string) :
  (exists u, r = u +:+ x) -> (1 <= String.length t1)%nat ->
  exists d, consumed (String a (t1 +:+ r)) x = String a d /\ d <> "".
Proof.
  intros [u ->] Ht1. exists (t1 +:+ u). split.
  - rewrite <- append_assoc, <- append_cons. apply consumed_app.
  - destruct t1; [simpl in Ht1; lia | discriminate].
Qed.

Ltac destruct_matches :=
  repeat match goal with
         | H : exists _, _ |- _ => destruct H
         | H : _ /\ _ |- _ => destruct H
         end.

(** the version group of [extractFilename] is a dot followed by at least
    one more character *)
Lemma extractFilename_version (s g1 g2 g3 : string) :
  groups3 (match_here extractFilename s) = Some (g1, g2, g3) ->
  exists d, g2 = String "." d /\ d <> "".
Proof.
  unfold groups3, match_here.
  destruct (matchk extractFilename s no_captures _) as [[m c]|] eqn:E;
    [| discriminate].
  apply matchk_sound in E as (s' & c' & M & [= _ ->]).
  cbn [extractFilename seqs matches text] in M.
  destruct_matches. subst. cbn [set_capture Nat.eqb].
  intros [= _ <- _].
  match goal with
  | H : lit "." ?a = true |- context [consumed (String ?a _) _] =>
      unfold lit in H; apply Ascii.eqb_eq in H; subst a
  end.
  apply consumed_cons_app; [| assumption].
  match goal with
  | |- exists u, String ?a (?t2 +:+ String ?b (?t3 +:+ ?x)) = u +:+ ?x =>
      exists (String a (t2 +:+ String b t3))
  end.
  now rewrite append_cons, append_assoc, append_cons.
Qed.

(** The version of the [match] array is [packageVersion] itself (when the
    file name contains it, or has no version at all) or the version group
    of [extractFilename]. *)
Lemma find_match_version (inputFile packageVersion : string)
    (intFile version format : string) :
  fst (find_match inputFile packageVersion) = Some (intFile, version, format) ->
  version = packageVersion \/ exists d, version = String "." d /\ d <> "".
Proof.
  unfold find_match. destruct (split_path inputFile) as [path filename].
  destruct (negb (indexOf filename ("." +:+ packageVersion) =? -1)).
  - intros [= _ <- _]. now left.
  - destruct (match_here isVersioned inputFile).
    + simpl. intros H. right. eapply extractFilename_version. exact H.
    + destruct (endsWith filename ".js"); [| discriminate].
      destruct (negb (indexOf filename "." =? -1)); [| discriminate].
      intros [= _ <- _]. now left.
Qed.

(** *** The version a path carries *)







Lemma digit_not_dot (a : ascii) : is_digit a = true -> a <> "."%char.
Proof. intros H ->. discriminate. Qed.










(** When [getFilename] answers with an [intFile], it answers with all five
    properties; the version is [packageVersion], and neither it nor
    [intFile] is empty. *)
Lemma getFilename_full (inputFile packageVersion key : string) :
  names_intFile (getFilename inputFile packageVersion) = Some key ->
  exists module format,
    getFilename inputFile packageVersion
    = mkNames (snd (split_path inputFile)) (Some module)
        (Some packageVersion) (Some format) (Some key)
    /\ truthy packageVersion = true /\ truthy key = true.
Proof.
  unfold getFilename.
  destruct (find_match inputFile packageVersion)
    as [[[[intFile version] format]|] module] eqn:FM; [| discriminate].
  assert (Hv := find_match_version inputFile packageVersion intFile version format).
  rewrite FM in Hv. specialize (Hv eq_refl).
  destruct (truthy version) eqn:Tv; [| discriminate].
  destruct (String.eqb_spec (strip_dot version) packageVersion) as [Heq | Hne];
    [| discriminate].
  cbn [names_intFile]. intros [= <-]. rewrite Heq.
  do 2 eexists. split; [reflexivity |]. split.
  - destruct Hv as [-> | (d & -> & Hd)].
    + exact Tv.
    + rewrite strip_dot_cons in Heq. subst d. unfold truthy.
      now apply negb_true_iff, String.eqb_neq.
  - now apply truthy_append_r.
Qed.

Example getFilename_bundle :
  getFilename "./browser/ai.2.5.10.min.js" "2.5.10"
  = mkNames "ai.2.5.10.min.js" (Some "ai") (Some "2.5.10") (Some "min.js")
      (Some "./browser/ai.2.5.10.integrity.json").
Proof. vm_compute. reflexivity. Qed.

Example getFilename_other_version :
  getFilename "./browser/ai.2.5.9.min.js" "2.5.10" = bare "ai.2.5.9.min.js"
  /\ file_version "./browser/ai.2.5.9.min.js" = Some "2.5.9".
Proof. split; vm_compute; reflexivity. Qed.

Example getFilename_no_version :
  getFilename "./browser/ai.js" "2.5.10"
  = mkNames "ai.js" (Some "ai") (Some "2.5.10") (Some "js")
      (Some "./browser/ai.integrity.json").
Proof. vm_compute. reflexivity. Qed.

(** The package version is looked for as a piece of text of the file
    name: the bundle of version 2.5.10 contains the text of the package
    version 2.5.1 and is taken for a bundle of that version, the
    character after that text being dropped. *)
Remark getFilename_version_as_text :
  getFilename "./browser/ai.2.5.10.min.js" "2.5.1"
  = mkNames "ai.2.5.10.min.js" (Some "ai") (Some "2.5.1") (Some "min.js")
      (Some "./browser/ai.2.5.1.integrity.json")
  /\ file_version "./browser/ai.2.5.10.min.js" = Some "2.5.10".
Proof. split; vm_compute; reflexivity. Qed.


(** ** processPath *)

Section IntegrityRun.

Variable readFileSync : string -> option string.
Variable digest_base64 : algorithm -> string -> string.

Local Abbreviation processOne := (processFile readFileSync digest_base64).
Local Abbreviation hashOf := (calculateHash digest_base64).
Local Abbreviation processRun := (processRun readFileSync digest_base64).
Local Abbreviation details_of := (details_of digest_base64).
Local Abbreviation file_details := (file_details digest_base64).

Lemma processFiles_run (version : string) (files : list string) :
  forall cache,
    processFiles readFileSync digest_base64 version cache files
    = processRun cache (map (fun f => (version, f)) files).
Proof.
  induction files as [|f files IH]; intros cache; simpl; [reflexivity |].
  destruct (processOne version cache f) as [c' [e|]]; [reflexivity | apply IH].
Qed.

Lemma processRun_app (pre post : list (string * string)) :
  forall cache,
    processRun cache (pre ++ post)
    = match processRun cache pre with
      | (cache', None) => processRun cache' post
      | thrown => thrown
      end.
Proof.
  induction pre as [|[v f] pre IH]; intros cache; simpl; [reflexivity |].
  destruct (processOne v cache f) as [c' [e|]]; [reflexivity | apply IH].
Qed.

(** the two calls of [generateIntegrityFile] form one run *)
Lemma generateIntegrityFile_run (globby_sync : string -> list string)
    (package_version : string) :
  generateIntegrityFile globby_sync readFileSync digest_base64 package_version
  = processRun ∅
      (map (fun f => (package_version, f)) (globby_sync "./browser/**/*.js")
       ++ map (fun f => (package_version, f)) (globby_sync "./snippet/**/*.js")).
Proof.
  unfold generateIntegrityFile, processPath.
  rewrite processRun_app, processFiles_run.
  destruct (processRun ∅ _) as [c [e|]];
    [reflexivity | apply processFiles_run].
Qed.

(** a file for which [getFilename] gives no [intFile] is passed over *)
Lemma processFile_bare (version inputFile : string)
    (cache : gmap string IntegrityJson) :
  names_intFile (getFilename inputFile version) = None ->
  processOne version cache inputFile = (cache, None).
Proof. unfold processFile. now intros ->. Qed.


Lemma loose_ne_false (a b : option string) : loose_ne a b = false <-> a = b.
Proof.
  unfold loose_ne. rewrite negb_false_iff, bool_decide_eq_true. reflexivity.
Qed.

(** the step on a file that has an [intFile], case by case *)
Lemma processFile_full (version inputFile : string)
    (cache : gmap string IntegrityJson) (name module format key : string) :
  getFilename inputFile version
  = mkNames name (Some module) (Some version) (Some format) (Some key) ->
  truthy version = true -> truthy key = true ->
  processOne version cache inputFile =
  match readFileSync inputFile with
  | None => (cache, Some (HostError "readFileSync"))
  | Some src =>
      let fd := details_of name src in
      match cache !! key with
      | None =>
          (<[key := mkIntegrityJson (Some module) (Some version)
                      (Some (<["@" +:+ format := fd]> ∅))]> cache, None)
      | Some e =>
          if loose_ne (ij_name e) (Some module) then
            (cache, Some (Error ("Error! - Module name [" +:+ to_str (ij_name e)
                                 +:+ "] does not match expected ["
                                 +:+ module +:+ "]")))
          else if loose_ne (ij_version e) (Some version) then
            (cache, Some (Error ("Error! - Module version ["
                                 +:+ to_str (ij_version e)
                                 +:+ "] does not match expected ["
                                 +:+ version +:+ "]")))
          else
            (<[key := mkIntegrityJson (ij_name e) (ij_version e)
                        (Some (<["@" +:+ format := fd]>
                                 (default ∅ (ij_ext e))))]> cache, None)
      end
  end.
Proof.
  intros Hn Tv Tk. unfold processFile. rewrite Hn.
  cbn [names_intFile names_module names_version names_format names_name
       truthy_opt to_str from_option id].
  rewrite Tk, Tv.
  destruct (readFileSync inputFile) as [src|]; [| reflexivity].
  cbn zeta. destruct (cache !! key) as [e|]; [| reflexivity].
  destruct (loose_ne (ij_name e) (Some module)); [reflexivity |].
  cbn [andb]. destruct (loose_ne (ij_version e) (Some version)); reflexivity.
Qed.

(** what [processPath] writes for a file are the digests of the hash
    library for the text it has read *)
Lemma details_of_file_details (name src : string) :
  details_of name src = file_details name src.
Proof. reflexivity. Qed.

(** a file that is processed without an exception is recorded *)
Lemma processFile_records (version inputFile key : string)
    (cache cache' : gmap string IntegrityJson) :
  names_intFile (getFilename inputFile version) = Some key ->
  processOne version cache inputFile = (cache', None) ->
  exists module format,
    getFilename inputFile version
    = mkNames (snd (split_path inputFile)) (Some module) (Some version)
        (Some format) (Some key)
    /\ recorded key module version ("@" +:+ format) cache'.
Proof.
  intros Hkey H.
  destruct (getFilename_full _ _ _ Hkey) as (module & format & Hn & Tv & Tk).
  rewrite (processFile_full _ _ _ _ _ _ _ Hn Tv Tk) in H.
  exists module, format. split; [exact Hn |].
  destruct (readFileSync inputFile) as [src|]; [| discriminate].
  cbn zeta in H.
  set (fd := details_of (snd (split_path inputFile)) src) in *.
  destruct (cache !! key) as [e|] eqn:E.
  - destruct (loose_ne (ij_name e) (Some module)) eqn:N; [discriminate |].
    destruct (loose_ne (ij_version e) (Some version)) eqn:V; [discriminate |].
    apply loose_ne_false in N, V. injection H as <-.
    exists (mkIntegrityJson (ij_name e) (ij_version e)
              (Some (<["@" +:+ format := fd]> (default ∅ (ij_ext e))))),
      (<["@" +:+ format := fd]> (default ∅ (ij_ext e))), fd.
    rewrite !lookup_insert_eq. cbn [ij_name ij_version ij_ext].
    repeat split; assumption.
  - injection H as <-.
    exists (mkIntegrityJson (Some module) (Some version)
              (Some (<["@" +:+ format := fd]> ∅))),
      (<["@" +:+ format := fd]> ∅), fd.
    rewrite !lookup_insert_eq. cbn [ij_name ij_version ij_ext].
    repeat split.
Qed.

(** what is recorded stays recorded: later files never rename a record,
    never change its version and never remove details *)
Lemma processFile_preserves (key module version extKey : string)
    (version' inputFile : string) (cache cache' : gmap string IntegrityJson) :
  recorded key module version extKey cache ->
  processOne version' cache inputFile = (cache', None) ->
  recorded key module version extKey cache'.
Proof.
  intros R H.
  destruct (names_intFile (getFilename inputFile version')) as [key'|] eqn:Hkey.
  2: { rewrite processFile_bare in H by assumption. now injection H as <-. }
  destruct (getFilename_full _ _ _ Hkey) as (module' & format' & Hn & Tv & Tk).
  rewrite (processFile_full _ _ _ _ _ _ _ Hn Tv Tk) in H.
  destruct (readFileSync inputFile) as [src|]; [| discriminate].
  cbn zeta in H.
  set (fd' := details_of (snd (split_path inputFile)) src) in *.
  destruct R as (e & m & fd & He & Hname & Hver & Hext & Hfd).
  destruct (decide (key' = key)) as [-> | Hne].
  - rewrite He in H.
    destruct (loose_ne (ij_name e) (Some module')); [discriminate |].
    destruct (loose_ne (ij_version e) (Some version')); [discriminate |].
    injection H as <-. rewrite Hext. cbn [default from_option id].
    exists (mkIntegrityJson (ij_name e) (ij_version e)
              (Some (<["@" +:+ format' := fd']> m))),
      (<["@" +:+ format' := fd']> m).
    destruct (decide ("@" +:+ format' = extKey)) as [<- | Hx].
    + exists fd'. rewrite !lookup_insert_eq. cbn [ij_name ij_version ij_ext].
      repeat split; assumption.
    + exists fd. rewrite lookup_insert_eq, lookup_insert_ne by assumption.
      cbn [ij_name ij_version ij_ext]. repeat split; assumption.
  - assert (Hc : cache' !! key = Some e).
    { destruct (cache !! key') as [e'|].
      - destruct (loose_ne (ij_name e') (Some module')); [discriminate |].
        destruct (loose_ne (ij_version e') (Some version')); [discriminate |].
        injection H as <-. now rewrite lookup_insert_ne.
      - injection H as <-. now rewrite lookup_insert_ne. }
    now exists e, m, fd.
Qed.

(** a file whose record already names another module or another version
    makes the step throw, and nothing is written *)
Lemma processFile_mismatch (version inputFile key src : string)
    (cache : gmap string IntegrityJson) (module' version' extKey : string) :
  names_intFile (getFilename inputFile version) = Some key ->
  readFileSync inputFile = Some src ->
  recorded key module' version' extKey cache ->
  Some module' <> names_module (getFilename inputFile version)
  \/ Some version' <> names_version (getFilename inputFile version) ->
  exists msg, processOne version cache inputFile = (cache, Some (Error msg)).
Proof.
  intros Hkey Hsrc (e & m & fd & He & Hname & Hver & _) Hdiff.
  destruct (getFilename_full _ _ _ Hkey) as (module & format & Hn & Tv & Tk).
  rewrite (processFile_full _ _ _ _ _ _ _ Hn Tv Tk), Hsrc, He. cbn zeta.
  rewrite Hn in Hdiff. cbn in Hdiff. rewrite Hname, Hver.
  destruct (loose_ne (Some module') (Some module)) eqn:N; [eauto |].
  destruct (loose_ne (Some version') (Some version)) eqn:V; [eauto |].
  apply loose_ne_false in N, V. tauto.
Qed.

Lemma processRun_preserves (key module version extKey : string)
    (items : list (string * string)) :
  forall cache cache',
    recorded key module version extKey cache ->
    processRun cache items = (cache', None) ->
    recorded key module version extKey cache'.
Proof.
  induction items as [|[v f] items IH]; intros cache cache' R; simpl.
  - now intros [= <-].
  - destruct (processOne v cache f) as [c1 [e|]] eqn:E; [discriminate |].
    apply IH. eapply processFile_preserves; eassumption.
Qed.

Lemma processRun_records (items : list (string * string)) :
  forall cache cache' version inputFile key,
    processRun cache items = (cache', None) ->
    In (version, inputFile) items ->
    names_intFile (getFilename inputFile version) = Some key ->
    exists module format,
      getFilename inputFile version
      = mkNames (snd (split_path inputFile)) (Some module) (Some version)
          (Some format) (Some key)
      /\ recorded key module version ("@" +:+ format) cache'.
Proof.
  induction items as [|[v f] items IH];
    intros cache cache' version inputFile key; simpl; [tauto |].
  destruct (processOne v cache f) as [c1 [e|]] eqn:E; [discriminate |].
  intros Hrun [[= -> ->] | Hin] Hkey.
  - destruct (processFile_records _ _ _ _ _ Hkey E) as (module & format & Hn & R).
    exists module, format. split; [exact Hn |].
    eapply processRun_preserves; eassumption.
  - eapply IH; eassumption.
Qed.

(** C3: in a build run, a file that maps to the integrity file of an
    earlier file while its module name or its version differs makes
    [processPath] throw an [Error] at that very file: the files before it
    have been processed, nothing is written for it, and no later file is
    looked at. *)
Theorem processPath_throws_on_mismatch
    (cache : gmap string IntegrityJson) (pre post : list (string * string))
    (earlierVersion earlierFile version inputFile key src : string) :
  snd (processRun cache pre) = None ->
  In (earlierVersion, earlierFile) pre ->
  names_intFile (getFilename earlierFile earlierVersion) = Some key ->
  names_intFile (getFilename inputFile version) = Some key ->
  readFileSync inputFile = Some src ->
  names_module (getFilename earlierFile earlierVersion)
    <> names_module (getFilename inputFile version)
  \/ names_version (getFilename earlierFile earlierVersion)
     <> names_version (getFilename inputFile version) ->
  exists msg,
    processRun cache (pre ++ (version, inputFile) :: post)
    = (fst (processRun cache pre), Some (Error msg)).
Proof.
  intros Hpre Hin Hearlier Hkey Hsrc Hdiff.
  destruct (processRun cache pre) as [c1 thrown] eqn:E.
  cbn [fst snd] in *. subst thrown.
  destruct (processRun_records _ _ _ _ _ _ E Hin Hearlier)
    as (module' & format' & Hn' & R).
  rewrite Hn' in Hdiff. cbn [names_module names_version] in Hdiff.
  destruct (processFile_mismatch _ _ _ _ _ _ _ _ Hkey Hsrc R Hdiff) as [msg Hm].
  exists msg. rewrite processRun_app, E. simpl. now rewrite Hm.
Qed.

Lemma names_name_filename (inputFile version : string) :
  names_name (getFilename inputFile version) = snd (split_path inputFile).
Proof.
  unfold getFilename.
  destruct (find_match inputFile version) as [[[[intFile v] format]|] module];
    [| reflexivity].
  destruct (truthy v); [| reflexivity].
  destruct (String.eqb (strip_dot v) version); reflexivity.
Qed.

(** a file that is processed without an exception has been read, and its
    record holds the digests of its text under the key of its format *)
Lemma processFile_holds (version inputFile key : string)
    (cache cache' : gmap string IntegrityJson) :
  names_intFile (getFilename inputFile version) = Some key ->
  processOne version cache inputFile = (cache', None) ->
  exists format src,
    names_format (getFilename inputFile version) = Some format
    /\ readFileSync inputFile = Some src
    /\ holds key ("@" +:+ format)
         (file_details (names_name (getFilename inputFile version)) src)
         cache'.
Proof.
  intros Hkey H. rewrite names_name_filename.
  destruct (getFilename_full _ _ _ Hkey) as (module & format & Hn & Tv & Tk).
  rewrite (processFile_full _ _ _ _ _ _ _ Hn Tv Tk) in H.
  exists format. rewrite Hn. cbn [names_format].
  destruct (readFileSync inputFile) as [src|]; [| discriminate].
  exists src. split; [reflexivity |]. split; [reflexivity |].
  cbn zeta in H. rewrite details_of_file_details in H.
  destruct (cache !! key) as [e|].
  - destruct (loose_ne (ij_name e) (Some module)); [discriminate |].
    destruct (loose_ne (ij_version e) (Some version)); [discriminate |].
    injection H as <-. eexists _, _. rewrite lookup_insert_eq.
    split; [reflexivity |]. split; [reflexivity |]. apply lookup_insert_eq.
  - injection H as <-. eexists _, _. rewrite lookup_insert_eq.
    split; [reflexivity |]. split; [reflexivity |]. apply lookup_insert_eq.
Qed.

(** details stay as they are until a file comes that belongs to the same
    integrity file and has the same format *)
Lemma processFile_keeps (key extKey : string) (fd : FileDetails)
    (version inputFile : string) (cache cache' : gmap string IntegrityJson) :
  holds key extKey fd cache ->
  processOne version cache inputFile = (cache', None) ->
  ~ writes_to version inputFile key extKey ->
  holds key extKey fd cache'.
Proof.
  intros R H Hw.
  destruct (names_intFile (getFilename inputFile version)) as [key'|] eqn:Hkey.
  2: { rewrite processFile_bare in H by assumption. now injection H as <-. }
  destruct (getFilename_full _ _ _ Hkey) as (module & format & Hn & Tv & Tk).
  rewrite (processFile_full _ _ _ _ _ _ _ Hn Tv Tk) in H.
  destruct (readFileSync inputFile) as [src|]; [| discriminate].
  cbn zeta in H.
  set (fd' := details_of (snd (split_path inputFile)) src) in *.
  destruct R as (e & m & He & Hext & Hfd).
  destruct (decide (key' = key)) as [-> | Hne].
  - assert (Hx : "@" +:+ format <> extKey).
    { intros <-. apply Hw. unfold writes_to. rewrite Hn. now split. }
    rewrite He in H.
    destruct (loose_ne (ij_name e) (Some module)); [discriminate |].
    destruct (loose_ne (ij_version e) (Some version)); [discriminate |].
    injection H as <-. rewrite Hext. cbn [default from_option id].
    eexists _, _. rewrite lookup_insert_eq.
    split; [reflexivity |]. split; [reflexivity |].
    now rewrite lookup_insert_ne.
  - assert (Hc : cache' !! key = Some e).
    { destruct (cache !! key') as [e'|].
      - destruct (loose_ne (ij_name e') (Some module)); [discriminate |].
        destruct (loose_ne (ij_version e') (Some version)); [discriminate |].
        injection H as <-. now rewrite lookup_insert_ne.
      - injection H as <-. now rewrite lookup_insert_ne. }
    now exists e, m.
Qed.

Lemma processRun_keeps (key extKey : string) (fd : FileDetails)
    (items : list (string * string)) :
  forall cache cache',
    Forall (fun item => ~ writes_to (fst item) (snd item) key extKey) items ->
    holds key extKey fd cache ->
    processRun cache items = (cache', None) ->
    holds key extKey fd cache'.
Proof.
  induction items as [|[v f] items IH]; intros cache cache' Hno R; simpl.
  - now intros [= <-].
  - destruct (processOne v cache f) as [c1 [e|]] eqn:E; [discriminate |].
    inversion Hno as [|? ? Hf Hrest]; subst.
    apply IH; [exact Hrest |]. eapply processFile_keeps; eassumption.
Qed.

(** at the end of a run the details under a key are those of the last
    file of the run that belongs there *)
Lemma processRun_last_writer (key extKey : string)
    (items : list (string * string)) :
  forall cache cache',
    processRun cache items = (cache', None) ->
    Exists (fun item => writes_to (fst item) (snd item) key extKey) items ->
    exists (before : list (string * string)) (version inputFile : string)
           (later : list (string * string)) (src : string),
      items = (before ++ (version, inputFile) :: later)%list
      /\ writes_to version inputFile key extKey
      /\ Forall (fun item => ~ writes_to (fst item) (snd item) key extKey)
           later
      /\ readFileSync inputFile = Some src
      /\ holds key extKey
           (file_details (names_name (getFilename inputFile version)) src)
           cache'.
Proof.
  induction items as [|[v f] items IH]; intros cache cache' Hrun Hex.
  - inversion Hex.
  - simpl in Hrun.
    destruct (processOne v cache f) as [c1 [e|]] eqn:E; [discriminate |].
    destruct (decide (Exists (fun item =>
                writes_to (fst item) (snd item) key extKey) items))
      as [Hlater | Hnone].
    + destruct (IH _ _ Hrun Hlater)
        as (before & v' & f' & later & src & -> & Hw & Hno & Hsrc & Hh).
      exists ((v, f) :: before), v', f', later, src.
      split; [reflexivity |]. split; [exact Hw |]. split; [exact Hno |].
      split; [exact Hsrc | exact Hh].
    + assert (Hw : writes_to v f key extKey).
      { inversion Hex as [? ? Hw | ? ? Hl]; subst;
          [exact Hw | contradiction]. }
      assert (Hno : Forall (fun item =>
                ~ writes_to (fst item) (snd item) key extKey) items).
      { apply Forall_forall. intros item Hin Hwi. apply Hnone.
        apply Exists_exists. eauto. }
      destruct Hw as [Hkey Hfmt].
      destruct (processFile_holds _ _ _ _ _ Hkey E)
        as (format & src & Hf & Hsrc & Hh).
      rewrite Hf in Hfmt. injection Hfmt as <-.
      exists [], v, f, items, src.
      split; [reflexivity |].
      split; [unfold writes_to; rewrite Hf; now split |].
      split; [exact Hno |]. split; [exact Hsrc |].
      eapply processRun_keeps; eassumption.
Qed.

(** C5: when a build run ends without an exception, every file of the run
    for which [getFilename] gave an [intFile] has its record in the cache
    under that name.  The record holds the module name and the version
    and, under the key ["@" + format], details whose [hashes] are the
    sha256, sha384 and sha512 digests the hash library gives for the text
    of a file that has been read, and whose [integrity] is
    ["sha256-<h1> sha384-<h2> sha512-<h3>"] for the same three digests.
    The file in question is the last file of the run that belongs to
    this integrity file and has this format: the file itself, unless a
    later file of the run shares both with it, and never a file that
    comes before it. *)
Theorem processPath_integrity_record
    (cache : gmap string IntegrityJson) (items : list (string * string))
    (version inputFile key : string) :
  snd (processRun cache items) = None ->
  In (version, inputFile) items ->
  names_intFile (getFilename inputFile version) = Some key ->
  exists (module format : string) (record : IntegrityJson)
         (ext : gmap string FileDetails) (details : FileDetails)
         (h1 h2 h3 : string),
    names_module (getFilename inputFile version) = Some module
    /\ names_format (getFilename inputFile version) = Some format
    /\ fst (processRun cache items) !! key = Some record
    /\ ij_name record = Some module
    /\ ij_version record = Some version
    /\ ij_ext record = Some ext
    /\ ext !! ("@" +:+ format) = Some details
    /\ fd_hashes details = mkHashes h1 h2 h3
    /\ fd_integrity details
       = "sha256-" +:+ h1 +:+ " sha384-" +:+ h2 +:+ " sha512-" +:+ h3
    /\ exists (before : list (string * string)) (version' inputFile' : string)
              (later : list (string * string)) (source : string),
         items = (before ++ (version', inputFile') :: later)%list
         /\ In (version, inputFile) (before ++ [(version', inputFile')])%list
         /\ writes_to version' inputFile' key ("@" +:+ format)
         /\ Forall (fun item =>
                      ~ writes_to (fst item) (snd item) key ("@" +:+ format))
              later
         /\ readFileSync inputFile' = Some source
         /\ fd_file details = names_name (getFilename inputFile' version')
         /\ h1 = digest_base64 SHA256 source
         /\ h2 = digest_base64 SHA384 source
         /\ h3 = digest_base64 SHA512 source.
Proof.
  intros Hrun Hin Hkey.
  destruct (processRun cache items) as [c1 thrown] eqn:E.
  cbn [fst snd] in *. subst thrown.
  destruct (processRun_records _ _ _ _ _ _ E Hin Hkey)
    as (module & format & Hn & e & m & fd & He & Hname & Hver & Hext & Hfd).
  assert (Hwr : writes_to version inputFile key ("@" +:+ format))
    by (unfold writes_to; rewrite Hn; now split).
  assert (Hex : Exists (fun item =>
            writes_to (fst item) (snd item) key ("@" +:+ format)) items)
    by (apply List.Exists_exists; now exists (version, inputFile)).
  destruct (processRun_last_writer _ _ _ _ _ E Hex)
    as (before & v' & f' & later & src & Hitems & Hw & Hno & Hsrc
        & e' & m' & He' & Hext' & Hfd').
  assert (Hpos : In (version, inputFile) (before ++ [(v', f')])%list).
  { rewrite Hitems in Hin. apply in_app_or in Hin as [Hb | [Heq | Hl]].
    - apply in_or_app. now left.
    - apply in_or_app. right. now left.
    - exfalso. rewrite List.Forall_forall in Hno. exact (Hno _ Hl Hwr). }
  assert (e' = e) by congruence. subst e'.
  assert (m' = m) by congruence. subst m'.
  assert (Hd : fd = file_details (names_name (getFilename f' v')) src)
    by congruence.
  exists module, format, e, m, fd, (digest_base64 SHA256 src),
    (digest_base64 SHA384 src), (digest_base64 SHA512 src).
  rewrite Hn. cbn [names_module names_format].
  repeat (split; [first [reflexivity | assumption | now rewrite Hd] |]).
  exists before, v', f', later, src.
  repeat (split; [first [reflexivity | assumption | now rewrite Hd] |]).
  reflexivity.
Qed.

End IntegrityRun.

(** ** Util: local storage *)

Section LocalStorage.

Context {S L : Type}.
Variable env : Env S L.

(** the verification never throws and never touches the flag; when the
    storage object has thrown during it, its answer is [null] *)
Lemma _getVerifiedStorageObject_returns (t : StorageType) (w : World S L) :
  exists r w',
    _getVerifiedStorageObject env t w = (Return r, w')
    /\ _canUseLocalStorage w' = _canUseLocalStorage w
    /\ (storageFaults w <= storageFaults w')%nat
    /\ ((storageFaults w < storageFaults w')%nat -> r = None).
Proof.
  unfold _getVerifiedStorageObject, try_catch, bind, ret, throw, call, newDate.
  destruct (hasGlobal env); cbn [negb].
  2: { exists None, w. repeat split; auto; lia. }
  destruct (getGlobalInst env t) as [storage|].
  2: { eexists _, _. split; [reflexivity |]. cbn. repeat split; auto; lia. }
  destruct t; cbn [store_of with_store _canUseLocalStorage storageFaults
                   localStore sessionStore count_fault];
    destruct (setItem storage _ _ _) as [[[]|e1] s1];
    cbn [store_of with_store _canUseLocalStorage storageFaults
         localStore sessionStore count_fault];
    try (eexists _, _; split; [reflexivity |]; cbn; repeat split; auto; lia);
    destruct (getItem storage _ s1) as [[v|e2] s2];
    cbn [store_of with_store _canUseLocalStorage storageFaults
         localStore sessionStore count_fault];
    try (eexists _, _; split; [reflexivity |]; cbn; repeat split; auto; lia);
    destruct (removeItem storage _ s2) as [[[]|e3] s3];
    cbn [store_of with_store _canUseLocalStorage storageFaults
         localStore sessionStore count_fault];
    eexists _, _; (split; [reflexivity |]); cbn; repeat split; auto; lia.
Qed.

Lemma canUseLocalStorage_cached (b : bool) (w : World S L) :
  _canUseLocalStorage w = Some b ->
  canUseLocalStorage env w = (Return b, w).
Proof. unfold canUseLocalStorage. now intros ->. Qed.

(** [canUseLocalStorage] returns the flag, which it has set if need be *)
Lemma canUseLocalStorage_returns (w : World S L) :
  exists b w',
    canUseLocalStorage env w = (Return b, w')
    /\ _canUseLocalStorage w' = Some b
    /\ (storageFaults w <= storageFaults w')%nat
    /\ ((storageFaults w < storageFaults w')%nat -> b = false).
Proof.
  unfold canUseLocalStorage.
  destruct (_canUseLocalStorage w) as [b|] eqn:F.
  - exists b, w. repeat split; auto; lia.
  - destruct (_getVerifiedStorageObject_returns LocalStorage w)
      as (r & w1 & E & _ & Hle & Hlt).
    unfold bind. rewrite E. unfold set_canUseLocalStorage, ret.
    eexists _, _. split; [reflexivity |].
    cbn [_canUseLocalStorage storageFaults].
    repeat split; auto.
    intros H. now rewrite (Hlt H).
Qed.

(** [_getLocalStorageObject]: the flag it leaves is [true] whenever it
    answers a storage object, and an exception of the storage object on
    the way makes it answer [null] *)
Lemma _getLocalStorageObject_returns (w : World S L) :
  exists r b w',
    _getLocalStorageObject env w = (Return r, w')
    /\ fst (canUseLocalStorage env w) = Return b
    /\ _canUseLocalStorage w' = Some b
    /\ (storageFaults w <= storageFaults w')%nat
    /\ ((storageFaults w < storageFaults w')%nat -> r = None)
    /\ (b = false -> r = None).
Proof.
  unfold _getLocalStorageObject, bind.
  destruct (canUseLocalStorage_returns w) as (b & w1 & E & F & Hle & Hlt).
  rewrite E. cbn [fst]. destruct b.
  - destruct (_getVerifiedStorageObject_returns LocalStorage w1)
      as (r & w2 & E2 & F2 & Hle2 & Hlt2).
    rewrite E2. exists r, true, w2.
    split; [reflexivity |]. split; [reflexivity |].
    split; [congruence |]. split; [lia |]. split; [| discriminate].
    intros H. apply Hlt2.
    destruct (Nat.eq_dec (storageFaults w) (storageFaults w1)) as [Heq | Hne];
      [now rewrite <- Heq |].
    assert (Hw : (storageFaults w < storageFaults w1)%nat) by lia.
    now specialize (Hlt Hw).
  - exists None, false, w1. unfold ret.
    split; [reflexivity |]. split; [reflexivity |].
    split; [exact F |]. split; [exact Hle |]. split; reflexivity.
Qed.

Lemma accessor_contained {A B : Type} (failure : B)
    (method : Storage S -> S -> outcome A * S) (finish : A -> B)
    (body : Storage S -> M B)
    (msgId : _InternalMessageId) (msg : string) (w : World S L) :
  (forall storage w1,
      body storage w1
      = match method storage (localStore w1) with
        | (Done a, s1) => (Return (finish a), with_store LocalStorage s1 w1)
        | (Raised e, s1) =>
            (Throw e, count_fault (with_store LocalStorage s1 w1))
        end) ->
  contained env failure
    (bind (_getLocalStorageObject env) (fun storage =>
       match storage with
       | Some storage =>
           try_catch (body storage)
             (on_storage_failure env msgId msg failure)
       | None => ret failure
       end))
    (fun storage s => exists e s', method storage s = (Raised e, s')) w.
Proof.
  intros Hbody. unfold contained, bind at 1.
  destruct (_getLocalStorageObject_returns w)
    as (r & b & w1 & E & Hb & F & Hle & Hlt & Hfalse).
  rewrite E. destruct r as [storage|].
  - unfold try_catch. rewrite Hbody.
    destruct (method storage (localStore w1)) as [[a|e] s1] eqn:Em.
    + eexists _, _. split; [reflexivity |].
      cbn [with_store storageFaults]. intros H.
      now specialize (Hlt H).
    + unfold on_storage_failure, bind, set_canUseLocalStorage,
        logger_throwInternal, ret.
      eexists _, _. split; [reflexivity |]. intros _. split; [reflexivity |].
      left. exists storage, w1. split; [reflexivity |].
      split; [now exists e, s1 |].
      now apply canUseLocalStorage_cached.
  - unfold ret. exists failure, w1. split; [reflexivity |].
    intros _. split; [reflexivity |]. right. exists b.
    repeat split; auto. now apply canUseLocalStorage_cached.
Qed.

(** C2, as amended: an exception of the storage object never leaves
    [getStorage], [setStorage] or [removeStorage]; the call then returns
    [null] (resp. [false]).  Afterwards [canUseLocalStorage()] answers
    [false] when it was the accessor's own [getItem], [setItem] or
    [removeItem] that threw; when the exception came from the verification
    that precedes it, [canUseLocalStorage()] keeps the answer it gave
    during the call. *)
Theorem storage_exceptions_contained (name data : string) (w : World S L) :
  contained env None (getStorage env name)
    (fun storage s => exists e s', getItem storage name s = (Raised e, s')) w
  /\ contained env false (setStorage env name data)
       (fun storage s =>
          exists e s', setItem storage name data s = (Raised e, s')) w
  /\ contained env false (removeStorage env name)
       (fun storage s =>
          exists e s', removeItem storage name s = (Raised e, s')) w.
Proof.
  split; [| split].
  - apply (accessor_contained None (fun st => getItem st name) id).
    intros storage w1. unfold call. cbn [store_of].
    destruct (getItem storage name (localStore w1)) as [[a|e] s1]; reflexivity.
  - apply (accessor_contained false (fun st => setItem st name data)
             (fun _ => true)).
    intros storage w1. unfold bind, call, ret. cbn [store_of].
    destruct (setItem storage name data (localStore w1)) as [[a|e] s1];
      reflexivity.
  - apply (accessor_contained false (fun st => removeItem st name)
             (fun _ => true)).
    intros storage w1. unfold bind, call, ret. cbn [store_of].
    destruct (removeItem storage name (localStore w1)) as [[a|e] s1];
      reflexivity.
Qed.

End LocalStorage.

(** C2, as stated, fails: the store being full, [setItem] throws during
    [setStorage("b", "2")] (in the verification that precedes the write);
    the call returns [false] without an exception, but
    [canUseLocalStorage()] still answers [true] afterwards. *)
Lemma setStorage_on_full_store_keeps_flag :
  fst (setStorage full_store_env "a" "1" initial_world) = Return true
  /\ fst (setStorage full_store_env "b" "2" full_store_world) = Return false
  /\ (storageFaults full_store_world
      < storageFaults (snd (setStorage full_store_env "b" "2" full_store_world)))%nat
  /\ fst (canUseLocalStorage full_store_env
            (snd (setStorage full_store_env "b" "2" full_store_world)))
     = Return true.
Proof. vm_compute. repeat split; lia. Qed.

(** the other case of [contained]: the accessor's own call throws, and the
    flag goes down *)
Remark getStorage_refused_key_lowers_flag :
  fst (getStorage (sample_env (guarded_storage "k") true (fun _ => "")) "k"
         initial_world) = Return None
  /\ fst (canUseLocalStorage
            (sample_env (guarded_storage "k") true (fun _ => ""))
            (snd (getStorage
                    (sample_env (guarded_storage "k") true (fun _ => "")) "k"
                    initial_world)))
     = Return false.
Proof. vm_compute. split; reflexivity. Qed.

(** ** processPath on the sample build host *)

Lemma processPath_throws_on_mismatch_witness :
  (exists msg,
      processRun sample_files sample_digest ∅
        ([("2.5.10", "./browser/ai.2.5.10.js")]
         ++ ("2.5.10", "./browser/ai.2.5.10.2.5.10.js") :: [])
      = (fst (processRun sample_files sample_digest ∅
                [("2.5.10", "./browser/ai.2.5.10.js")]),
         Some (Error msg)))
  /\ (exists msg,
         processRun sample_files sample_digest ∅
           ([("1.0.0", "./browser/ai.js")]
            ++ ("2.0.0", "./browser/ai.js") :: [])
         = (fst (processRun sample_files sample_digest ∅
                   [("1.0.0", "./browser/ai.js")]),
            Some (Error msg))).
Proof.
  split.
  - apply (processPath_throws_on_mismatch sample_files sample_digest ∅
             [("2.5.10", "./browser/ai.2.5.10.js")] []
             "2.5.10" "./browser/ai.2.5.10.js"
             "2.5.10" "./browser/ai.2.5.10.2.5.10.js"
             "./browser/ai.2.5.10.integrity.json" "var ai=2;").
    + vm_compute. reflexivity.
    + simpl. left. reflexivity.
    + vm_compute. reflexivity.
    + vm_compute. reflexivity.
    + vm_compute. reflexivity.
    + left. vm_compute. discriminate.
  - apply (processPath_throws_on_mismatch sample_files sample_digest ∅
             [("1.0.0", "./browser/ai.js")] []
             "1.0.0" "./browser/ai.js" "2.0.0" "./browser/ai.js"
             "./browser/ai.integrity.json" "var ai=3;").
    + vm_compute. reflexivity.
    + simpl. left. reflexivity.
    + vm_compute. reflexivity.
    + vm_compute. reflexivity.
    + vm_compute. reflexivity.
    + right. vm_compute. discriminate.
Defined.

Lemma processPath_integrity_record_witness :
  exists (module format : string) (record : IntegrityJson)
         (ext : gmap string FileDetails) (details : FileDetails)
         (h1 h2 h3 : string),
    names_module (getFilename "./browser/ai.2.5.10.min.js" "2.5.10")
    = Some module
    /\ names_format (getFilename "./browser/ai.2.5.10.min.js" "2.5.10")
       = Some format
    /\ fst (processRun twin_files sample_digest ∅
              [("2.5.10", "./browser/ai.2.5.10.min.js");
               ("2.5.10", "./browser/ai.2.5.10-min.js")])
       !! "./browser/ai.2.5.10.integrity.json" = Some record
    /\ ij_name record = Some module
    /\ ij_version record = Some "2.5.10"
    /\ ij_ext record = Some ext
    /\ ext !! ("@" +:+ format) = Some details
    /\ fd_hashes details = mkHashes h1 h2 h3
    /\ fd_integrity details
       = "sha256-" +:+ h1 +:+ " sha384-" +:+ h2 +:+ " sha512-" +:+ h3
    /\ exists (before : list (string * string)) (version' inputFile' : string)
              (later : list (string * string)) (source : string),
         [("2.5.10", "./browser/ai.2.5.10.min.js");
          ("2.5.10", "./browser/ai.2.5.10-min.js")]
         = (before ++ (version', inputFile') :: later)%list
         /\ In ("2.5.10", "./browser/ai.2.5.10.min.js")
              (before ++ [(version', inputFile')])%list
         /\ writes_to version' inputFile' "./browser/ai.2.5.10.integrity.json"
              ("@" +:+ format)
         /\ Forall (fun item =>
                      ~ writes_to (fst item) (snd item)
                          "./browser/ai.2.5.10.integrity.json"
                          ("@" +:+ format))
              later
         /\ twin_files inputFile' = Some source
         /\ fd_file details = names_name (getFilename inputFile' version')
         /\ h1 = sample_digest SHA256 source
         /\ h2 = sample_digest SHA384 source
         /\ h3 = sample_digest SHA512 source.
Proof.
  apply (processPath_integrity_record twin_files sample_digest ∅
           [("2.5.10", "./browser/ai.2.5.10.min.js");
            ("2.5.10", "./browser/ai.2.5.10-min.js")]
           "2.5.10" "./browser/ai.2.5.10.min.js"
           "./browser/ai.2.5.10.integrity.json").
  - vm_compute. reflexivity.
  - simpl. left. reflexivity.
  - vm_compute. reflexivity.
Defined.

(** On that build host the two bundles belong to the same integrity file
    and have the same format, the character after the version being
    passed over: at the end of the run the details under ["@min.js"] are
    those of the second bundle, whose text they digest. *)
Remark details_of_the_later_twin :
  writes_to "2.5.10" "./browser/ai.2.5.10.min.js"
    "./browser/ai.2.5.10.integrity.json" "@min.js"
  /\ writes_to "2.5.10" "./browser/ai.2.5.10-min.js"
       "./browser/ai.2.5.10.integrity.json" "@min.js"
  /\ holds "./browser/ai.2.5.10.integrity.json" "@min.js"
       (file_details sample_digest "ai.2.5.10-min.js" "var ai=2;")
       (fst (processRun twin_files sample_digest ∅
               [("2.5.10", "./browser/ai.2.5.10.min.js");
                ("2.5.10", "./browser/ai.2.5.10-min.js")])).
Proof.
  split; [split; vm_compute; reflexivity |].
  split; [split; vm_compute; reflexivity |].
  eexists _, _. split; [vm_compute; reflexivity |].
  split; vm_compute; reflexivity.
Qed.

(** ** CorrelationIdHelper.canIncludeCorrelationHeader *)

(** [new RegExp] on these patterns never throws *)
Lemma new_RegExp_outcomes (pattern : string) :
  (exists r, new_RegExp pattern = Return r) \/ new_RegExp pattern = Beyond.
Proof.
  assert (H : forall n p, (String.length p <= n)%nat ->
                (exists r, new_RegExp p = Return r) \/ new_RegExp p = Beyond).
  { induction n as [|n IH]; intros p Hp.
    - destruct p; [simpl; eauto | simpl in Hp; lia].
    - destruct p as [|a p]; [simpl; eauto |].
      simpl in Hp. cbn [new_RegExp].
      destruct (is_meta a); [now right |].
      assert (Hseq : forall q x, (String.length q <= n)%nat ->
                (exists r, bindC (new_RegExp q)
                             (fun r => Return (Seq x r)) = Return r)
                \/ bindC (new_RegExp q) (fun r => Return (Seq x r)) = Beyond).
      { intros q x Hq. destruct (IH q Hq) as [[r ->] | ->]; simpl; eauto. }
      destruct p as [|c p']; [apply Hseq; simpl; lia |].
      destruct c as [[] [] [] [] [] [] [] []];
        apply Hseq; simpl in *; lia. }
  now apply (H (String.length pattern)).
Qed.

Lemma matchExists_outcomes (includedDomains : list string)
    (requestHost : string) :
  forall matchExists,
    let r := arrForEach includedDomains (fun domain matchExists =>
               bindC (domain_regex domain) (fun regex =>
                 Return (matchExists || test regex requestHost)))
               matchExists in
    (exists b, r = Return b) \/ r = Beyond.
Proof.
  induction includedDomains as [|d ds IH]; intros b; simpl; [eauto |].
  unfold domain_regex.
  destruct (new_RegExp_outcomes (domain_pattern d)) as [[r ->] | ->];
    simpl; [apply IH | now right].
Qed.

Lemma excluded_hit_outcomes (excludedDomains : list string)
    (requestHost : string) :
  (exists b, excluded_hit excludedDomains requestHost = Return b)
  \/ excluded_hit excludedDomains requestHost = Beyond.
Proof.
  induction excludedDomains as [|d ds IH]; simpl; [eauto |].
  unfold domain_regex.
  destruct (new_RegExp_outcomes (domain_pattern d)) as [[r ->] | ->];
    simpl; [| now right].
  destruct (test r requestHost); [eauto | exact IH].
Qed.

(** What [canIncludeCorrelationHeader] can end with: a boolean, the empty
    string, a [TypeError], or a pattern outside the fragment. *)
Lemma after_parseUrl_outcomes (config : option ICorrelationConfig)
    (requestUrl : string) (currentHost host : option string) :
  let r := after_parseUrl config requestUrl currentHost host in
  (exists b, r = Return (VBool b)) \/ r = Return (VString "")
  \/ r = Throw TypeError \/ r = Beyond.
Proof.
  cbv zeta. unfold after_parseUrl.
  destruct host as [host|]; cbn [bindC]; [| tauto].
  match goal with
  | |- context [bool_decide (Some ?h = _)] => generalize h
  end.
  intros requestHost.
  destruct (negb _ && negb _); [left; now exists false |].
  destruct (config ≫= correlationHeaderDomains) as [ds|].
  - destruct (matchExists_outcomes ds requestHost false)
      as [[[] ->] | ->]; cbn [bindC negb]; try tauto;
      [| left; now exists false].
    destruct (config ≫= correlationHeaderExcludedDomains) as [[|d xs]|];
      try (left; now exists true).
    destruct (excluded_hit_outcomes (d :: xs) requestHost) as [[[] ->] | ->];
      cbn [bindC]; try tauto; [left; now exists false |].
    unfold truthy. destruct (String.eqb_spec requestHost "") as [-> | _];
      cbn [negb]; [tauto | left; eauto].
  - cbn [bindC negb].
    destruct (config ≫= correlationHeaderExcludedDomains) as [[|d xs]|];
      try (left; now exists true).
    destruct (excluded_hit_outcomes (d :: xs) requestHost) as [[[] ->] | ->];
      cbn [bindC]; try tauto; [left; now exists false |].
    unfold truthy. destruct (String.eqb_spec requestHost "") as [-> | _];
      cbn [negb]; [tauto | left; eauto].
Qed.

Lemma canIncludeCorrelationHeader_outcomes {S L : Type} (env : Env S L)
    (config : option ICorrelationConfig) (requestUrl : string)
    (currentHost : option string) (w : World S L) :
  let r := fst (canIncludeCorrelationHeader env config requestUrl currentHost w) in
  (exists b, r = Return (VBool b)) \/ r = Return (VString "")
  \/ r = Throw TypeError \/ r = Beyond.
Proof.
  cbv zeta. unfold canIncludeCorrelationHeader.
  destruct (negb (truthy requestUrl) || _); [left; now exists false |].
  destruct (existsb _ _); [left; now exists false |].
  unfold bind, parseUrl, set_anchors, ret, liftC.
  destruct (negb (hasCreateElement env)); cbn [fst a_host];
    apply after_parseUrl_outcomes.
Qed.

(** C1 fails on the code in two ways.  Without [document.createElement],
    a relative URL has no host to parse, the stand-in anchor has a [null]
    host and [toLowerCase] throws; and when the host of the request is
    empty and some domains are excluded, the last [return] hands back the
    empty host itself instead of [false]. *)
Theorem canIncludeCorrelationHeader_not_always_boolean :
  fst (canIncludeCorrelationHeader worker_env None "/api/data"
         (Some "localhost") initial_world)
  = Throw TypeError
  /\ fst (canIncludeCorrelationHeader file_page_env
            (Some no_headers_to_example_com) "data.json" (Some "")
            initial_world)
     = Return (VString "").
Proof. split; vm_compute; reflexivity. Qed.

(** C4 fails on the code: the dot of a domain is left as the wildcard of
    the regular expression, so ["*.example.com"] lets the host
    ["evilexample.com"] through although, with the dot taken literally, no
    domain of the list matches it. *)
Theorem canIncludeCorrelationHeader_dot_is_wildcard :
  fst (canIncludeCorrelationHeader worker_env (Some cors_to_example_com)
         "https://evilexample.com/api" (Some "app.example.org") initial_world)
  = Return (VBool true)
  /\ existsb (fun domain => glob_matches domain "evilexample.com")
       ["*.example.com"] = false
  /\ glob_matches "*.example.com" "api.example.com" = true
  /\ domain_pattern "*.example.com" = ".*.example.com".
Proof. repeat split; vm_compute; reflexivity. Qed.

(** * Further properties *)

(** ** UrlHelper.parseFullHost and UrlHelper.parseHost *)

Lemma exec_sound (r : regex) (s : string) :
  forall m c,
    exec r s = Some (m, c) ->
    exists pre rest s',
      s = pre +:+ rest /\ matches r rest no_captures s' c.
Proof.
  induction s as [|a s IH]; intros m c; simpl.
  - destruct (match_here r "") as [[m' c']|] eqn:E; [| discriminate].
    intros [= _ ->]. unfold match_here in E.
    apply matchk_sound in E as (s' & c1 & M & [= _ ->]).
    now exists "", "", s'.
  - destruct (match_here r (String a s)) as [[m' c']|] eqn:E.
    + intros [= _ ->]. unfold match_here in E.
      apply matchk_sound in E as (s' & c1 & M & [= _ ->]).
      now exists "", (String a s), s'.
    + intros H. apply IH in H as (pre & rest & s' & -> & M).
      now exists (String a pre), rest, s'.
Qed.

Lemma is_ci_colon (a : ascii) : is_ci ":" a = true -> a = ":"%char.
Proof.
  destruct a as [[] [] [] [] [] [] [] []]; vm_compute; congruence.
Qed.

Lemma is_ci_slash (a : ascii) : is_ci "/" a = true -> a = "/"%char.
Proof.
  destruct a as [[] [] [] [] [] [] [] []]; vm_compute; congruence.
Qed.

Lemma fullHost_re_scheme (rest s' : string) (c : captures) :
  matches fullHost_re rest no_captures s' c -> contains rest "://".
Proof.
  cbn [fullHost_re seqs matches text_ci]. intros M. destruct_matches. subst.
  repeat match goal with
         | H : is_ci ":" _ = true |- _ => apply is_ci_colon in H; subst
         | H : is_ci "/" _ = true |- _ => apply is_ci_slash in H; subst
         end.
  eexists _, _. reflexivity.
Qed.

Lemma parseHost_scheme_lemma (url : string) (inclPort : bool) :
  ~ contains url "://" ->
  parseFullHost url inclPort = None /\ parseHost url inclPort = None.
Proof.
  intros Hno.
  assert (H : parseFullHost url inclPort = None).
  { unfold parseFullHost. destruct (truthy url); [| reflexivity].
    destruct (exec fullHost_re url) as [[m c]|] eqn:E; [| reflexivity].
    exfalso. apply Hno.
    apply exec_sound in E as (pre & rest & s' & -> & M).
    apply fullHost_re_scheme in M as (p & q & ->).
    exists (pre +:+ p), q. now rewrite append_assoc. }
  split; [exact H |]. unfold parseHost. now rewrite H.
Qed.

(** X1: a URL in which ["://"] does not occur has no host:
    [parseFullHost] and [parseHost] both answer [null], with or without
    the port. *)
Theorem parseHost_needs_scheme (url : string) (inclPort : bool) :
  ~ contains url "://" ->
  parseFullHost url inclPort = None /\ parseHost url inclPort = None.
Proof. apply parseHost_scheme_lemma. Qed.

Lemma parseHost_needs_scheme_witness :
  parseFullHost "/api/data?id=1" true = None
  /\ parseHost "/api/data?id=1" true = None.
Proof.
  apply parseHost_needs_scheme.
  apply indexOf_found_not. vm_compute. reflexivity.
Defined.

(** ** CorrelationIdHelper.canIncludeCorrelationHeader, continued *)

Lemma canIncludeCorrelationHeader_result {S L : Type} (env : Env S L)
    (config : option ICorrelationConfig) (requestUrl : string)
    (currentHost : option string) (w : World S L) :
  fst (canIncludeCorrelationHeader env config requestUrl currentHost w)
  = if switched_off config requestUrl then Return (VBool false)
    else after_parseUrl config requestUrl currentHost
           (anchor_host env requestUrl).
Proof.
  unfold canIncludeCorrelationHeader, switched_off, anchor_host.
  destruct (negb (truthy requestUrl) || _); [reflexivity |].
  cbn [orb]. destruct (existsb _ _); [reflexivity |].
  unfold bind, parseUrl, set_anchors, ret, liftC.
  destruct (hasCreateElement env); reflexivity.
Qed.

(** X2: where [document.createElement] is missing, every request URL
    without ["://"] that is not turned away beforehand makes
    [canIncludeCorrelationHeader] throw a [TypeError]: the stand-in anchor
    has a [null] host. *)
Theorem canIncludeCorrelationHeader_throws_without_host {S L : Type}
    (env : Env S L) (config : option ICorrelationConfig)
    (requestUrl : string) (currentHost : option string) (w : World S L) :
  hasCreateElement env = false ->
  switched_off config requestUrl = false ->
  ~ contains requestUrl "://" ->
  fst (canIncludeCorrelationHeader env config requestUrl currentHost w)
  = Throw TypeError.
Proof.
  intros Hdoc Hon Hno.
  rewrite canIncludeCorrelationHeader_result, Hon.
  unfold anchor_host. rewrite Hdoc.
  destruct (parseHost_scheme_lemma requestUrl true Hno) as [_ ->].
  reflexivity.
Qed.

Lemma canIncludeCorrelationHeader_throws_without_host_witness :
  fst (canIncludeCorrelationHeader worker_env (Some cors_to_example_com)
         "api/items?page=2" (Some "localhost") initial_world)
  = Throw TypeError.
Proof.
  apply canIncludeCorrelationHeader_throws_without_host.
  - reflexivity.
  - vm_compute. reflexivity.
  - apply indexOf_found_not. vm_compute. reflexivity.
Defined.

(** ** The matcher, forwards *)

Lemma rep_greedy_max {X : Type} (p : ascii -> bool) (lo : nat) (t s' : string)
    (k : string -> option X) (x : X) :
  forall n,
    all_chars p t = true -> stops p s' ->
    (lo <= n + String.length t)%nat -> k s' = Some x ->
    rep_greedy p lo None n (t +:+ s') k = Some x.
Proof.
  induction t as [|a t IH]; intros n Hall Hstop Hlo Hk.
  - rewrite append_empty. simpl in Hlo.
    destruct s' as [|b s'']; simpl.
    + destruct (Nat.leb_spec lo n); [exact Hk | lia].
    + simpl in Hstop. rewrite Hstop. simpl.
      destruct (Nat.leb_spec lo n); [exact Hk | lia].
  - rewrite append_cons. simpl in Hall, Hlo |- *.
    apply andb_true_iff in Hall as [Ha Hall]. rewrite Ha. simpl.
    rewrite (IH (S n)); auto. lia.
Qed.

Lemma exec_here (r : regex) (s : string) (m : string * captures) :
  match_here r s = Some m -> exec r s = Some m.
Proof. intros H. destruct s; simpl; now rewrite H. Qed.

Lemma text3 (a b c : ascii) (s : string) :
  String a (String b (String c "")) +:+ s = String a (String b (String c s)).
Proof. reflexivity. Qed.

(** the match of [parseFullHost] on a URL made of a scheme, ["://"], a
    host and a tail *)
Lemma fullHost_re_exec (scheme hrest tail : string) (h0 : ascii)
    (port : option string) :
  all_chars is_word scheme = true ->
  is_dot h0 = true -> hrest <> "" -> all_chars not_slash_colon hrest = true ->
  url_tail port tail ->
  exists m c,
    exec fullHost_re (scheme +:+ "://" +:+ String h0 hrest +:+ tail)
    = Some (m, c)
    /\ c 1%nat = Some scheme
    /\ c 2%nat = Some (String h0 hrest)
    /\ c 3%nat = option_map (String ":") port.
Proof.
  intros Hscheme Hh0 Hne Hhost Htail.
  assert (Hlen : (1 <= String.length hrest)%nat)
    by (destruct hrest; [congruence | simpl; lia]).
  assert (Hgo : forall (X : Type) (k : string -> captures -> option X) x,
             k tail (set_capture 2 (String h0 hrest)
                       (set_capture 1 scheme no_captures)) = Some x ->
             matchk (seqs [Grp 1 (Rep is_word 0 None); text_ci "://";
                           Grp 2 (Seq (Chr is_dot)
                                      (Rep not_slash_colon 1 None))])
               (scheme +:+ "://" +:+ String h0 hrest +:+ tail) no_captures k
             = Some x).
  { intros X k x Hk. cbn [seqs matchk text_ci].
    apply rep_greedy_max; [exact Hscheme | reflexivity | lia |].
    rewrite consumed_app, text3. cbn [is_ci].
    cbn -[consumed set_capture rep_greedy].
    rewrite append_cons, Hh0.
    apply rep_greedy_max; [exact Hhost | | lia |].
    - destruct Htail; simpl; auto.
    - rewrite <- append_cons, consumed_app. exact Hk. }
  destruct Htail as [|path|digits rest Hd Hall Hstop].
  - eexists _, _. split.
    + apply exec_here. unfold match_here, fullHost_re.
      refine (Hgo _ (fun s' c' =>
                matchk (Opt (Grp 3 (Seq (Chr (lit ":"))
                                        (Rep is_digit 1 None)))) s' c' _) _ _). cbn [matchk]. reflexivity.
    + repeat split.
  - eexists _, _. split.
    + apply exec_here. unfold match_here, fullHost_re.
      refine (Hgo _ (fun s' c' =>
                matchk (Opt (Grp 3 (Seq (Chr (lit ":"))
                                        (Rep is_digit 1 None)))) s' c' _) _ _). cbn [matchk lit Ascii.eqb Bool.eqb].
      reflexivity.
    + repeat split.
  - eexists _, _. split.
    + apply exec_here. unfold match_here, fullHost_re.
      refine (Hgo _ (fun s' c' =>
                matchk (Opt (Grp 3 (Seq (Chr (lit ":"))
                                        (Rep is_digit 1 None)))) s' c' _) _ _). cbn [matchk lit Ascii.eqb Bool.eqb].
      erewrite rep_greedy_max;
        [reflexivity | exact Hall | exact Hstop | | reflexivity].
      destruct digits; [congruence | simpl; lia].
    + cbn [set_capture Nat.eqb option_map].
      rewrite <- append_cons, consumed_app. repeat split.
Qed.

(** X3: on a URL made of a scheme of word characters, ["://"], a host of
    two characters or more without slash or colon, and then nothing, a
    path, or a port, [parseFullHost] answers the host; with [inclPort] it
    adds the port back unless this is the default port of the protocol
    (80 for http, 443 for https, whatever the case of the scheme). *)
Theorem parseFullHost_host_and_port (scheme hrest tail : string) (h0 : ascii)
    (port : option string) (inclPort : bool) :
  all_chars is_word scheme = true ->
  is_dot h0 = true -> hrest <> "" -> all_chars not_slash_colon hrest = true ->
  url_tail port tail ->
  parseFullHost (scheme +:+ "://" +:+ String h0 hrest +:+ tail) inclPort
  = Some (String h0 hrest
          +:+ (if inclPort then kept_port scheme port else "")).
Proof.
  intros Hscheme Hh0 Hne Hhost Htail.
  destruct (fullHost_re_exec scheme hrest tail h0 port Hscheme Hh0 Hne Hhost
              Htail) as (m & c & E & C1 & C2 & C3).
  unfold parseFullHost. rewrite E, C1, C2, C3.
  assert (Ht : truthy (scheme +:+ "://" +:+ String h0 hrest +:+ tail) = true)
    by (apply truthy_append_r; reflexivity).
  rewrite Ht.
  assert (Hl : (0 <? len (String h0 hrest)) = true)
    by (apply Z.ltb_lt; unfold len; simpl; lia).
  rewrite Hl. destruct inclPort; [| now rewrite append_nil_r'].
  cbn [or_empty default from_option id]. f_equal. f_equal.
  destruct port as [digits|]; cbn [option_map kept_port from_option id].
  - replace (String ":" digits =? ":80")%string
      with (digits =? "80")%string by reflexivity.
    replace (String ":" digits =? ":443")%string
      with (digits =? "443")%string by reflexivity.
    reflexivity.
  - now rewrite !andb_false_r.
Qed.

Lemma parseFullHost_host_and_port_witness :
  parseFullHost ("HTTPS" +:+ "://" +:+ String "e" "xample.com"
                 +:+ String ":" ("443" +:+ "/api")) true
  = Some (String "e" "xample.com" +:+ kept_port "HTTPS" (Some "443"))
  /\ parseFullHost ("http" +:+ "://" +:+ String "e" "xample.com"
                    +:+ String ":" ("8080" +:+ "")) true
     = Some (String "e" "xample.com" +:+ kept_port "http" (Some "8080")).
Proof.
  split.
  - apply (parseFullHost_host_and_port "HTTPS" "xample.com"
             (String ":" ("443" +:+ "/api")) "e" (Some "443") true);
      [reflexivity | reflexivity | discriminate | reflexivity |].
    apply tail_port; [discriminate | reflexivity | reflexivity].
  - apply (parseFullHost_host_and_port "http" "xample.com"
             (String ":" ("8080" +:+ "")) "e" (Some "8080") true);
      [reflexivity | reflexivity | discriminate | reflexivity |].
    apply tail_port; [discriminate | reflexivity | exact I].
Defined.

Lemma after_parseUrl_host (config : option ICorrelationConfig)
    (requestUrl host : string) (currentHost : option string) :
  after_parseUrl config requestUrl currentHost (Some host) =
  let requestHost := request_host host requestUrl in
  if negb (from_option enableCorsCorrelation false config)
     && negb (bool_decide (Some requestHost = currentHost))
  then Return (VBool false)
  else
    bindC (match config ≫= correlationHeaderDomains with
           | Some includedDomains =>
               arrForEach includedDomains (fun domain matchExists =>
                 bindC (domain_regex domain) (fun regex =>
                   Return (matchExists || test regex requestHost)))
                 false
           | None => Return true
           end) (fun matchExists =>
    if negb matchExists then Return (VBool false)
    else
      match config ≫= correlationHeaderExcludedDomains with
      | None | Some [] => Return (VBool true)
      | Some excludedDomains =>
          bindC (excluded_hit excludedDomains requestHost) (fun hit =>
          if hit then Return (VBool false)
          else Return (if truthy requestHost
                       then VBool (0 <? len requestHost)
                       else VString requestHost))
      end).
Proof. reflexivity. Qed.

(** X4: unless [enableCorsCorrelation] is set, a request whose host is
    not [currentHost] never gets the headers, whatever the domain lists
    say. *)
Theorem canIncludeCorrelationHeader_same_origin_only {S L : Type}
    (env : Env S L) (config : option ICorrelationConfig)
    (requestUrl host : string) (currentHost : option string)
    (w : World S L) :
  from_option enableCorsCorrelation false config = false ->
  anchor_host env requestUrl = Some host ->
  Some (request_host host requestUrl) <> currentHost ->
  fst (canIncludeCorrelationHeader env config requestUrl currentHost w)
  = Return (VBool false).
Proof.
  intros Hcors Hhost Hne.
  rewrite canIncludeCorrelationHeader_result, Hhost.
  destruct (switched_off config requestUrl); [reflexivity |].
  rewrite after_parseUrl_host. cbv zeta. rewrite Hcors.
  rewrite bool_decide_eq_false_2 by exact Hne. reflexivity.
Qed.

Lemma canIncludeCorrelationHeader_same_origin_only_witness :
  fst (canIncludeCorrelationHeader worker_env
         (Some (mkCorrelationConfig false None None false
                  (Some ["*.example.com"])))
         "https://api.example.com/items" (Some "app.example.com")
         initial_world)
  = Return (VBool false).
Proof.
  apply (canIncludeCorrelationHeader_same_origin_only worker_env _ _
           "api.example.com").
  - reflexivity.
  - vm_compute. reflexivity.
  - vm_compute. discriminate.
Defined.

(** X5: without any configuration the headers go to the page's own host
    and to no other: for a non-empty URL the answer is [true] exactly when
    the request host is [currentHost]. *)
Theorem canIncludeCorrelationHeader_no_config {S L : Type}
    (env : Env S L) (requestUrl host : string) (currentHost : option string)
    (w : World S L) :
  requestUrl <> "" ->
  anchor_host env requestUrl = Some host ->
  fst (canIncludeCorrelationHeader env None requestUrl currentHost w)
  = Return (VBool (bool_decide
                     (Some (request_host host requestUrl) = currentHost))).
Proof.
  intros Hurl Hhost.
  rewrite canIncludeCorrelationHeader_result, Hhost.
  unfold switched_off, truthy.
  destruct (String.eqb_spec requestUrl "") as [? | _]; [contradiction |].
  cbn [negb orb from_option mbind option_bind default id existsb].
  rewrite after_parseUrl_host. cbv zeta.
  cbn [from_option negb andb mbind option_bind].
  destruct (bool_decide _); reflexivity.
Qed.

Lemma canIncludeCorrelationHeader_no_config_witness :
  fst (canIncludeCorrelationHeader worker_env None
         "https://App.Example.com:443/items" (Some "app.example.com")
         initial_world)
  = Return (VBool (bool_decide
                     (Some (request_host "App.Example.com"
                              "https://App.Example.com:443/items")
                      = Some "app.example.com"))).
Proof.
  apply canIncludeCorrelationHeader_no_config.
  - discriminate.
  - vm_compute. reflexivity.
Defined.

(** Lower-casing reaches the capitals of the Latin-1 range too, the
    multiplication sign and the sharp s apart, so a host written with
    such a capital equals a current host written in lower case. *)
Example toLowerCase_latin1 :
  toLowerCase (String (ascii_of_nat 201) ".COM")
  = String (ascii_of_nat 233) ".com"
  /\ toLowerCase (String (ascii_of_nat 215) (String (ascii_of_nat 223) ""))
     = String (ascii_of_nat 215) (String (ascii_of_nat 223) "").
Proof. split; reflexivity. Qed.

Example canIncludeCorrelationHeader_latin1_host :
  fst (canIncludeCorrelationHeader
         (sample_env (bounded_storage 1) true
            (fun _ => String (ascii_of_nat 201) ".com"))
         None "http://host/" (Some (String (ascii_of_nat 233) ".com"))
         initial_world)
  = Return (VBool true).
Proof. vm_compute. reflexivity. Qed.

(** X6: an include list that is present but empty lets no request
    through. *)
Theorem canIncludeCorrelationHeader_empty_include_list {S L : Type}
    (env : Env S L) (config : ICorrelationConfig)
    (requestUrl host : string) (currentHost : option string)
    (w : World S L) :
  correlationHeaderDomains config = Some [] ->
  anchor_host env requestUrl = Some host ->
  fst (canIncludeCorrelationHeader env (Some config) requestUrl currentHost w)
  = Return (VBool false).
Proof.
  intros Hempty Hhost.
  rewrite canIncludeCorrelationHeader_result, Hhost.
  destruct (switched_off (Some config) requestUrl); [reflexivity |].
  rewrite after_parseUrl_host. cbv zeta.
  destruct (negb _ && negb _); [reflexivity |].
  cbn [mbind option_bind]. rewrite Hempty. reflexivity.
Qed.

Lemma canIncludeCorrelationHeader_empty_include_list_witness :
  fst (canIncludeCorrelationHeader worker_env
         (Some (mkCorrelationConfig true None None false (Some [])))
         "https://app.example.com/items" (Some "app.example.com")
         initial_world)
  = Return (VBool false).
Proof.
  apply (canIncludeCorrelationHeader_empty_include_list worker_env _ _
           "app.example.com").
  - reflexivity.
  - vm_compute. reflexivity.
Defined.

Lemma excluded_hit_not_false (excludedDomains : list string)
    (requestHost domain : string) (regex : regex) :
  In domain excludedDomains ->
  domain_regex domain = Return regex -> test regex requestHost = true ->
  excluded_hit excludedDomains requestHost <> Return false.
Proof.
  intros Hin Hre Ht.
  induction excludedDomains as [|d ds IH]; simpl in *; [tauto |].
  destruct Hin as [-> | Hin].
  - rewrite Hre. simpl. now rewrite Ht.
  - destruct (domain_regex d) as [r| |]; simpl; try discriminate.
    destruct (test r requestHost); [discriminate | now apply IH].
Qed.

(** X7: exclusion wins.  When the pattern made from one of the
    [correlationHeaderExcludedDomains] matches the request host, the
    answer is never [true], whatever the include list and the other
    settings are. *)
Theorem canIncludeCorrelationHeader_excluded_domain_wins {S L : Type}
    (env : Env S L) (config : ICorrelationConfig)
    (requestUrl host domain : string) (excludedDomains : list string)
    (regex : regex) (currentHost : option string) (w : World S L) :
  correlationHeaderExcludedDomains config = Some excludedDomains ->
  In domain excludedDomains ->
  domain_regex domain = Return regex ->
  anchor_host env requestUrl = Some host ->
  test regex (request_host host requestUrl) = true ->
  fst (canIncludeCorrelationHeader env (Some config) requestUrl currentHost w)
  <> Return (VBool true).
Proof.
  intros Hex Hin Hre Hhost Ht.
  rewrite canIncludeCorrelationHeader_result, Hhost.
  destruct (switched_off (Some config) requestUrl); [discriminate |].
  rewrite after_parseUrl_host. cbv zeta.
  destruct (negb _ && negb _); [discriminate |].
  pose proof (excluded_hit_not_false _ _ _ _ Hin Hre Ht) as Hhit.
  cbn [mbind option_bind]. rewrite Hex.
  destruct (match correlationHeaderDomains config with
            | Some d => _ | None => _ end) as [[]| |];
    cbn [bindC negb]; try discriminate.
  destruct excludedDomains as [|d ds]; [destruct Hin |].
  destruct (excluded_hit (d :: ds) (request_host host requestUrl))
    as [[]| |]; cbn [bindC]; try discriminate.
  now contradiction Hhit.
Qed.

Lemma canIncludeCorrelationHeader_excluded_domain_wins_witness :
  fst (canIncludeCorrelationHeader worker_env
         (Some (mkCorrelationConfig true (Some ["cdn.example.com"; "*.internal"])
                  None false (Some ["*.example.com"])))
         "https://cdn.example.com/lib.js" (Some "app.example.com")
         initial_world)
  <> Return (VBool true).
Proof.
  destruct (domain_regex "cdn.example.com") as [r| |] eqn:E;
    [| vm_compute in E; discriminate | vm_compute in E; discriminate].
  apply (canIncludeCorrelationHeader_excluded_domain_wins worker_env _ _
           "cdn.example.com" "cdn.example.com"
           ["cdn.example.com"; "*.internal"] r).
  - reflexivity.
  - simpl. left. reflexivity.
  - exact E.
  - vm_compute. reflexivity.
  - vm_compute in E. injection E as <-. vm_compute. reflexivity.
Defined.

(** ** The patterns made from domains *)

Lemma exec_complete (r : regex) (pre rest : string) (m : string * captures) :
  match_here r rest = Some m -> exists m', exec r (pre +:+ rest) = Some m'.
Proof.
  intros H. induction pre as [|a pre IH].
  - rewrite append_empty. exists m. now apply exec_here.
  - rewrite append_cons. simpl.
    destruct (match_here r (String a (pre +:+ rest))); eauto.
Qed.

(** [test] answers [true] exactly when some piece of the input is matched *)
Lemma test_spec (r : regex) (s : string) :
  unbounded r = true ->
  (test r s = true <->
   exists pre rest s' c, s = pre +:+ rest /\ matches r rest no_captures s' c).
Proof.
  intros Hu. unfold test. split.
  - destruct (exec r s) as [[m c]|] eqn:E; [| discriminate].
    intros _. apply exec_sound in E as (pre & rest & s' & -> & M).
    now exists pre, rest, s', c.
  - intros (pre & rest & s' & c & -> & M).
    destruct (matchk_complete r Hu rest no_captures s' c
                (fun s'0 c0 => Some (consumed rest s'0, c0)) _ M eq_refl)
      as [y Hy].
    destruct (exec_complete r pre rest y Hy) as [m' ->]. reflexivity.
Qed.

Lemma replace_all_dot_by_dot (s : string) : replace_all "." "." s = s.
Proof.
  induction s as [|a s IH]; simpl; [reflexivity |].
  destruct (Ascii.eqb_spec a ".") as [-> | _]; now rewrite IH.
Qed.

Lemma new_RegExp_cons (a : ascii) (rest : string) :
  new_RegExp (String a rest) =
  if is_meta a then Beyond
  else
    let atom := if Ascii.eqb a "." then is_dot else lit a in
    match rest with
    | String b rest' =>
        if Ascii.eqb b "*"
        then bindC (new_RegExp rest') (fun r => Return (Seq (Rep atom 0 None) r))
        else bindC (new_RegExp rest) (fun r => Return (Seq (Chr atom) r))
    | EmptyString => bindC (new_RegExp rest) (fun r => Return (Seq (Chr atom) r))
    end.
Proof.
  cbn [new_RegExp]. destruct (is_meta a); [reflexivity |].
  destruct rest as [|b rest']; [reflexivity |].
  destruct b as [[] [] [] [] [] [] [] []]; reflexivity.
Qed.

Lemma replace_star_head (s : string) :
  match replace_all "*" ".*" s with
  | String b _ => Ascii.eqb b "*" = false
  | EmptyString => True
  end.
Proof.
  destruct s as [|a s]; simpl; [exact I |].
  destruct (Ascii.eqb_spec a "*") as [-> | Hne]; [reflexivity |].
  now apply Ascii.eqb_neq.
Qed.

Lemma new_RegExp_domain (d : string) :
  plain_domain d = true ->
  new_RegExp (replace_all "*" ".*" d) = Return (regex_of d).
Proof.
  unfold plain_domain. induction d as [|a d IH]; [reflexivity |].
  cbn [all_chars replace_all regex_of]. intros H.
  apply andb_true_iff in H as [Ha Hd]. specialize (IH Hd).
  destruct (Ascii.eqb_spec a "*") as [-> | Hstar].
  - change (".*" +:+ replace_all "*" ".*" d)
      with (String "." (String "*" (replace_all "*" ".*" d))).
    rewrite new_RegExp_cons. cbn -[new_RegExp replace_all regex_of].
    now rewrite IH.
  - rewrite orb_false_r in Ha. apply negb_true_iff in Ha.
    rewrite new_RegExp_cons, Ha. cbv zeta.
    pose proof (replace_star_head d) as Hh.
    destruct (replace_all "*" ".*" d) as [|b R].
    + rewrite IH. destruct (Ascii.eqb a "."); reflexivity.
    + rewrite Hh, IH. destruct (Ascii.eqb a "."); reflexivity.
Qed.

Lemma regex_of_unbounded (d : string) : unbounded (regex_of d) = true.
Proof.
  induction d as [|a d IH]; [reflexivity |]. cbn [regex_of unbounded].
  rewrite IH. destruct (Ascii.eqb a "*"); [reflexivity |].
  destruct (Ascii.eqb a "."); reflexivity.
Qed.

Lemma regex_of_matches (d : string) :
  forall s c s' c',
    matches (regex_of d) s c s' c' <->
    c' = c /\ exists t, s = t +:+ s' /\ pattern_text d t.
Proof.
  induction d as [|a d IH]; intros s c s' c'; cbn [regex_of matches pattern_text].
  - split.
    + intros [-> ->]. split; [reflexivity | now exists ""].
    + intros [-> (t & -> & ->)]. now split.
  - destruct (Ascii.eqb a "*"); [| destruct (Ascii.eqb a ".")];
      cbn [matches]; split.
    + intros (s1 & c1 & (u & -> & _ & Hall & ->) & M).
      apply IH in M as [-> (v & -> & Hv)].
      split; [reflexivity |]. exists (u +:+ v).
      rewrite append_assoc. split; [reflexivity | eauto].
    + intros [-> (t & -> & u & v & -> & Hall & Hv)].
      exists (v +:+ s'), c. split.
      * exists u. rewrite append_assoc. repeat split; auto. lia.
      * apply IH. split; [reflexivity | eauto].
    + intros (s1 & c1 & (b & -> & Hb & ->) & M).
      apply IH in M as [-> (v & -> & Hv)].
      split; [reflexivity |]. exists (String b v).
      rewrite append_cons. split; [reflexivity | eauto].
    + intros [-> (t & -> & b & v & -> & Hb & Hv)].
      exists (v +:+ s'), c. rewrite append_cons. split.
      * now exists b.
      * apply IH. split; [reflexivity | eauto].
    + intros (s1 & c1 & (b & -> & Hb & ->) & M).
      apply IH in M as [-> (v & -> & Hv)].
      unfold lit in Hb. apply Ascii.eqb_eq in Hb as ->.
      split; [reflexivity |]. exists (String a v).
      rewrite append_cons. split; [reflexivity | eauto].
    + intros [-> (t & -> & v & -> & Hv)].
      exists (v +:+ s'), c. rewrite append_cons. split.
      * exists a. unfold lit. now rewrite Ascii.eqb_refl.
      * apply IH. split; [reflexivity | eauto].
Qed.

(** X8: what a domain of the include or exclude list matches.  For a
    domain made of ordinary characters, dots and stars, the pattern built
    from it is found in a host exactly when some piece of the host,
    anywhere in it, reads as the lower-case domain with every star
    replaced by any run of characters and every dot by any one character:
    the match is not anchored and the dot is a wildcard. *)
Theorem domain_regex_matches_anywhere (domain host : string) :
  plain_domain (toLowerCase domain) = true ->
  exists regex,
    domain_regex domain = Return regex
    /\ (test regex host = true <->
        exists pre t post,
          host = pre +:+ t +:+ post
          /\ pattern_text (toLowerCase domain) t).
Proof.
  intros Hplain. exists (regex_of (toLowerCase domain)). split.
  - unfold domain_regex, domain_pattern.
    rewrite replace_all_dot_by_dot. now apply new_RegExp_domain.
  - rewrite test_spec by apply regex_of_unbounded. split.
    + intros (pre & rest & s' & c & -> & M).
      apply regex_of_matches in M as [_ (t & -> & Ht)].
      now exists pre, t, s'.
    + intros (pre & t & post & -> & Ht).
      exists pre, (t +:+ post), post, no_captures. split; [reflexivity |].
      apply regex_of_matches. split; [reflexivity | eauto].
Qed.

Lemma domain_regex_matches_anywhere_witness :
  exists regex,
    domain_regex "Example.com" = Return regex
    /\ (test regex "notexample-com.evil.org" = true <->
        exists pre t post,
          "notexample-com.evil.org" = pre +:+ t +:+ post
          /\ pattern_text (toLowerCase "Example.com") t).
Proof.
  apply domain_regex_matches_anywhere. vm_compute. reflexivity.
Defined.

(** ** CorrelationIdHelper.getCorrelationContextValue, continued *)

Lemma split_not_nil (sep : ascii) (s : string) : split sep s <> [].
Proof.
  destruct s as [|a s]; simpl; [discriminate |].
  destruct (Ascii.eqb a sep); [discriminate |].
  destruct (split sep s); discriminate.
Qed.

Lemma split_plain (sep : ascii) (s : string) :
  no_char sep s = true -> split sep s = [s].
Proof.
  unfold no_char. induction s as [|a s IH]; simpl; [reflexivity |].
  intros H. apply andb_true_iff in H as [Ha Hs].
  apply negb_true_iff in Ha. rewrite Ha, (IH Hs). reflexivity.
Qed.

Lemma split_app (sep : ascii) (a b : string) :
  no_char sep a = true ->
  split sep (a +:+ String sep b) = a :: split sep b.
Proof.
  unfold no_char. induction a as [|x a IH]; intros H.
  - rewrite append_empty. simpl. now rewrite Ascii.eqb_refl.
  - simpl in H. apply andb_true_iff in H as [Hx Ha].
    apply negb_true_iff in Hx. rewrite append_cons. simpl.
    now rewrite Hx, (IH Ha).
Qed.

Lemma join_cons (sep x : string) (items : list string) :
  items <> [] -> join sep (x :: items) = x +:+ sep +:+ join sep items.
Proof. destruct items; [congruence | reflexivity]. Qed.

(** a string is its pieces put together again *)
Lemma join_split (sep : ascii) (s : string) :
  join (String sep "") (split sep s) = s.
Proof.
  induction s as [|a s IH]; [reflexivity |]. simpl.
  pose proof (split_not_nil sep s) as Hn.
  destruct (Ascii.eqb_spec a sep) as [-> | _].
  - rewrite join_cons by exact Hn. rewrite IH. reflexivity.
  - destruct (split sep s) as [|w ws]; [congruence |].
    destruct ws as [|w' ws].
    + simpl in *. now rewrite IH.
    + rewrite join_cons by discriminate.
      rewrite join_cons in IH by discriminate.
      rewrite append_cons. now rewrite IH.
Qed.

Lemma split_pieces_plain (sep : ascii) (s : string) :
  Forall (fun x => no_char sep x = true) (split sep s).
Proof.
  induction s as [|a s IH]; simpl.
  - constructor; [reflexivity | constructor].
  - destruct (Ascii.eqb a sep) eqn:E.
    + constructor; [reflexivity | exact IH].
    + pose proof (split_not_nil sep s) as Hn.
      destruct (split sep s) as [|w ws]; [congruence |].
      inversion IH as [|? ? Hw Hws]; subst.
      constructor; [| exact Hws].
      unfold no_char in *. simpl. now rewrite E, Hw.
Qed.

Lemma no_char_app (c : ascii) (a b : string) :
  no_char c (a +:+ b) = no_char c a && no_char c b.
Proof.
  unfold no_char. induction a as [|x a IH]; [reflexivity |].
  rewrite append_cons. simpl. now rewrite IH, andb_assoc.
Qed.

Lemma join_contains (sep : string) (items : list string) (x : string) :
  In x items -> contains (join sep items) x.
Proof.
  induction items as [|y items IH]; [intros [] |].
  intros [-> | Hin].
  - destruct items as [|z items].
    + exists "", "". now rewrite append_nil_r'.
    + exists "", (sep +:+ join sep (z :: items)). reflexivity.
  - assert (Hne : items <> []) by (destruct items; [destruct Hin | discriminate]).
    destruct (IH Hin) as (pre & post & E).
    exists (y +:+ sep +:+ pre), post.
    rewrite join_cons by exact Hne. rewrite E.
    now rewrite !append_assoc.
Qed.

(** what [find_key] hands back was one of the items, cut at its only
    equals sign *)
Lemma find_key_item (keyValues : list string) (key v : string) :
  find_key keyValues key = Some v ->
  In (key +:+ "=" +:+ v) keyValues /\ no_char "=" v = true.
Proof.
  induction keyValues as [|kv rest IH]; simpl; [discriminate |].
  pose proof (join_split "=" kv) as Hj.
  pose proof (split_pieces_plain "=" kv) as Hp.
  destruct (split "=" kv) as [|k [|v' [|x xs]]];
    try (intros H; apply IH in H as [? ?]; tauto).
  destruct (String.eqb_spec k key) as [-> | _].
  - intros [= ->]. cbn [join] in Hj. split; [now left |].
    inversion Hp as [|? ? _ Hp']; subst. now inversion Hp'.
  - intros H; apply IH in H as [? ?]; tauto.
Qed.

(** X9: the value [getCorrelationContextValue] hands back is cut out of
    the header: [key=value] occurs in the header, and the value contains
    neither a comma nor an equals sign (an item with a second equals sign
    is passed over). *)
Theorem getCorrelationContextValue_from_header
    (responseHeader key v : string) :
  getCorrelationContextValue responseHeader key = VString v ->
  contains responseHeader (key +:+ "=" +:+ v)
  /\ plain_token v = true.
Proof.
  unfold getCorrelationContextValue.
  destruct (truthy responseHeader); [| discriminate].
  destruct (find_key (split "," responseHeader) key) as [v'|] eqn:E;
    [| discriminate].
  intros [= ->]. apply find_key_item in E as [Hin Heq].
  split.
  - rewrite <- (join_split "," responseHeader) at 1.
    now apply join_contains.
  - pose proof (split_pieces_plain "," responseHeader) as Hp.
    rewrite List.Forall_forall in Hp. specialize (Hp _ Hin).
    rewrite !no_char_app in Hp. apply andb_true_iff in Hp as [_ Hp].
    apply andb_true_iff in Hp as [_ Hp].
    unfold plain_token. now rewrite Hp, Heq.
Qed.

Lemma getCorrelationContextValue_from_header_witness :
  contains "appId=cid-v1:1234,roleName=web" ("roleName" +:+ "=" +:+ "web")
  /\ plain_token "web" = true.
Proof.
  apply getCorrelationContextValue_from_header. vm_compute. reflexivity.
Defined.

Lemma split_pair (k v : string) :
  no_char "=" k = true -> no_char "=" v = true ->
  split "=" (k +:+ "=" +:+ v) = [k; v].
Proof.
  intros Hk Hv.
  change (k +:+ "=" +:+ v) with (k +:+ String "=" v).
  rewrite split_app by exact Hk. now rewrite split_plain.
Qed.

Lemma find_key_pairs (pairs : list (string * string)) (key : string) :
  Forall (fun kv => plain_token (fst kv) = true /\ plain_token (snd kv) = true)
    pairs ->
  find_key (map (fun kv => fst kv +:+ "=" +:+ snd kv) pairs) key
  = first_value pairs key.
Proof.
  induction 1 as [|[k v] pairs [Hk Hv] _ IH]; [reflexivity |].
  unfold plain_token in Hk, Hv. cbn [fst snd] in Hk, Hv.
  apply andb_true_iff in Hk as [_ Hk]. apply andb_true_iff in Hv as [_ Hv].
  cbn [map find_key first_value fst snd]. rewrite split_pair by assumption.
  now rewrite IH.
Qed.

Lemma split_items (sep : ascii) (items : list string) :
  items <> [] ->
  Forall (fun x => no_char sep x = true) items ->
  split sep (join (String sep "") items) = items.
Proof.
  intros Hne H. induction H as [|x items Hx Hrest IH]; [congruence |].
  destruct items as [|y items].
  - now apply split_plain.
  - rewrite join_cons by discriminate.
    change (x +:+ String sep "" +:+ join (String sep "") (y :: items))
      with (x +:+ String sep (join (String sep "") (y :: items))).
    rewrite split_app by exact Hx. f_equal. apply IH. discriminate.
Qed.

(** X10: round trip.  From a header put together from keys and values
    that contain neither a comma nor an equals sign,
    [getCorrelationContextValue] reads the value of the first pair with
    the key asked for, and [undefined] when no pair has it. *)
Theorem getCorrelationContextValue_round_trip
    (pairs : list (string * string)) (key : string) :
  pairs <> [] ->
  Forall (fun kv => plain_token (fst kv) = true /\ plain_token (snd kv) = true)
    pairs ->
  getCorrelationContextValue (context_header pairs) key
  = match first_value pairs key with
    | Some v => VString v
    | None => VUndefined
    end.
Proof.
  intros Hne Hplain. unfold getCorrelationContextValue, context_header.
  assert (Hitems : Forall (fun x => no_char "," x = true)
                     (map (fun kv => fst kv +:+ "=" +:+ snd kv) pairs)).
  { clear Hne. induction Hplain as [|[k v] ps [Hk Hv] _ IH]; constructor.
    - unfold plain_token in Hk, Hv. cbn [fst snd] in *.
      apply andb_true_iff in Hk as [Hk _]. apply andb_true_iff in Hv as [Hv _].
      rewrite !no_char_app, Hk, Hv. reflexivity.
    - apply IH. }
  assert (Hnn : map (fun kv => fst kv +:+ "=" +:+ snd kv) pairs <> [])
    by (destruct pairs; [congruence | discriminate]).
  assert (Ht : truthy (join "," (map (fun kv => fst kv +:+ "=" +:+ snd kv)
                                   pairs)) = true).
  { destruct pairs as [|[k v] ps]; [congruence |]. cbn [map fst snd].
    unfold truthy. apply negb_true_iff, String.eqb_neq. intros Hj.
    apply (f_equal String.length) in Hj.
    destruct ps; cbn [join map] in Hj; rewrite !append_length in Hj;
      simpl in Hj; lia. }
  rewrite Ht, (split_items "," _ Hnn Hitems), find_key_pairs by assumption.
  reflexivity.
Qed.

Lemma getCorrelationContextValue_round_trip_witness :
  getCorrelationContextValue
    (context_header [("appId", "cid-v1:1234"); ("roleName", "web")]) "roleName"
  = match first_value [("appId", "cid-v1:1234"); ("roleName", "web")]
            "roleName" with
    | Some v => VString v
    | None => VUndefined
    end.
Proof.
  apply getCorrelationContextValue_round_trip; [discriminate |].
  repeat constructor.
Defined.

(** ** getFilename, continued *)

Lemma substring_prefix (pre x : string) :
  String.substring 0 (String.length pre) (pre +:+ x) = pre.
Proof.
  induction pre as [|a pre IH]; [destruct x; reflexivity |].
  rewrite append_cons. simpl. now f_equal.
Qed.

Lemma js_substring_prefix (pre x : string) :
  substring (pre +:+ x) 0 (len pre) = pre.
Proof.
  unfold substring, clamp, len. rewrite append_length.
  replace (Z.to_nat _) with 0%nat by lia.
  replace (Z.to_nat _) with (String.length pre) by lia.
  apply substring_prefix.
Qed.

Lemma js_substring_suffix (pre x : string) :
  substring_from (pre +:+ x) (len pre) = x.
Proof.
  unfold len. rewrite substring_from_eq by (rewrite append_length; lia).
  rewrite append_length.
  replace (String.length pre + String.length x - String.length pre)%nat
    with (String.length x) by lia.
  rewrite substring_skip. apply substring_all.
Qed.

Lemma len_app (a b : string) : len (a +:+ b) = len a + len b.
Proof. unfold len. rewrite append_length. lia. Qed.

Lemma len_nonneg (s : string) : 0 <= len s.
Proof. unfold len. lia. Qed.

Lemma lastIndexOf_none (c : ascii) (s : string) :
  no_char c s = true -> lastIndexOf s (String c "") = -1.
Proof.
  unfold no_char. induction s as [|a s IH]; [reflexivity |].
  simpl. intros H. apply andb_true_iff in H as [Ha Hs].
  rewrite (IH Hs). simpl. apply negb_true_iff in Ha.
  rewrite Ascii.eqb_sym, Ha. reflexivity.
Qed.

Lemma lastIndexOf_last (c : ascii) (pre post : string) :
  no_char c post = true ->
  lastIndexOf (pre +:+ String c post) (String c "") = len pre.
Proof.
  intros Hpost. induction pre as [|a pre IH].
  - rewrite append_empty. cbn [lastIndexOf].
    rewrite (lastIndexOf_none c post Hpost). simpl.
    now rewrite Ascii.eqb_refl.
  - rewrite append_cons. cbn [lastIndexOf]. rewrite IH.
    pose proof (len_nonneg pre).
    destruct (Z.eqb_spec (len pre) (-1)); [lia |]. simpl.
    unfold len. simpl. lia.
Qed.

(** the last occurrence of a character that occurs *)
Lemma last_occurrence (c : ascii) (s : string) :
  no_char c s = false ->
  exists pre post, s = pre +:+ String c post /\ no_char c post = true.
Proof.
  unfold no_char. induction s as [|a s IH]; [discriminate |].
  simpl. destruct (all_chars _ s) eqn:Hs.
  - rewrite andb_true_r, negb_false_iff, Ascii.eqb_eq.
    intros ->. now exists "", s.
  - intros _. destruct (IH eq_refl) as (pre & post & -> & Hp).
    now exists (String a pre), post.
Qed.

Lemma split_path_at (c : ascii) (pre post : string) :
  substring (pre +:+ String c post) 0 (len pre) = pre
  /\ substring_from (pre +:+ String c post) (len pre + 1) = post.
Proof.
  split; [apply js_substring_prefix |].
  replace (pre +:+ String c post) with ((pre +:+ String c "") +:+ post)
    by now rewrite append_assoc.
  replace (len pre + 1) with (len (pre +:+ String c ""))
    by (rewrite len_app; reflexivity).
  apply js_substring_suffix.
Qed.

Lemma split_path_slash (path filename : string) :
  no_char "/" filename = true ->
  split_path (path +:+ "/" +:+ filename) = (path, filename).
Proof.
  intros H. unfold split_path.
  change (path +:+ "/" +:+ filename) with (path +:+ String "/" filename).
  rewrite (lastIndexOf_last "/" path filename H).
  assert (E : (len path =? -1) = false)
    by (pose proof (len_nonneg path); apply Z.eqb_neq; lia).
  cbv zeta. rewrite !E. cbn [negb].
  destruct (split_path_at "/" path filename) as [-> ->]. reflexivity.
Qed.

(** X11: a path with a slash in it is cut at its last slash, and nothing
    is lost: the directory, a slash and the file name give the path back,
    the file name has no slash, and it is the [name] of the object
    [getFilename] returns whatever the version. *)
Theorem split_path_round_trip (inputFile packageVersion : string) :
  no_char "/" inputFile = false ->
  inputFile
  = fst (split_path inputFile) +:+ "/" +:+ snd (split_path inputFile)
  /\ no_char "/" (snd (split_path inputFile)) = true
  /\ names_name (getFilename inputFile packageVersion)
     = snd (split_path inputFile).
Proof.
  intros H. destruct (last_occurrence "/" inputFile H) as (pre & post & -> & Hp).
  change (pre +:+ String "/" post) with (pre +:+ "/" +:+ post).
  rewrite (split_path_slash pre post Hp). cbn [fst snd].
  split; [reflexivity |]. split; [exact Hp |].
  unfold getFilename. rewrite (split_path_slash pre post Hp). cbn [snd].
  destruct (find_match _ _) as [[[[i v] f]|] m]; [| reflexivity].
  destruct (truthy v); [| reflexivity].
  destruct (String.eqb _ _); reflexivity.
Qed.

Lemma split_path_round_trip_witness :
  "./browser/es5/ai.2.5.10.min.js"
  = fst (split_path "./browser/es5/ai.2.5.10.min.js") +:+ "/"
    +:+ snd (split_path "./browser/es5/ai.2.5.10.min.js")
  /\ no_char "/" (snd (split_path "./browser/es5/ai.2.5.10.min.js")) = true
  /\ names_name (getFilename "./browser/es5/ai.2.5.10.min.js" "2.5.10")
     = snd (split_path "./browser/es5/ai.2.5.10.min.js").
Proof. apply split_path_round_trip. reflexivity. Defined.

(** X12: the object returned for a file named module, dot, version, dot,
    format, the version occurring at that one place of the name only: the
    module, the version, the format, and an integrity file that sits in
    the directory of the file under the name module, dot, version,
    [.integrity.json]. *)
Theorem getFilename_versioned_bundle
    (dir module version format : string) :
  no_char "/" (module +:+ "." +:+ version +:+ "." +:+ format) = true ->
  version <> "" -> startsWith version "." = false ->
  indexOf (module +:+ "." +:+ version +:+ "." +:+ format) ("." +:+ version)
  = len module ->
  lastIndexOf (module +:+ "." +:+ version +:+ "." +:+ format) ("." +:+ version)
  = len module ->
  getFilename (dir +:+ "/" +:+ module +:+ "." +:+ version +:+ "." +:+ format)
    version
  = mkNames (module +:+ "." +:+ version +:+ "." +:+ format)
      (Some module) (Some version) (Some (strip_dot format))
      (Some (dir +:+ "/" +:+ module +:+ "." +:+ version +:+ ".integrity.json")).
Proof.
  intros Hslash Hne Hdot Hfirst Hlast.
  set (filename := module +:+ "." +:+ version +:+ "." +:+ format) in *.
  pose proof (len_nonneg module) as Hm.
  unfold getFilename, find_match.
  rewrite (split_path_slash dir filename Hslash). cbn [snd].
  rewrite Hfirst. destruct (Z.eqb_spec (len module) (-1)); [lia |].
  cbn [negb].
  assert (Hstem : substring filename 0 (len module + (len version + 1))
                  = module +:+ "." +:+ version).
  { replace (len module + (len version + 1))
      with (len (module +:+ "." +:+ version))
      by (rewrite !len_app; unfold len; simpl; lia).
    unfold filename.
    replace (module +:+ "." +:+ version +:+ "." +:+ format)
      with ((module +:+ "." +:+ version) +:+ "." +:+ format)
      by now rewrite !append_assoc.
    apply js_substring_prefix. }
  assert (Hfmt : substring_from filename (len module + (len version + 1) + 1)
                 = format).
  { replace (len module + (len version + 1) + 1)
      with (len (module +:+ "." +:+ version +:+ "."))
      by (rewrite !len_app; unfold len; simpl; lia).
    unfold filename.
    replace (module +:+ "." +:+ version +:+ "." +:+ format)
      with ((module +:+ "." +:+ version +:+ ".") +:+ format)
      by now rewrite !append_assoc.
    apply js_substring_suffix. }
  assert (Hmod : substring filename 0 (len module) = module)
    by (unfold filename; apply js_substring_prefix).
  rewrite Hstem, Hfmt.
  assert (Tv : truthy version = true)
    by (unfold truthy; now apply negb_true_iff, String.eqb_neq).
  assert (Hsd : strip_dot version = version)
    by (unfold strip_dot; now rewrite Hdot).
  rewrite Tv. cbv zeta. rewrite !Hsd, String.eqb_refl, Hlast.
  destruct (Z.eqb_spec (len module) (-1)); [lia |].
  cbn [negb]. rewrite Hmod.
  now rewrite !append_assoc.
Qed.

Lemma getFilename_versioned_bundle_witness :
  getFilename ("./browser" +:+ "/" +:+ "ai" +:+ "." +:+ "2.5.10-nightly.2108"
               +:+ "." +:+ "min.js") "2.5.10-nightly.2108"
  = mkNames ("ai" +:+ "." +:+ "2.5.10-nightly.2108" +:+ "." +:+ "min.js")
      (Some "ai") (Some "2.5.10-nightly.2108") (Some (strip_dot "min.js"))
      (Some ("./browser" +:+ "/" +:+ "ai" +:+ "." +:+ "2.5.10-nightly.2108"
             +:+ ".integrity.json")).
Proof.
  apply getFilename_versioned_bundle;
    [reflexivity | discriminate | reflexivity | reflexivity | reflexivity].
Defined.

(** ** processPath, continued *)

Lemma getFilename_intFile_suffix (inputFile packageVersion key : string) :
  names_intFile (getFilename inputFile packageVersion) = Some key ->
  ends_with key ".integrity.json".
Proof.
  unfold getFilename.
  destruct (find_match inputFile packageVersion)
    as [[[[intFile version] format]|] module]; [| discriminate].
  destruct (truthy version); [| discriminate].
  destruct (String.eqb (strip_dot version) packageVersion); [| discriminate].
  cbn [names_intFile]. intros [= <-]. now exists intFile.
Qed.

Section IntegrityCache.

Variable readFileSync : string -> option string.
Variable digest_base64 : algorithm -> string -> string.

Local Abbreviation processOne := (processFile readFileSync digest_base64).
Local Abbreviation processRun := (processRun readFileSync digest_base64).
Local Abbreviation details_of := (details_of digest_base64).
Local Abbreviation file_details := (file_details digest_base64).
Local Abbreviation well_formed_record :=
  (well_formed_record readFileSync digest_base64).

(** X13: processing a file a second time changes nothing.  When a file has
    gone through without an exception, going through it again on the
    cache it has left raises no exception either and leaves that cache as
    it is. *)
Theorem processFile_twice (version inputFile : string)
    (cache cache' : gmap string IntegrityJson) :
  processOne version cache inputFile = (cache', None) ->
  processOne version cache' inputFile = (cache', None).
Proof.
  intros H.
  destruct (names_intFile (getFilename inputFile version)) as [key|] eqn:Hkey.
  2: { now apply processFile_bare. }
  destruct (getFilename_full _ _ _ Hkey) as (module & format & Hn & Tv & Tk).
  rewrite (processFile_full _ _ _ _ _ _ _ _ _ Hn Tv Tk) in H.
  rewrite (processFile_full _ _ _ _ _ _ _ _ _ Hn Tv Tk).
  destruct (readFileSync inputFile) as [src|]; [| discriminate].
  cbn zeta in H |- *.
  set (fd := details_of (snd (split_path inputFile)) src) in *.
  assert (Hl : forall a b : option string, a = b -> loose_ne a b = false)
    by (intros a b; apply loose_ne_false).
  destruct (cache !! key) as [e|] eqn:E.
  - destruct (loose_ne (ij_name e) (Some module)) eqn:N; [discriminate |].
    destruct (loose_ne (ij_version e) (Some version)) eqn:V; [discriminate |].
    injection H as <-. rewrite lookup_insert_eq.
    cbn [ij_name ij_version ij_ext default from_option id].
    rewrite N, V. now rewrite !insert_insert_eq.
  - injection H as <-. rewrite lookup_insert_eq.
    cbn [ij_name ij_version ij_ext default from_option id].
    rewrite !Hl by reflexivity. now rewrite !insert_insert_eq.
Qed.

Lemma well_formed_more_files (files files' : list string)
    (version key : string) (e : IntegrityJson) :
  (forall x, In x files -> In x files') ->
  well_formed_record files version key e ->
  well_formed_record files' version key e.
Proof.
  intros Hsub (Hk & Hn & Hv & m & Hm & Hne & Hall).
  split; [exact Hk |]. split; [exact Hn |]. split; [exact Hv |].
  exists m. split; [exact Hm |]. split; [exact Hne |].
  intros k fd Hfd.
  destruct (Hall k fd Hfd) as (f & src & Hin & Hrest).
  exists f, src. split; [now apply Hsub | exact Hrest].
Qed.

Lemma processFile_well_formed (files : list string)
    (version inputFile : string) (cache : gmap string IntegrityJson) :
  (forall key e, cache !! key = Some e ->
                 well_formed_record files version key e) ->
  forall key e,
    fst (processOne version cache inputFile) !! key = Some e ->
    well_formed_record (inputFile :: files) version key e.
Proof.
  intros Inv.
  assert (Inv' : forall key e, cache !! key = Some e ->
                   well_formed_record (inputFile :: files) version key e).
  { intros key e H. eapply well_formed_more_files; [| now apply Inv].
    intros x Hx. now right. }
  destruct (names_intFile (getFilename inputFile version)) as [key'|] eqn:Hkey.
  2: { now rewrite processFile_bare. }
  destruct (getFilename_full _ _ _ Hkey) as (module & format & Hn & Tv & Tk).
  rewrite (processFile_full _ _ _ _ _ _ _ _ _ Hn Tv Tk).
  destruct (readFileSync inputFile) as [src|] eqn:Hsrc; [| exact Inv'].
  cbn zeta. rewrite details_of_file_details.
  set (fd := file_details (snd (split_path inputFile)) src) in *.
  assert (Hsuf := getFilename_intFile_suffix _ _ _ Hkey).
  assert (Hw : writes_to version inputFile key' ("@" +:+ format))
    by (unfold writes_to; rewrite Hn; now split).
  assert (Hname : names_name (getFilename inputFile version)
                  = snd (split_path inputFile)) by now rewrite Hn.
  assert (Hnew : forall name : option string,
             names_module (getFilename inputFile version) = name ->
             exists f source,
               In f (inputFile :: files)
               /\ writes_to version f key' ("@" +:+ format)
               /\ names_module (getFilename f version) = name
               /\ readFileSync f = Some source
               /\ fd = file_details (names_name (getFilename f version))
                         source).
  { intros name Hm. exists inputFile, src.
    split; [now left |]. split; [exact Hw |]. split; [exact Hm |].
    split; [exact Hsrc |]. now rewrite Hname. }
  destruct (cache !! key') as [e'|] eqn:E.
  - destruct (loose_ne (ij_name e') (Some module)) eqn:N; [exact Inv' |].
    destruct (loose_ne (ij_version e') (Some version)) eqn:V; [exact Inv' |].
    apply loose_ne_false in N.
    cbn [fst]. intros key e.
    destruct (decide (key' = key)) as [<- | Hne].
    + rewrite lookup_insert_eq. intros [= <-].
      destruct (Inv' _ _ E) as (_ & Hnm & Hver & m & Hm & _ & Hall).
      repeat split; cbn [ij_name ij_version ij_ext]; try assumption.
      rewrite Hm. cbn [default from_option id].
      eexists. split; [reflexivity |]. split; [apply insert_non_empty |].
      intros k fd0.
      destruct (decide ("@" +:+ format = k)) as [<- | Hk].
      * rewrite lookup_insert_eq. intros [= <-]. apply Hnew.
        rewrite Hn. cbn [names_module]. now symmetry.
      * rewrite lookup_insert_ne by assumption. apply Hall.
    + rewrite lookup_insert_ne by assumption. apply Inv'.
  - cbn [fst]. intros key e.
    destruct (decide (key' = key)) as [<- | Hne].
    + rewrite lookup_insert_eq. intros [= <-].
      repeat split; cbn [ij_name ij_version ij_ext]; try assumption;
        [now eexists |].
      eexists. split; [reflexivity |]. split; [apply insert_non_empty |].
      intros k fd0.
      destruct (decide ("@" +:+ format = k)) as [<- | Hk].
      * rewrite lookup_insert_eq. intros [= <-]. apply Hnew.
        now rewrite Hn.
      * rewrite lookup_insert_ne by assumption. now rewrite lookup_empty.
    + rewrite lookup_insert_ne by assumption. apply Inv'.
Qed.

Lemma processFiles_well_formed (version : string) (files : list string) :
  forall (done : list string) (cache : gmap string IntegrityJson),
    (forall key e, cache !! key = Some e ->
                   well_formed_record done version key e) ->
    forall key e,
      fst (processFiles readFileSync digest_base64 version cache files) !! key
      = Some e ->
      well_formed_record (done ++ files) version key e.
Proof.
  induction files as [|f files IH]; intros done cache Inv.
  - rewrite app_nil_r. exact Inv.
  - cbn [processFiles].
    assert (H := processFile_well_formed done version f cache Inv).
    assert (Hsub : forall x, In x (f :: done) -> In x (done ++ f :: files)).
    { intros x [<- | Hx]; apply in_or_app; [right; now left | now left]. }
    destruct (processOne version cache f) as [c1 [x|]].
    + intros key e Hl. eapply well_formed_more_files; [exact Hsub |].
      now apply H.
    + intros key e Hl.
      eapply well_formed_more_files;
        [| exact (IH (f :: done) c1 H key e Hl)].
      intros x Hx. apply in_app_or in Hx as [Hx | Hx]; [now apply Hsub |].
      apply in_or_app. right. now right.
Qed.

(** X14: whatever the files are and whether or not the run ends with an
    exception, every record [generateIntegrityFile] has in its cache is
    kept under a name that ends in [.integrity.json], has a module name,
    carries the version of the package, and holds details, at least for
    one file.  Each of these details stands under ["@"] and the format of
    one of the files found, a file that belongs to this integrity file,
    has the module name of the record and has been read: the details
    bear the name of that file and the three digests the hash library
    gives for its text, with the attribute made of them. *)
Theorem generateIntegrityFile_records (globby_sync : string -> list string)
    (package_version key : string) (e : IntegrityJson) :
  fst (generateIntegrityFile globby_sync readFileSync digest_base64
         package_version) !! key = Some e ->
  well_formed_record
    (globby_sync "./browser/**/*.js" ++ globby_sync "./snippet/**/*.js")
    package_version key e.
Proof.
  unfold generateIntegrityFile, processPath.
  assert (H0 : forall key e, (∅ : gmap string IntegrityJson) !! key = Some e ->
                 well_formed_record [] package_version key e)
    by (intros k x; now rewrite lookup_empty).
  assert (H1 := processFiles_well_formed package_version
                  (globby_sync "./browser/**/*.js") [] ∅ H0).
  cbn [app] in H1.
  destruct (processFiles _ _ _ ∅ _) as [c1 [x|]].
  - intros Hl. eapply well_formed_more_files; [| now apply H1].
    intros y Hy. apply in_or_app. now left.
  - apply processFiles_well_formed. exact H1.
Qed.

End IntegrityCache.

Lemma processFile_twice_witness :
  processFile sample_files sample_digest "2.5.10"
    (fst (processFile sample_files sample_digest "2.5.10" ∅
            "./browser/ai.2.5.10.js"))
    "./browser/ai.2.5.10.js"
  = (fst (processFile sample_files sample_digest "2.5.10" ∅
            "./browser/ai.2.5.10.js"), None).
Proof.
  apply (processFile_twice sample_files sample_digest "2.5.10"
           "./browser/ai.2.5.10.js" ∅).
  vm_compute. reflexivity.
Defined.

Lemma generateIntegrityFile_records_witness :
  exists e,
    fst (generateIntegrityFile sample_globby sample_files sample_digest "2.5.10")
    !! "./browser/ai.2.5.10.integrity.json" = Some e
    /\ well_formed_record sample_files sample_digest
         (sample_globby "./browser/**/*.js"
          ++ sample_globby "./snippet/**/*.js")
         "2.5.10" "./browser/ai.2.5.10.integrity.json" e.
Proof.
  eexists. split; [vm_compute; reflexivity |].
  apply (generateIntegrityFile_records sample_files sample_digest
           sample_globby "2.5.10").
  vm_compute. reflexivity.
Defined.

(** ** Util: storage, continued *)

Section Storage.

Context {S L : Type}.
Variable env : Env S L.

(** X15: after [disableStorage] neither kind of storage is used any more:
    the two checks answer [false], no storage object is handed out, the
    three accessors answer [null] or [false], and none of these calls
    changes anything, be it a store, the flags or the log. *)
Theorem disableStorage_switches_storage_off (name data : string)
    (w : World S L) :
  let w' := snd (disableStorage w) in
  canUseLocalStorage env w' = (Return false, w')
  /\ canUseSessionStorage env w' = (Return false, w')
  /\ _getLocalStorageObject env w' = (Return None, w')
  /\ _getSessionStorageObject env w' = (Return None, w')
  /\ getStorage env name w' = (Return None, w')
  /\ setStorage env name data w' = (Return false, w')
  /\ removeStorage env name w' = (Return false, w').
Proof. cbv zeta. repeat split; reflexivity. Qed.

(** the verification of one kind of storage leaves the other kind alone *)
Lemma _getVerifiedStorageObject_local_frame (w : World S L) :
  let w' := snd (_getVerifiedStorageObject env LocalStorage w) in
  sessionStore w' = sessionStore w
  /\ _canUseSessionStorage w' = _canUseSessionStorage w
  /\ _canUseLocalStorage w' = _canUseLocalStorage w
  /\ logged w' = logged w.
Proof.
  unfold _getVerifiedStorageObject, try_catch, bind, ret, throw, call, newDate.
  destruct (hasGlobal env); cbn [negb]; [| now cbn].
  destruct (getGlobalInst env LocalStorage) as [storage|]; [| now cbn].
  cbn [store_of with_store localStore].
  destruct (setItem storage _ _ _) as [[[]|e1] s1]; [| now cbn].
  cbn [store_of with_store localStore].
  destruct (getItem storage _ s1) as [[v|e2] s2]; [| now cbn].
  cbn [store_of with_store localStore].
  destruct (removeItem storage _ s2) as [[[]|e3] s3]; now cbn.
Qed.

Lemma _getVerifiedStorageObject_session_frame (w : World S L) :
  let w' := snd (_getVerifiedStorageObject env SessionStorage w) in
  localStore w' = localStore w
  /\ _canUseLocalStorage w' = _canUseLocalStorage w
  /\ _canUseSessionStorage w' = _canUseSessionStorage w
  /\ logged w' = logged w.
Proof.
  unfold _getVerifiedStorageObject, try_catch, bind, ret, throw, call, newDate.
  destruct (hasGlobal env); cbn [negb]; [| now cbn].
  destruct (getGlobalInst env SessionStorage) as [storage|]; [| now cbn].
  cbn [store_of with_store sessionStore].
  destruct (setItem storage _ _ _) as [[[]|e1] s1]; [| now cbn].
  cbn [store_of with_store sessionStore].
  destruct (getItem storage _ s1) as [[v|e2] s2]; [| now cbn].
  cbn [store_of with_store sessionStore].
  destruct (removeItem storage _ s2) as [[[]|e3] s3]; now cbn.
Qed.

Lemma canUseLocalStorage_frame (w : World S L) :
  let w' := snd (canUseLocalStorage env w) in
  sessionStore w' = sessionStore w
  /\ _canUseSessionStorage w' = _canUseSessionStorage w.
Proof.
  cbv zeta. unfold canUseLocalStorage.
  destruct (_canUseLocalStorage w) as [b|]; [now split |].
  unfold bind, set_canUseLocalStorage, ret.
  destruct (_getVerifiedStorageObject_local_frame w) as (H1 & H2 & _).
  destruct (_getVerifiedStorageObject env LocalStorage w) as [[r|e|] w1];
    now cbn in *.
Qed.

Lemma _getLocalStorageObject_frame (w : World S L) :
  let w' := snd (_getLocalStorageObject env w) in
  sessionStore w' = sessionStore w
  /\ _canUseSessionStorage w' = _canUseSessionStorage w.
Proof.
  cbv zeta. unfold _getLocalStorageObject, bind.
  destruct (canUseLocalStorage_frame w) as (H1 & H2).
  destruct (canUseLocalStorage env w) as [[[|]|e|] w1]; cbn [snd] in *;
    try (now split).
  destruct (_getVerifiedStorageObject_local_frame w1) as (H3 & H4 & _).
  split; congruence.
Qed.

Lemma local_accessor_frame {A : Type} (body : Storage S -> @M S L A)
    (handler : exn -> @M S L A) (failure : A) (w : World S L) :
  (forall st w1, sessionStore (snd (body st w1)) = sessionStore w1
                 /\ _canUseSessionStorage (snd (body st w1))
                    = _canUseSessionStorage w1) ->
  (forall e w1, sessionStore (snd (handler e w1)) = sessionStore w1
                /\ _canUseSessionStorage (snd (handler e w1))
                   = _canUseSessionStorage w1) ->
  let w' := snd (bind (_getLocalStorageObject env) (fun storage =>
                   match storage with
                   | Some storage => try_catch (body storage) handler
                   | None => ret failure
                   end) w) in
  sessionStore w' = sessionStore w
  /\ _canUseSessionStorage w' = _canUseSessionStorage w.
Proof.
  intros Hbody Hhandler. cbv zeta. unfold bind.
  destruct (_getLocalStorageObject_frame w) as (H1 & H2).
  destruct (_getLocalStorageObject env w) as [[[st|]|e0|] w1];
    cbn [snd] in *; try (now split).
  unfold try_catch. destruct (Hbody st w1) as (H3 & H4).
  destruct (body st w1) as [[r|x|] w2]; cbn [snd] in *.
  - split; congruence.
  - destruct (Hhandler x w2) as (H5 & H6). split; congruence.
  - split; congruence.
Qed.

Lemma on_storage_failure_frame {A : Type} (msgId : _InternalMessageId)
    (msg : string) (result : A) (e : exn) (w : World S L) :
  sessionStore (snd (on_storage_failure env msgId msg result e w))
  = sessionStore w
  /\ _canUseSessionStorage (snd (on_storage_failure env msgId msg result e w))
     = _canUseSessionStorage w.
Proof. now cbn. Qed.

(** X16: the accessors of local storage never touch session storage:
    whatever the browser does, [getStorage], [setStorage] and
    [removeStorage] leave the session store and the flag of
    [canUseSessionStorage] as they found them. *)
Theorem local_accessors_leave_session_storage (name data : string)
    (w : World S L) :
  (sessionStore (snd (getStorage env name w)) = sessionStore w
   /\ _canUseSessionStorage (snd (getStorage env name w))
      = _canUseSessionStorage w)
  /\ (sessionStore (snd (setStorage env name data w)) = sessionStore w
      /\ _canUseSessionStorage (snd (setStorage env name data w))
         = _canUseSessionStorage w)
  /\ (sessionStore (snd (removeStorage env name w)) = sessionStore w
      /\ _canUseSessionStorage (snd (removeStorage env name w))
         = _canUseSessionStorage w).
Proof.
  split; [| split].
  - apply (local_accessor_frame _ _ None);
      [| intros; apply on_storage_failure_frame].
    intros st w1. unfold call. cbn [store_of].
    destruct (getItem st name (localStore w1)) as [[a|e] s1]; now cbn.
  - apply (local_accessor_frame _ _ false);
      [| intros; apply on_storage_failure_frame].
    intros st w1. unfold bind, call, ret. cbn [store_of].
    destruct (setItem st name data (localStore w1)) as [[a|e] s1]; now cbn.
  - apply (local_accessor_frame _ _ false);
      [| intros; apply on_storage_failure_frame].
    intros st w1. unfold bind, call, ret. cbn [store_of].
    destruct (removeItem st name (localStore w1)) as [[a|e] s1]; now cbn.
Qed.

End Storage.

(** ** Util: a browser whose local storage works *)

Section WorkingStorage.

Context {L : Type}.
Variable env : Env (gmap string string) L.
Hypothesis has_global : hasGlobal env = true.
Hypothesis has_storage : getGlobalInst env LocalStorage = Some map_storage.

Local Abbreviation probed := (probed env).

(** the verification passes; all it leaves behind is that the item named
    like the date is gone and that one more date has been taken *)
Lemma _getVerifiedStorageObject_map (w : World (gmap string string) L) :
  _getVerifiedStorageObject env LocalStorage w
  = (Return (Some map_storage),
     mkWorld (_canUseLocalStorage w) (_canUseSessionStorage w)
       (_htmlAnchorIdx w) (_htmlAnchorElement w)
       (delete (dateString env (dates w)) (localStore w))
       (sessionStore w) (logged w) (Datatypes.S (dates w))
       (storageFaults w)).
Proof.
  unfold _getVerifiedStorageObject, try_catch, bind, ret, throw, call, newDate.
  rewrite has_global, has_storage.
  cbn [negb map_storage setItem getItem removeItem store_of with_store
       localStore sessionStore _canUseLocalStorage _canUseSessionStorage
       _htmlAnchorIdx _htmlAnchorElement logged dates storageFaults].
  rewrite lookup_insert_eq, bool_decide_eq_true_2 by reflexivity.
  cbn [negb]. now rewrite delete_insert_eq.
Qed.

Lemma same_items_delete (s s' : gmap string string) (n : nat) :
  same_items env s s' -> same_items env s (delete (dateString env n) s').
Proof.
  intros H k Hk. rewrite lookup_delete_ne by apply Hk. now apply H.
Qed.

Lemma same_items_refl (s : gmap string string) : same_items env s s.
Proof. now intros k _. Qed.

Lemma _getLocalStorageObject_map (w : World (gmap string string) L) :
  _canUseLocalStorage w <> Some false ->
  exists w',
    _getLocalStorageObject env w = (Return (Some map_storage), w')
    /\ probed w w'.
Proof.
  intros Hflag. unfold _getLocalStorageObject, bind, canUseLocalStorage.
  destruct (_canUseLocalStorage w) as [[|]|] eqn:F; [| congruence |].
  - rewrite _getVerifiedStorageObject_map. eexists. split; [reflexivity |].
    unfold probed. cbn. repeat split; try assumption.
    apply same_items_delete, same_items_refl.
  - unfold bind. rewrite _getVerifiedStorageObject_map.
    unfold set_canUseLocalStorage, ret. cbn [fst snd].
    rewrite _getVerifiedStorageObject_map. eexists. split; [reflexivity |].
    unfold probed. cbn. repeat split.
    apply same_items_delete, same_items_delete, same_items_refl.
Qed.

Lemma setStorage_map (name data : string) (w : World (gmap string string) L) :
  _canUseLocalStorage w <> Some false ->
  exists w1,
    _getLocalStorageObject env w = (Return (Some map_storage), w1)
    /\ probed w w1
    /\ setStorage env name data w
       = (Return true, with_store LocalStorage
                         (<[name := data]> (localStore w1)) w1).
Proof.
  intros Hflag.
  destruct (_getLocalStorageObject_map w Hflag) as (w1 & E & P).
  exists w1. split; [exact E |]. split; [exact P |].
  unfold setStorage, bind at 1. rewrite E. reflexivity.
Qed.

Lemma getStorage_map (name : string) (w : World (gmap string string) L) :
  _canUseLocalStorage w <> Some false ->
  exists w1,
    probed w w1
    /\ getStorage env name w = (Return (localStore w1 !! name), w1).
Proof.
  intros Hflag.
  destruct (_getLocalStorageObject_map w Hflag) as (w1 & E & P).
  exists w1. split; [exact P |].
  unfold getStorage, bind at 1. rewrite E. unfold try_catch, call.
  cbn [map_storage getItem store_of]. now destruct w1.
Qed.

Lemma removeStorage_map (name : string) (w : World (gmap string string) L) :
  _canUseLocalStorage w <> Some false ->
  exists w1,
    probed w w1
    /\ removeStorage env name w
       = (Return true, with_store LocalStorage
                         (delete name (localStore w1)) w1).
Proof.
  intros Hflag.
  destruct (_getLocalStorageObject_map w Hflag) as (w1 & E & P).
  exists w1. split; [exact P |].
  unfold removeStorage, bind at 1. rewrite E. reflexivity.
Qed.

(** X17: round trip on a browser whose local storage keeps its items and
    never throws.  Unless storage has been found unusable or switched
    off, and the name not being the text of a date of the browser,
    [setStorage] answers [true], [getStorage] then reads the data back,
    [removeStorage] answers [true] and [getStorage] then reads [null];
    all along nothing is logged, and every other item is left as it was,
    but for the items named like a date. *)
Theorem storage_round_trip (name data : string)
    (w : World (gmap string string) L) :
  _canUseLocalStorage w <> Some false ->
  (forall n, dateString env n <> name) ->
  exists w1 w2 w3 w4,
    setStorage env name data w = (Return true, w1)
    /\ getStorage env name w1 = (Return (Some data), w2)
    /\ removeStorage env name w2 = (Return true, w3)
    /\ getStorage env name w3 = (Return None, w4)
    /\ (forall k, k <> name -> (forall n, dateString env n <> k) ->
          localStore w4 !! k = localStore w !! k)
    /\ logged w4 = logged w.
Proof.
  intros Hflag Hname.
  assert (Hon : forall u : World (gmap string string) L,
            _canUseLocalStorage u = Some true ->
            _canUseLocalStorage u <> Some false) by (intros u ->; discriminate).
  destruct (setStorage_map name data w Hflag)
    as (u1 & _ & (F1 & S1 & L1 & _) & E1).
  set (w1 := with_store LocalStorage (<[name := data]> (localStore u1)) u1) in *.
  assert (G1 : _canUseLocalStorage w1 = Some true) by exact F1.
  destruct (getStorage_map name w1 (Hon _ G1)) as (w2 & (F2 & S2 & L2 & _) & E2).
  destruct (removeStorage_map name w2 (Hon _ F2))
    as (u3 & (F3 & S3 & L3 & _) & E3).
  set (w3 := with_store LocalStorage (delete name (localStore u3)) u3) in *.
  assert (G3 : _canUseLocalStorage w3 = Some true) by exact F3.
  destruct (getStorage_map name w3 (Hon _ G3)) as (w4 & (F4 & S4 & L4 & _) & E4).
  assert (Hw1 : localStore w1 = <[name := data]> (localStore u1)) by reflexivity.
  assert (Hw3 : localStore w3 = delete name (localStore u3)) by reflexivity.
  exists w1, w2, w3, w4.
  split; [exact E1 |]. split.
  { rewrite E2. do 2 f_equal.
    rewrite (S2 name Hname), Hw1. apply lookup_insert_eq. }
  split; [exact E3 |]. split.
  { rewrite E4. do 2 f_equal.
    rewrite (S4 name Hname), Hw3. apply lookup_delete_eq. }
  split.
  - intros k Hk Hdate.
    rewrite (S4 k Hdate), Hw3, lookup_delete_ne by congruence.
    rewrite (S3 k Hdate), (S2 k Hdate), Hw1, lookup_insert_ne by congruence.
    apply (S1 k Hdate).
  - assert (Hl1 : logged w1 = logged u1) by reflexivity.
    assert (Hl3 : logged w3 = logged u3) by reflexivity.
    congruence.
Qed.

End WorkingStorage.

Lemma storage_round_trip_witness :
  exists w1 w2 w3 w4,
    setStorage (sample_env map_storage true (fun _ => "")) "ai_session" "id|1|2"
      initial_world = (Return true, w1)
    /\ getStorage (sample_env map_storage true (fun _ => "")) "ai_session" w1
       = (Return (Some "id|1|2"), w2)
    /\ removeStorage (sample_env map_storage true (fun _ => "")) "ai_session" w2
       = (Return true, w3)
    /\ getStorage (sample_env map_storage true (fun _ => "")) "ai_session" w3
       = (Return None, w4)
    /\ (forall k, k <> "ai_session" ->
          (forall n, dateString (sample_env map_storage true (fun _ => "")) n
                     <> k) ->
          localStore w4 !! k = localStore initial_world !! k)
    /\ logged w4 = logged initial_world.
Proof.
  apply (storage_round_trip (sample_env map_storage true (fun _ => ""))
           eq_refl eq_refl "ai_session" "id|1|2" initial_world).
  - discriminate.
  - intros n. discriminate.
Defined.

(** ** UrlHelper.parseUrl: the cache of anchor elements *)

Section AnchorCache.

Context {S L : Type}.
Variable env : Env S L.
Hypothesis has_createElement : hasCreateElement env = true.

Lemma parseUrl_step (url : string) (w : World S L) :
  length (_htmlAnchorElement w) = 5%nat ->
  (_htmlAnchorIdx w < 5)%nat ->
  fst (parseUrl env url w) = Return (element_for env url)
  /\ _htmlAnchorElement (snd (parseUrl env url w))
     = <[_htmlAnchorIdx w := Some (element_for env url)]> (_htmlAnchorElement w)
  /\ _htmlAnchorIdx (snd (parseUrl env url w))
     = ((_htmlAnchorIdx w + 1) mod 5)%nat.
Proof.
  intros Hlen Hidx. unfold parseUrl. rewrite has_createElement.
  cbn [negb]. unfold bind, set_anchors, ret.
  cbn [fst snd _htmlAnchorElement _htmlAnchorIdx].
  rewrite length_insert, Hlen.
  split; [reflexivity |]. split; [reflexivity |].
  destruct (_htmlAnchorIdx w) as [|[|[|[|[|n]]]]]; try reflexivity; lia.
Qed.

Lemma after_parseUrls_shape (urls : list string) :
  forall w : World S L,
    length (_htmlAnchorElement w) = 5%nat ->
    (_htmlAnchorIdx w < 5)%nat ->
    length (_htmlAnchorElement (after_parseUrls env urls w)) = 5%nat
    /\ _htmlAnchorIdx (after_parseUrls env urls w)
       = ((_htmlAnchorIdx w + length urls) mod 5)%nat.
Proof.
  induction urls as [|url urls IH]; intros w Hlen Hidx; cbn [after_parseUrls].
  - split; [exact Hlen |]. cbn [length]. rewrite Nat.add_0_r.
    symmetry. now apply Nat.mod_small.
  - destruct (parseUrl_step url w Hlen Hidx) as (_ & Hc & Hi).
    destruct (IH (snd (parseUrl env url w))) as (H1 & H2).
    + now rewrite Hc, length_insert.
    + rewrite Hi. apply Nat.mod_upper_bound. lia.
    + split; [exact H1 |]. rewrite H2, Hi. cbn [length].
      rewrite Nat.Div0.add_mod_idemp_l. f_equal. lia.
Qed.

(** a slot is left alone as long as the index does not come by *)
Lemma after_parseUrls_keeps (urls : list string) :
  forall (w : World S L) (slot : nat),
    length (_htmlAnchorElement w) = 5%nat ->
    (_htmlAnchorIdx w < 5)%nat ->
    (forall t, (t < length urls)%nat ->
               ((_htmlAnchorIdx w + t) mod 5)%nat <> slot) ->
    _htmlAnchorElement (after_parseUrls env urls w) !! slot
    = _htmlAnchorElement w !! slot.
Proof.
  induction urls as [|url urls IH]; intros w slot Hlen Hidx Hfree;
    cbn [after_parseUrls]; [reflexivity |].
  destruct (parseUrl_step url w Hlen Hidx) as (_ & Hc & Hi).
  rewrite IH.
  - rewrite Hc. apply list_lookup_insert_ne.
    specialize (Hfree 0%nat). cbn [length] in Hfree.
    rewrite Nat.add_0_r, Nat.mod_small in Hfree by assumption.
    apply Hfree. lia.
  - now rewrite Hc, length_insert.
  - rewrite Hi. apply Nat.mod_upper_bound. lia.
  - intros t Ht. rewrite Hi, Nat.Div0.add_mod_idemp_l.
    replace (_htmlAnchorIdx w + 1 + t)%nat
      with (_htmlAnchorIdx w + Datatypes.S t)%nat by lia.
    apply Hfree. cbn [length]. lia.
Qed.

(** X18: the cache of [parseUrl] is a ring of five anchor elements.
    Where the document creates elements, after any number of calls the
    slot that lies [i] places after the one the index started from, going
    round after five, holds the element for the URL of the call number
    [i], for each of the last five calls.  So an element handed out keeps
    its URL during the four calls that follow, and the fifth call takes
    it over for its own URL. *)
Theorem parseUrl_keeps_last_five (urls : list string) (w : World S L)
    (i : nat) (url : string) :
  length (_htmlAnchorElement w) = 5%nat ->
  (_htmlAnchorIdx w < 5)%nat ->
  urls !! i = Some url ->
  (length urls <= i + 5)%nat ->
  _htmlAnchorElement (after_parseUrls env urls w)
    !! ((_htmlAnchorIdx w + i) mod 5)%nat
  = Some (Some (element_for env url)).
Proof.
  revert w i. induction urls as [|u urls IH]; intros w i Hlen Hidx Hi Hlast;
    [discriminate |].
  cbn [after_parseUrls].
  destruct (parseUrl_step u w Hlen Hidx) as (_ & Hc & Hn).
  assert (Hlen1 : length (_htmlAnchorElement (snd (parseUrl env u w))) = 5%nat)
    by now rewrite Hc, length_insert.
  assert (Hidx1 : (_htmlAnchorIdx (snd (parseUrl env u w)) < 5)%nat)
    by (rewrite Hn; apply Nat.mod_upper_bound; lia).
  destruct i as [|i].
  - injection Hi as ->. cbn [length] in Hlast.
    rewrite Nat.add_0_r, Nat.mod_small by assumption.
    rewrite after_parseUrls_keeps; try assumption.
    + rewrite Hc. apply list_lookup_insert_eq. now rewrite Hlen.
    + intros t Ht. rewrite Hn, Nat.Div0.add_mod_idemp_l.
      destruct (_htmlAnchorIdx w) as [|[|[|[|[|n]]]]]; [| | | | | lia];
        destruct t as [|[|[|[|t]]]]; try lia; cbn; lia.
  - cbn [lookup list_lookup] in Hi. cbn [length] in Hlast.
    replace ((_htmlAnchorIdx w + Datatypes.S i) mod 5)%nat
      with ((_htmlAnchorIdx (snd (parseUrl env u w)) + i) mod 5)%nat.
    + apply IH; try assumption. lia.
    + rewrite Hn, Nat.Div0.add_mod_idemp_l. f_equal. lia.
Qed.

End AnchorCache.

Lemma parseUrl_keeps_last_five_witness :
  _htmlAnchorElement
    (after_parseUrls file_page_env
       ["http://a.example/"; "http://b.example/"; "http://c.example/";
        "http://d.example/"; "http://e.example/"; "http://f.example/"]
       initial_world) !! ((_htmlAnchorIdx initial_world + 1) mod 5)%nat
  = Some (Some (element_for file_page_env "http://b.example/")).
Proof.
  apply (parseUrl_keeps_last_five file_page_env eq_refl
           ["http://a.example/"; "http://b.example/"; "http://c.example/";
            "http://d.example/"; "http://e.example/"; "http://f.example/"]
           initial_world 1 "http://b.example/").
  - reflexivity.
  - cbn. lia.
  - reflexivity.
  - cbn. lia.
Defined.

(** ** UrlHelper.parseHost: the prefix www *)

Lemma is_ci_lower (a c : ascii) :
  lower_char c = lower_char a -> is_ci a c = true.
Proof. intros H. unfold is_ci. rewrite H. apply Ascii.eqb_refl. Qed.

Lemma consumed_all (s : string) : consumed s "" = s.
Proof.
  rewrite <- (append_nil_r' s) at 1. apply consumed_app.
Qed.

(** the host and the port of a full host, taken by the second and the
    third group of the expression of [parseHost] *)
Lemma host_re_tail {X : Type} (grest : string) (g0 : ascii)
    (port : option string) (c : captures)
    (k : string -> captures -> option X) (x : X) :
  is_dot g0 = true -> grest <> "" -> all_chars not_slash_colon grest = true ->
  match port with
  | Some digits => digits <> "" /\ all_chars is_digit digits = true
  | None => True
  end ->
  k "" (match port with
        | Some digits => set_capture 3 (String ":" digits)
        | None => fun c => c
        end (set_capture 2 (String g0 grest) c)) = Some x ->
  matchk (Seq (Grp 2 (Seq (Chr is_dot) (Rep not_slash_colon 1 None)))
              (Opt (Grp 3 (Seq (Chr (lit ":")) (Rep is_digit 1 None)))))
    (String g0 grest +:+ port_text port) c k
  = Some x.
Proof.
  intros Hg0 Hne Hhost Hport Hk.
  assert (Hlen : (1 <= String.length grest)%nat)
    by (destruct grest; [congruence | simpl; lia]).
  cbn [matchk]. rewrite append_cons, Hg0.
  apply rep_greedy_max; [exact Hhost | | lia |].
  - destruct port; simpl; auto.
  - rewrite <- append_cons, consumed_app.
    destruct port as [digits|]; cbn [port_text].
    + destruct Hport as [Hd Hall].
      cbn [lit Ascii.eqb Bool.eqb].
      rewrite <- (append_nil_r' digits) at 1.
      erewrite rep_greedy_max;
        [reflexivity | exact Hall | exact I | | ].
      * destruct digits; [congruence | simpl; lia].
      * rewrite consumed_all. exact Hk.
    + exact Hk.
Qed.

Lemma matchk_Seq {X : Type} (r1 r2 : regex) (s : string) (c : captures)
    (k : string -> captures -> option X) :
  matchk (Seq r1 r2) s c k = matchk r1 s c (fun s' c' => matchk r2 s' c' k).
Proof. reflexivity. Qed.

Lemma matchk_Opt {X : Type} (r : regex) (s : string) (c : captures)
    (k : string -> captures -> option X) :
  matchk (Opt r) s c k
  = match matchk r s c k with Some x => Some x | None => k s c end.
Proof. reflexivity. Qed.

Lemma matchk_Grp {X : Type} (n : nat) (r : regex) (s : string) (c : captures)
    (k : string -> captures -> option X) :
  matchk (Grp n r) s c k
  = matchk r s c (fun s' c' => k s' (set_capture n (consumed s s') c')).
Proof. reflexivity. Qed.

(** the first group of the expression of [parseHost] on a string that
    begins with [www], at most one digit and a dot *)
Lemma www_group {X : Type} (w1 w2 w3 : ascii) (digit rest : string)
    (c : captures) (k : string -> captures -> option X) (x : X) :
  lower_char w1 = "w"%char -> lower_char w2 = "w"%char ->
  lower_char w3 = "w"%char ->
  all_chars is_digit digit = true -> (String.length digit <= 1)%nat ->
  k rest (set_capture 1
            (String w1 (String w2 (String w3 "")) +:+ digit +:+ ".") c)
  = Some x ->
  matchk (Grp 1 (seqs [text_ci "www"; Rep is_digit 0 (Some 1%nat);
                       Chr (lit ".")]))
    (String w1 (String w2 (String w3 "")) +:+ digit +:+ "." +:+ rest) c k
  = Some x.
Proof.
  intros H1 H2 H3 Hdigit Hone Hk.
  assert (Hc : consumed (String w1 (String w2 (String w3 "")) +:+ digit
                         +:+ "." +:+ rest) rest
               = String w1 (String w2 (String w3 "")) +:+ digit +:+ ".").
  { replace (String w1 (String w2 (String w3 "")) +:+ digit +:+ "." +:+ rest)
      with ((String w1 (String w2 (String w3 "")) +:+ digit +:+ ".") +:+ rest)
      by now rewrite !append_assoc.
    apply consumed_app. }
  rewrite matchk_Grp.
  set (K := fun s' c' => k s' (set_capture 1 (consumed _ s') c')).
  assert (HK : K rest c = Some x) by (unfold K; rewrite Hc; exact Hk).
  clearbody K. clear Hc Hk.
  cbn [seqs text_ci]. rewrite text3. cbn [matchk].
  rewrite !is_ci_lower by assumption.
  destruct digit as [|d [|d' digit]]; [| | simpl in Hone; lia].
  - rewrite append_empty. change ("." +:+ rest) with (String "." rest).
    exact HK.
  - cbn [all_chars] in Hdigit. apply andb_true_iff in Hdigit as [Hd _].
    rewrite append_cons, append_empty.
    change ("." +:+ rest) with (String "." rest).
    cbn [rep_greedy below Nat.ltb Nat.leb]. rewrite Hd.
    cbn. now rewrite HK.
Qed.

(** X19: [parseHost] drops a leading [www.], whatever its case and with
    one digit after it or none.  When the full host of the URL reads
    [www], at most one digit, a dot, a host of two characters or more and
    then, if any, a port, the answer is that host with that port. *)
Theorem parseHost_drops_www (url www digit grest : string) (g0 : ascii)
    (port : option string) (inclPort : bool) :
  parseFullHost url inclPort
  = Some (www +:+ digit +:+ "." +:+ String g0 grest +:+ port_text port) ->
  toLowerCase www = "www" ->
  all_chars is_digit digit = true -> (String.length digit <= 1)%nat ->
  is_dot g0 = true -> grest <> "" -> all_chars not_slash_colon grest = true ->
  match port with
  | Some digits => digits <> "" /\ all_chars is_digit digits = true
  | None => True
  end ->
  parseHost url inclPort = Some (String g0 grest +:+ port_text port).
Proof.
  intros Hfull Hwww Hdigit Hone Hg0 Hne Hhost Hport.
  destruct www as [|w1 [|w2 [|w3 [|]]]]; try discriminate.
  cbn [toLowerCase] in Hwww. injection Hwww as H1 H2 H3.
  unfold parseHost. rewrite Hfull.
  assert (Ht : truthy (String w1 (String w2 (String w3 "")) +:+ digit +:+ "."
                       +:+ String g0 grest +:+ port_text port) = true)
    by reflexivity.
  rewrite Ht.
  assert (E : exists m c,
             exec host_re (String w1 (String w2 (String w3 "")) +:+ digit
                           +:+ "." +:+ String g0 grest +:+ port_text port)
             = Some (m, c)
             /\ c 2%nat = Some (String g0 grest)
             /\ or_empty (c 3%nat) = port_text port).
  { eexists _, _. split; [| split].
    - apply exec_here. unfold match_here, host_re. cbn [seqs].
      rewrite matchk_Seq, matchk_Opt.
      erewrite www_group; [reflexivity | assumption .. |].
      apply host_re_tail; [assumption .. | reflexivity].
    - destruct port; reflexivity.
    - destruct port; reflexivity. }
  destruct E as (m & c & -> & -> & Hc3).
  assert (Hl : (0 <? len (String g0 grest)) = true)
    by (apply Z.ltb_lt; unfold len; simpl; lia).
  now rewrite Hl, Hc3.
Qed.

Lemma parseHost_drops_www_witness :
  parseHost "https://WWW2.example.com:8443/index.html" true
  = Some (String "e" "xample.com" +:+ port_text (Some "8443")).
Proof.
  apply (parseHost_drops_www "https://WWW2.example.com:8443/index.html"
           "WWW" "2" "xample.com" "e" (Some "8443") true).
  - vm_compute. reflexivity.
  - reflexivity.
  - reflexivity.
  - simpl. lia.
  - reflexivity.
  - discriminate.
  - reflexivity.
  - split; [discriminate | reflexivity].
Defined.

Lemma www_group_fails {X : Type} (s : string) (c : captures)
    (k : string -> captures -> option X) :
  startsWith (toLowerCase s) "www" = false ->
  matchk (Grp 1 (seqs [text_ci "www"; Rep is_digit 0 (Some 1%nat);
                       Chr (lit ".")])) s c k
  = None.
Proof.
  intros H. rewrite matchk_Grp. cbn [seqs text_ci]. rewrite !matchk_Seq.
  assert (Hci : forall a, is_ci "w" a = Ascii.eqb "w" (lower_char a))
    by (intros a; unfold is_ci; apply Ascii.eqb_sym).
  destruct s as [|a1 s]; [reflexivity |].
  cbn [matchk]. rewrite Hci. cbn [toLowerCase startsWith] in H.
  destruct (Ascii.eqb "w" (lower_char a1)); [| reflexivity].
  destruct s as [|a2 s]; [reflexivity |].
  rewrite Hci. cbn [toLowerCase andb] in H.
  destruct (Ascii.eqb "w" (lower_char a2)); [| reflexivity].
  destruct s as [|a3 s]; [reflexivity |].
  rewrite Hci. cbn [toLowerCase andb] in H.
  destruct (Ascii.eqb "w" (lower_char a3)); [| reflexivity].
  discriminate.
Qed.

(** X20: a full host that does not begin with [www], in whatever case, is
    passed on as it is: for a host of two characters or more followed, if
    at all, by a port, [parseHost] answers what [parseFullHost]
    answers. *)
Theorem parseHost_keeps_other_hosts (url hrest : string) (h0 : ascii)
    (port : option string) (inclPort : bool) :
  parseFullHost url inclPort = Some (String h0 hrest +:+ port_text port) ->
  startsWith (toLowerCase (String h0 hrest)) "www" = false ->
  is_dot h0 = true -> hrest <> "" -> all_chars not_slash_colon hrest = true ->
  match port with
  | Some digits => digits <> "" /\ all_chars is_digit digits = true
  | None => True
  end ->
  parseHost url inclPort = parseFullHost url inclPort.
Proof.
  intros Hfull Hwww Hh0 Hne Hhost Hport.
  unfold parseHost. rewrite Hfull.
  assert (Ht : truthy (String h0 hrest +:+ port_text port) = true)
    by reflexivity.
  rewrite Ht.
  assert (Hw : startsWith (toLowerCase (String h0 hrest +:+ port_text port))
                 "www" = false).
  { revert Hwww Hne. clear. rewrite append_cons. cbn [toLowerCase startsWith].
    destruct (Ascii.eqb "w" (lower_char h0)); [| reflexivity].
    destruct hrest as [|a2 s]; [congruence |]. rewrite append_cons.
    cbn [toLowerCase startsWith andb].
    destruct (Ascii.eqb "w" (lower_char a2)); [| reflexivity].
    destruct s as [|a3 s].
    - rewrite append_empty. destruct port; reflexivity.
    - rewrite append_cons. cbn [toLowerCase startsWith andb].
      now destruct (Ascii.eqb "w" (lower_char a3)). }
  assert (E : exists m c,
             exec host_re (String h0 hrest +:+ port_text port) = Some (m, c)
             /\ c 2%nat = Some (String h0 hrest)
             /\ or_empty (c 3%nat) = port_text port).
  { eexists _, _. split; [| split].
    - apply exec_here. unfold match_here, host_re. cbn [seqs].
      rewrite matchk_Seq, matchk_Opt, www_group_fails by exact Hw.
      apply host_re_tail; [assumption .. | reflexivity].
    - destruct port; reflexivity.
    - destruct port; reflexivity. }
  destruct E as (m & c & -> & -> & Hc3).
  assert (Hl : (0 <? len (String h0 hrest)) = true)
    by (apply Z.ltb_lt; unfold len; simpl; lia).
  now rewrite Hl, Hc3.
Qed.

Lemma parseHost_keeps_other_hosts_witness :
  parseHost "http://api.example.com:8080/v2/track" true
  = parseFullHost "http://api.example.com:8080/v2/track" true.
Proof.
  apply (parseHost_keeps_other_hosts "http://api.example.com:8080/v2/track"
           "pi.example.com" "a" (Some "8080") true).
  - vm_compute. reflexivity.
  - reflexivity.
  - reflexivity.
  - discriminate.
  - reflexivity.
  - split; [discriminate | reflexivity].
Defined.

(** ** Util.getExtension *)

(** X21: [getExtension] answers the first extension of the array that
    carries the identifier, passing over the elements that are [null]; it
    answers [null] exactly when no extension of the array carries it. *)
Theorem getExtension_first_match {IPlugin : Type}
    (plugin_identifier : IPlugin -> string)
    (extensions : list (option IPlugin)) (identifier : string) :
  match getExtension plugin_identifier extensions identifier with
  | Some extension =>
      plugin_identifier extension = identifier
      /\ exists before after,
           extensions = (before ++ Some extension :: after)%list
           /\ forall other, In (Some other) before ->
                plugin_identifier other <> identifier
  | None =>
      forall other, In (Some other) extensions ->
        plugin_identifier other <> identifier
  end.
Proof.
  induction extensions as [|[p|] rest IH]; cbn [getExtension].
  - intros other [].
  - destruct (String.eqb_spec (plugin_identifier p) identifier) as [Heq | Hne].
    + split; [exact Heq |]. exists [], rest. split; [reflexivity |].
      intros other [].
    + destruct (getExtension plugin_identifier rest identifier) as [q|].
      * destruct IH as (Hq & before & after & -> & Hbefore).
        split; [exact Hq |]. exists (Some p :: before), after.
        split; [reflexivity |].
        intros other [[= <-] | Hin]; [exact Hne | now apply Hbefore].
      * intros other [[= <-] | Hin]; [exact Hne | now apply IH].
  - destruct (getExtension plugin_identifier rest identifier) as [q|].
    + destruct IH as (Hq & before & after & -> & Hbefore).
      split; [exact Hq |]. exists (None :: before), after.
      split; [reflexivity |].
      intros other [[=] | Hin]. now apply Hbefore.
    + intros other [[=] | Hin]. now apply IH.
Qed.

(** ** Util: the checks for storage are made once *)

Section StorageChecks.

Context {S L : Type}.
Variable env : Env S L.

(** X22: each of the two checks looks at the browser once at most.  Both
    always answer, and leave their flag set to the answer.  From then on,
    for as long as the flag holds that answer, every call of the check
    answers it and changes nothing, whatever the state of the module and
    of the stores has become and whatever browser the call finds: no
    storage object is touched. *)
Theorem storage_checks_are_made_once (w : World S L) :
  (exists b w1,
      canUseLocalStorage env w = (Return b, w1)
      /\ _canUseLocalStorage w1 = Some b
      /\ forall (env' : Env S L) (w2 : World S L),
           _canUseLocalStorage w2 = Some b ->
           canUseLocalStorage env' w2 = (Return b, w2))
  /\ (exists b w1,
         canUseSessionStorage env w = (Return b, w1)
         /\ _canUseSessionStorage w1 = Some b
         /\ forall (env' : Env S L) (w2 : World S L),
              _canUseSessionStorage w2 = Some b ->
              canUseSessionStorage env' w2 = (Return b, w2)).
Proof.
  split.
  - destruct (canUseLocalStorage_returns env w) as (b & w1 & E & F & _).
    exists b, w1. split; [exact E |]. split; [exact F |].
    intros env' w2. apply canUseLocalStorage_cached.
  - assert (Hcached : forall (env' : Env S L) b (w2 : World S L),
               _canUseSessionStorage w2 = Some b ->
               canUseSessionStorage env' w2 = (Return b, w2))
      by (intros env' b w2 F; unfold canUseSessionStorage; now rewrite F).
    unfold canUseSessionStorage at 1.
    destruct (_canUseSessionStorage w) as [b|] eqn:F.
    + exists b, w. split; [reflexivity |]. split; [exact F |].
      intros env' w2. apply Hcached.
    + destruct (_getVerifiedStorageObject_returns env SessionStorage w)
        as (r & w1 & E & _).
      unfold bind. rewrite E. unfold set_canUseSessionStorage, ret.
      eexists _, _. split; [reflexivity |]. split; [reflexivity |].
      intros env' w2. apply Hcached.
Qed.

End StorageChecks.

(** ** CorrelationIdHelper.getCorrelationContext *)

(** X23: what [getCorrelationContext] answers is [undefined] or an
    identifier worth having: a string that is not empty, is not the bare
    prefix [cid-v1:], contains neither a comma nor an equals sign, and
    stands in the header behind the key and an equals sign. *)
Theorem getCorrelationContext_meaningful
    (requestContextTargetKey responseHeader : string) :
  getCorrelationContext requestContextTargetKey responseHeader = VUndefined
  \/ exists correlationId,
       getCorrelationContext requestContextTargetKey responseHeader
       = VString correlationId
       /\ correlationId <> "" /\ correlationId <> correlationIdPrefix
       /\ plain_token correlationId = true
       /\ contains responseHeader
            (requestContextTargetKey +:+ "=" +:+ correlationId).
Proof.
  unfold getCorrelationContext, getCorrelationContextValue.
  destruct (truthy responseHeader); [| now left].
  destruct (find_key (split "," responseHeader) requestContextTargetKey)
    as [v|] eqn:E; [| now left].
  destruct (truthy v) eqn:Tv; [| now left].
  destruct (String.eqb_spec v correlationIdPrefix) as [Hp | Hp]; [now left |].
  right. exists v. cbn [andb negb]. split; [reflexivity |].
  split; [intros ->; discriminate |]. split; [exact Hp |].
  apply find_key_item in E as [Hin Heq]. split.
  - pose proof (split_pieces_plain "," responseHeader) as Hs.
    rewrite List.Forall_forall in Hs. specialize (Hs _ Hin).
    rewrite !no_char_app in Hs. apply andb_true_iff in Hs as [_ Hs].
    apply andb_true_iff in Hs as [_ Hs].
    unfold plain_token. now rewrite Hs, Heq.
  - rewrite <- (join_split "," responseHeader) at 1.
    now apply join_contains.
Qed.

(** ** Util: session storage *)

Section SessionStorageProperties.

Context {S L : Type}.
Variable env : Env S L.
Variable logger : LoggingSeverity -> SessionMessageId -> string -> string
                  -> L -> L.

Lemma canUseSessionStorage_cached (b : bool) (w : World S L) :
  _canUseSessionStorage w = Some b ->
  canUseSessionStorage env w = (Return b, w).
Proof. unfold canUseSessionStorage. now intros ->. Qed.

Lemma canUseSessionStorage_returns (w : World S L) :
  exists b w',
    canUseSessionStorage env w = (Return b, w')
    /\ _canUseSessionStorage w' = Some b
    /\ localStore w' = localStore w
    /\ _canUseLocalStorage w' = _canUseLocalStorage w
    /\ (storageFaults w <= storageFaults w')%nat
    /\ ((storageFaults w < storageFaults w')%nat -> b = false).
Proof.
  unfold canUseSessionStorage.
  destruct (_canUseSessionStorage w) as [b|] eqn:F.
  - exists b, w. repeat split; auto; lia.
  - destruct (_getVerifiedStorageObject_returns env SessionStorage w)
      as (r & w1 & E & _ & Hle & Hlt).
    destruct (_getVerifiedStorageObject_session_frame env w)
      as (H1 & H2 & _).
    rewrite E in H1, H2. cbn [snd] in H1, H2.
    unfold bind. rewrite E. unfold set_canUseSessionStorage, ret.
    eexists _, _. split; [reflexivity |].
    cbn [_canUseSessionStorage _canUseLocalStorage localStore storageFaults].
    repeat split; auto.
    intros H. now rewrite (Hlt H).
Qed.

Lemma _getSessionStorageObject_returns (w : World S L) :
  exists r b w',
    _getSessionStorageObject env w = (Return r, w')
    /\ fst (canUseSessionStorage env w) = Return b
    /\ _canUseSessionStorage w' = Some b
    /\ localStore w' = localStore w
    /\ _canUseLocalStorage w' = _canUseLocalStorage w
    /\ (storageFaults w <= storageFaults w')%nat
    /\ ((storageFaults w < storageFaults w')%nat -> r = None)
    /\ (b = false -> r = None).
Proof.
  unfold _getSessionStorageObject, bind.
  destruct (canUseSessionStorage_returns w)
    as (b & w1 & E & F & Hs & Hf & Hle & Hlt).
  rewrite E. cbn [fst]. destruct b.
  - destruct (_getVerifiedStorageObject_returns env SessionStorage w1)
      as (r & w2 & E2 & _ & Hle2 & Hlt2).
    destruct (_getVerifiedStorageObject_session_frame env w1)
      as (H1 & H2 & H3 & _).
    rewrite E2 in H1, H2, H3. cbn [snd] in H1, H2, H3.
    rewrite E2. exists r, true, w2.
    split; [reflexivity |]. split; [reflexivity |].
    split; [congruence |]. split; [congruence |]. split; [congruence |].
    split; [lia |]. split; [| discriminate].
    intros H. apply Hlt2.
    destruct (Nat.eq_dec (storageFaults w) (storageFaults w1)) as [Heq | Hne];
      [now rewrite <- Heq |].
    assert (Hw : (storageFaults w < storageFaults w1)%nat) by lia.
    now specialize (Hlt Hw).
  - exists None, false, w1. unfold ret.
    split; [reflexivity |]. split; [reflexivity |].
    split; [exact F |]. split; [exact Hs |]. split; [exact Hf |].
    split; [exact Hle |]. split; reflexivity.
Qed.

Lemma session_accessor_contained {A B : Type} (failure : B)
    (method : Storage S -> S -> outcome A * S) (finish : A -> B)
    (body : Storage S -> @M S L B)
    (msgId : SessionMessageId) (msg : string) (w : World S L) :
  (forall storage w1,
      body storage w1
      = match method storage (sessionStore w1) with
        | (Done a, s1) => (Return (finish a), with_store SessionStorage s1 w1)
        | (Raised e, s1) =>
            (Throw e, count_fault (with_store SessionStorage s1 w1))
        end) ->
  session_contained env failure
    (bind (_getSessionStorageObject env) (fun storage =>
       match storage with
       | Some storage =>
           try_catch (body storage)
             (on_session_failure env logger msgId msg failure)
       | None => ret failure
       end))
    (fun storage s => exists e s', method storage s = (Raised e, s')) w.
Proof.
  intros Hbody. unfold session_contained, bind at 1.
  destruct (_getSessionStorageObject_returns w)
    as (r & b & w1 & E & Hb & F & Hs & Hf & Hle & Hlt & Hfalse).
  rewrite E. destruct r as [storage|].
  - unfold try_catch. rewrite Hbody.
    destruct (method storage (sessionStore w1)) as [[a|e] s1] eqn:Em.
    + eexists _, _. split; [reflexivity |].
      cbn [with_store storageFaults localStore _canUseLocalStorage].
      split; [exact Hs |]. split; [exact Hf |]. intros H.
      now specialize (Hlt H).
    + unfold on_session_failure, bind, set_canUseSessionStorage,
        session_throwInternal, ret.
      eexists _, _. split; [reflexivity |].
      cbn [with_store count_fault localStore _canUseLocalStorage].
      split; [exact Hs |]. split; [exact Hf |].
      intros _. split; [reflexivity |].
      left. exists storage, w1. split; [reflexivity |].
      split; [now exists e, s1 |].
      now apply canUseSessionStorage_cached.
  - unfold ret. exists failure, w1. split; [reflexivity |].
    split; [exact Hs |]. split; [exact Hf |].
    intros _. split; [reflexivity |]. right. exists b.
    repeat split; auto. now apply canUseSessionStorage_cached.
Qed.

(** X24: the accessors of session storage contain the exceptions of the
    storage object as those of local storage do.  [getSessionStorage],
    [setSessionStorage] and [removeSessionStorage] always return; when
    the storage object has thrown during the call the answer is [null]
    (resp. [false]), and [canUseSessionStorage()] answers [false] from
    then on if it was the accessor's own [getItem], [setItem] or
    [removeItem] that threw, and what it answered during the call if the
    verification before it failed.  Local storage and its flag are left
    as they were. *)
Theorem session_storage_exceptions_contained (name data : string)
    (w : World S L) :
  session_contained env None (getSessionStorage env logger name)
    (fun storage s => exists e s', getItem storage name s = (Raised e, s')) w
  /\ session_contained env false (setSessionStorage env logger name data)
       (fun storage s =>
          exists e s', setItem storage name data s = (Raised e, s')) w
  /\ session_contained env false (removeSessionStorage env logger name)
       (fun storage s =>
          exists e s', removeItem storage name s = (Raised e, s')) w.
Proof.
  split; [| split].
  - apply (session_accessor_contained None (fun st => getItem st name) id).
    intros storage w1. unfold call. cbn [store_of].
    destruct (getItem storage name (sessionStore w1)) as [[a|e] s1];
      reflexivity.
  - apply (session_accessor_contained false (fun st => setItem st name data)
             (fun _ => true)).
    intros storage w1. unfold bind, call, ret. cbn [store_of].
    destruct (setItem storage name data (sessionStore w1)) as [[a|e] s1];
      reflexivity.
  - apply (session_accessor_contained false (fun st => removeItem st name)
             (fun _ => true)).
    intros storage w1. unfold bind, call, ret. cbn [store_of].
    destruct (removeItem storage name (sessionStore w1)) as [[a|e] s1];
      reflexivity.
Qed.

End SessionStorageProperties.

(** ** Util: cookies *)

(** [disallowsSameSiteNone] always answers a boolean, which on a string
    tells whether the user agent is one of the broken ones *)
Lemma disallowsSameSiteNone_boolean (userAgent : value) :
  exists b : bool,
    disallowsSameSiteNone userAgent = Return (VBool b)
    /\ forall ua, userAgent = VString ua -> (b = true <-> broken_user_agent ua).
Proof.
  destruct userAgent as [| | b | x | ua | ref];
    try (exists false; split; [reflexivity | discriminate]).
  eexists. split; [apply disallowsSameSiteNone_string |].
  intros ua' [= <-]. unfold broken_user_agent.
  rewrite !orb_true_iff, !andb_true_iff, !negb_true_iff, !hasb_spec.
  rewrite strEndsWith_spec by discriminate.
  rewrite <- (not_true_iff_false (hasb ua "Chrome")), hasb_spec.
  tauto.
Qed.

Section CookieProperties.

Context {L : Type}.
Variable env : CookieEnv.
Variable logger : LoggingSeverity -> CookieMessageId -> string -> string
                  -> L -> L.

Lemma canUseCookies_keeps (st : CookieState L) :
  assigned (snd (canUseCookies env logger st)) = assigned st
  /\ _uaDisallowsSameSiteNone (snd (canUseCookies env logger st))
     = _uaDisallowsSameSiteNone st.
Proof.
  unfold canUseCookies. destruct (_canUseCookies st); [now split |].
  destruct (document_cookie env (assigned st)); now split.
Qed.

(** X25: what [setCookie] assigns to [document.cookie], and how it ends.
    When [canUseCookies] answers [false] nothing is assigned and the call
    returns.  Otherwise one string is assigned, made of the name, an
    equals sign, the value, then [;domain=] and the domain if one is
    given, and [;path=/]; the call ends as that assignment ends, so an
    exception of the assignment leaves [setCookie].  On a page whose
    protocol is [https:] the string ends in [;secure] and may carry
    [;SameSite=None] right after the value; on any other page it has
    neither, and the user agent is not looked at. *)
Theorem setCookie_secure_pages_only (name value : string)
    (domain : option string) (st : CookieState L) :
  exists r st',
    setCookie env logger name value domain st = (r, st')
    /\ if fst (canUseCookies env logger st) then
         exists sameSite secure text,
           text = name +:+ "=" +:+ value +:+ sameSite
                  +:+ (if truthy_opt domain then ";domain=" +:+ to_str domain
                       else "")
                  +:+ ";path=/" +:+ secure
           /\ assigned st' = (assigned st ++ [text])%list
           /\ r = match cookie_assignment env (assigned st) text with
                  | None => Return tt
                  | Some e => Throw e
                  end
           /\ ((location_protocol env = Some "https:"
                /\ secure = ";secure"
                /\ (sameSite = "" \/ sameSite = ";SameSite=None"))
               \/ (location_protocol env <> Some "https:"
                   /\ secure = "" /\ sameSite = ""
                   /\ _uaDisallowsSameSiteNone st'
                      = _uaDisallowsSameSiteNone st))
       else r = Return tt /\ assigned st' = assigned st.
Proof.
  unfold setCookie.
  destruct (canUseCookies_keeps st) as [Ha Hu].
  destruct (canUseCookies env logger st) as [[|] st1]; cbn [fst snd] in *.
  2: { now exists (Return tt), st1. }
  destruct (bool_decide_reflect (location_protocol env = Some "https:"))
    as [Hp | Hp].
  - assert (Hd : exists v st2,
               match _uaDisallowsSameSiteNone st1 with
               | None =>
                   bindC (disallowsSameSiteNone (navigator_userAgent env))
                     (fun v =>
                        Return (v, mkCookieState (_canUseCookies st1) (Some v)
                                     (assigned st1) (cookie_logged st1)))
               | Some v => Return (v, st1)
               end = Return (v, st2)
               /\ assigned st2 = assigned st1).
    { destruct (_uaDisallowsSameSiteNone st1) as [v|]; [now exists v, st1 |].
      destruct (disallowsSameSiteNone_boolean (navigator_userAgent env))
        as (b & -> & _).
      now eexists _, _. }
    destruct Hd as (v & st2 & -> & Ha2).
    unfold assign_cookie, assignment_ends. rewrite Ha2, Ha.
    eexists _, _. split; [reflexivity |].
    exists (if negb (to_boolean v) then ";SameSite=None" else ""), ";secure".
    cbn [assigned].
    assert (Ht : name +:+ "=" +:+
                 (if negb (to_boolean v) then value +:+ ";SameSite=None"
                  else value)
                 +:+ (if truthy_opt domain then ";domain=" +:+ to_str domain
                      else "")
                 +:+ ";path=/" +:+ ";secure"
                 = name +:+ "=" +:+ value
                   +:+ (if negb (to_boolean v) then ";SameSite=None" else "")
                   +:+ (if truthy_opt domain then ";domain=" +:+ to_str domain
                        else "")
                   +:+ ";path=/" +:+ ";secure")
      by (destruct (negb (to_boolean v));
          [now rewrite append_assoc | reflexivity]).
    rewrite Ht. eexists. split; [reflexivity |].
    split; [reflexivity |]. split; [reflexivity |].
    left. split; [exact Hp |]. split; [reflexivity |].
    destruct (negb (to_boolean v)); auto.
  - unfold assign_cookie, assignment_ends. rewrite Ha.
    eexists _, _. split; [reflexivity |]. exists "", "". cbn [assigned].
    eexists. split; [reflexivity |]. split; [reflexivity |].
    split; [reflexivity |].
    right. repeat split; auto.
Qed.

(** X26: on an https page, the first time the question comes up,
    [;SameSite=None] is added for exactly the user agents that
    [disallowsSameSiteNone] does not list as broken; the answer for the
    user agent is kept in [_uaDisallowsSameSiteNone], and the call ends
    as the assignment of the string ends. *)
Theorem setCookie_same_site_none (name value ua : string)
    (domain : option string) (st : CookieState L) :
  fst (canUseCookies env logger st) = true ->
  location_protocol env = Some "https:" ->
  _uaDisallowsSameSiteNone st = None ->
  navigator_userAgent env = VString ua ->
  exists st' sameSite b,
    setCookie env logger name value domain st
    = (assignment_ends env
         (name +:+ "=" +:+ value +:+ sameSite
          +:+ (if truthy_opt domain then ";domain=" +:+ to_str domain
               else "")
          +:+ ";path=/;secure") st, st')
    /\ assigned st'
       = (assigned st
          ++ [name +:+ "=" +:+ value +:+ sameSite
              +:+ (if truthy_opt domain then ";domain=" +:+ to_str domain
                   else "")
              +:+ ";path=/;secure"])%list
    /\ _uaDisallowsSameSiteNone st' = Some (VBool b)
    /\ ((b = true /\ broken_user_agent ua /\ sameSite = "")
        \/ (b = false /\ ~ broken_user_agent ua
            /\ sameSite = ";SameSite=None")).
Proof.
  intros Hcan Hp Hnull Hua. unfold setCookie.
  destruct (canUseCookies_keeps st) as [Ha Hu].
  destruct (canUseCookies env logger st) as [[|] st1]; cbn [fst snd] in *;
    [| discriminate].
  rewrite bool_decide_eq_true_2 by exact Hp.
  rewrite Hu, Hnull.
  destruct (disallowsSameSiteNone_boolean (navigator_userAgent env))
    as (b & -> & Hb).
  specialize (Hb ua Hua). cbn [bindC].
  unfold assign_cookie, assignment_ends. cbn [assigned to_boolean].
  rewrite Ha.
  assert (Ht : name +:+ "=" +:+
               (if negb b then value +:+ ";SameSite=None" else value)
               +:+ (if truthy_opt domain then ";domain=" +:+ to_str domain
                    else "")
               +:+ ";path=/" +:+ ";secure"
               = name +:+ "=" +:+ value
                 +:+ (if b then "" else ";SameSite=None")
                 +:+ (if truthy_opt domain then ";domain=" +:+ to_str domain
                      else "")
                 +:+ ";path=/;secure")
    by (destruct b; cbn [negb]; [reflexivity | now rewrite append_assoc]).
  rewrite Ht.
  eexists _, (if b then "" else ";SameSite=None"), b.
  split; [reflexivity |]. split; [reflexivity |]. split; [reflexivity |].
  destruct b; [left | right]; repeat split; try tauto.
  intros H. apply Hb in H. discriminate.
Qed.

(** X27: cookies that cannot be read are never written.  When reading
    [document.cookie] throws at the first check, [canUseCookies] answers
    [false] and logs one warning; from then on [canUseCookies] answers
    [false] without reading again, and [setCookie] and [deleteCookie]
    assign nothing and log nothing. *)
Theorem unreadable_cookies_are_never_written (name value : string)
    (domain : option string) (st : CookieState L) (e : exn) :
  _canUseCookies st = None ->
  document_cookie env (assigned st) = Raised e ->
  exists st1,
    canUseCookies env logger st = (false, st1)
    /\ assigned st1 = assigned st
    /\ cookie_logged st1
       = logger WARNING CannotAccessCookie
           ("Cannot access document.cookie - "
            +:+ cookie_getExceptionName env e)
           (cookie_dump env e) (cookie_logged st)
    /\ canUseCookies env logger st1 = (false, st1)
    /\ setCookie env logger name value domain st1 = (Return tt, st1)
    /\ deleteCookie env logger name st1 = (Return tt, st1).
Proof.
  intros Hflag Hread. unfold setCookie, deleteCookie, canUseCookies.
  rewrite Hflag, Hread. eexists. split; [reflexivity |].
  cbn. repeat split.
Qed.

End CookieProperties.

Lemma setCookie_same_site_none_witness :
  exists st' sameSite b,
    setCookie
      (https_page "Mozilla/5.0 (Windows NT 10.0) Chrome/120.0 Safari/537.36")
      keep_message "ai_user" "abc" (Some "example.com") initial_cookies
    = (Return tt, st')
    /\ assigned st'
       = (assigned initial_cookies
         ++ ["ai_user" +:+ "=" +:+ "abc" +:+ sameSite
             +:+ (if truthy_opt (Some "example.com")
                  then ";domain=" +:+ to_str (Some "example.com") else "")
             +:+ ";path=/;secure"])%list
    /\ _uaDisallowsSameSiteNone st' = Some (VBool b)
    /\ ((b = true
         /\ broken_user_agent
              "Mozilla/5.0 (Windows NT 10.0) Chrome/120.0 Safari/537.36"
         /\ sameSite = "")
        \/ (b = false
            /\ ~ broken_user_agent
                   "Mozilla/5.0 (Windows NT 10.0) Chrome/120.0 Safari/537.36"
            /\ sameSite = ";SameSite=None")).
Proof.
  apply (setCookie_same_site_none
           (https_page "Mozilla/5.0 (Windows NT 10.0) Chrome/120.0 Safari/537.36")
           keep_message "ai_user" "abc"
           "Mozilla/5.0 (Windows NT 10.0) Chrome/120.0 Safari/537.36"
           (Some "example.com") initial_cookies);
    reflexivity.
Defined.

Lemma unreadable_cookies_are_never_written_witness :
  exists st1,
    canUseCookies framed_page keep_message initial_cookies = (false, st1)
    /\ assigned st1 = assigned initial_cookies
    /\ cookie_logged st1
       = keep_message WARNING CannotAccessCookie
           ("Cannot access document.cookie - "
            +:+ cookie_getExceptionName framed_page
                  (HostError "SecurityError"))
           (cookie_dump framed_page (HostError "SecurityError"))
           (cookie_logged initial_cookies)
    /\ canUseCookies framed_page keep_message st1 = (false, st1)
    /\ setCookie framed_page keep_message "ai_user" "abc" None st1
       = (Return tt, st1)
    /\ deleteCookie framed_page keep_message "ai_user" st1 = (Return tt, st1).
Proof.
  apply (unreadable_cookies_are_never_written framed_page keep_message
           "ai_user" "abc" None initial_cookies (HostError "SecurityError"));
    reflexivity.
Defined.

(** Where cookies can be read but the assignment throws, the exception
    leaves [setCookie] and [deleteCookie]. *)
Example setCookie_assignment_throws :
  let page :=
    mkCookieEnv (fun _ => Done (VString ""))
      (fun _ _ => Some (HostError "SecurityError")) (Some "http:")
      (VString "Mozilla/5.0") exn_name exn_name in
  fst (setCookie page keep_message "ai_user" "abc" None initial_cookies)
  = Throw (HostError "SecurityError")
  /\ fst (deleteCookie page keep_message "ai_user" initial_cookies)
     = Throw (HostError "SecurityError")
  /\ assigned (snd (setCookie page keep_message "ai_user" "abc" None
                      initial_cookies))
     = ["ai_user=abc;path=/"].
Proof. repeat split; vm_compute; reflexivity. Qed.
